(** * CSV ingestion and grouped summarisation of the dashboard: a shallow embedding

    The development follows the two libraries of the repository:
    [csvPosts] (the CSV reader: [parseCsv], [buildRecord], [toThread],
    [dedupeById], [fetchCsvPosts]) and [aiPerspective] (grouping, the retrying
    chat-completion wrapper, the per-bucket summariser and the process-wide
    cache), and the search and the paging of the home page.

    JavaScript strings are modelled by [string]: a sequence of code units, here
    restricted to the code units below 256, on which [toLowerCase], [trim] and
    the character classes of the regular expressions are written out in
    full. *)

From Stdlib Require Import Ascii String List ZArith Lia Bool DecimalString.
From Stdlib Require Import SpecFloat.
From stdpp Require Import gmap strings list fin_maps.

Local Open Scope list_scope.

(** ** Characters and strings as the source uses them *)

Module Js.

Definition DQUOTE : ascii := "034"%char.
Definition COMMA : ascii := ","%char.
Definition LF : ascii := "010"%char.
Definition CR : ascii := "013"%char.

(** [s += c] *)
Definition push_char (s : string) (c : ascii) : string := s +:+ String c EmptyString.

(** [Boolean(s)] on a string: the empty string is the only falsy one. *)
Definition truthy (s : string) : bool :=
  match s with EmptyString => false | String _ _ => true end.

(** [a || b] on strings. *)
Definition or_else (a b : string) : string := if truthy a then a else b.

(** [a || b] where [a] may be [undefined]. *)
Definition opt_or_else (a : option string) (b : string) : string :=
  match a with Some s => or_else s b | None => b end.

(** [a ?? b] *)
Definition nullish (a : option string) (b : string) : string :=
  match a with Some s => s | None => b end.

(** White space and line terminators among the code units below 256:
    TAB, LF, VT, FF, CR, SPACE and NBSP. *)
Definition is_space (c : ascii) : bool :=
  match N_of_ascii c with
  | 9 | 10 | 11 | 12 | 13 | 32 | 160 => true
  | _ => false
  end%N.

Fixpoint trimStart (s : string) : string :=
  match s with
  | String c s' => if is_space c then trimStart s' else s
  | EmptyString => EmptyString
  end.

Fixpoint trimEnd (s : string) : string :=
  match s with
  | String c s' =>
      let t := trimEnd s' in
      if is_space c && negb (truthy t) then EmptyString else String c t
  | EmptyString => EmptyString
  end.

(** [s.trim()] *)
Definition trim (s : string) : string := trimEnd (trimStart s).

(** [toLowerCase] on the code units below 256: A-Z and the capital letters
    U+00C0 to U+00DE (the multiplication sign apart) move up by 32. *)
Definition lower_char (c : ascii) : ascii :=
  let n := N_of_ascii c in
  if ((65 <=? n) && (n <=? 90)
      || (192 <=? n) && (n <=? 222) && negb (n =? 215))%N
  then ascii_of_N (n + 32) else c.

Fixpoint toLowerCase (s : string) : string :=
  match s with
  | String c s' => String (lower_char c) (toLowerCase s')
  | EmptyString => EmptyString
  end.

(** [s.startsWith(prefix)] *)
Definition startsWith (prefix s : string) : bool := String.prefix prefix s.

(** [s.split(sep)] for a one-character separator. *)
Fixpoint split (sep : ascii) (s : string) : list string :=
  match s with
  | EmptyString => [EmptyString]
  | String c s' =>
      if Ascii.eqb c sep then EmptyString :: split sep s'
      else match split sep s' with
           | piece :: pieces => String c piece :: pieces
           | [] => [String c EmptyString]
           end
  end.

(** [parts.join(sep)] *)
Fixpoint join (sep : string) (parts : list string) : string :=
  match parts with
  | [] => EmptyString
  | [part] => part
  | part :: parts' => part +:+ sep +:+ join sep parts'
  end.

(** [s.slice(0, n)] *)
Definition slice0 (n : nat) (s : string) : string := String.substring 0 n s.

(** [s.slice(start, stop)] for [0 <= start]. *)
Definition slice (start stop : nat) (s : string) : string :=
  String.substring start (stop - start) s.

(** [s.indexOf(c)] for a one-character [c]; [None] stands for -1. *)
Fixpoint indexOf (c : ascii) (s : string) : option nat :=
  match s with
  | EmptyString => None
  | String x s' => if Ascii.eqb x c then Some O else S <$> indexOf c s'
  end.

(** [s.lastIndexOf(c)] for a one-character [c]; [None] stands for -1. *)
Fixpoint lastIndexOf (c : ascii) (s : string) : option nat :=
  match s with
  | EmptyString => None
  | String x s' =>
      match lastIndexOf c s' with
      | Some i => Some (S i)
      | None => if Ascii.eqb x c then Some O else None
      end
  end.

(** [o[k] = v] for a string [v] on an object created by a literal: assigning a
    primitive to the property named [__proto__] goes to the inherited setter,
    which ignores it; every other name becomes an own property. *)
Definition set_property (o : gmap string string) (k v : string) : gmap string string :=
  if String.eqb k "__proto__" then o else <[k:=v]> o.

(** A call that returns or throws. *)
Inductive outcome (A : Type) : Type :=
| Returned (a : A)
| Thrown (message : string).
Arguments Returned {A} a.
Arguments Thrown {A} message.

(** [try { body } catch (error) { handler(error.message) }] *)
Definition try_catch {A : Type} (body : outcome A) (handler : string -> outcome A) : outcome A :=
  match body with
  | Returned a => Returned a
  | Thrown message => handler message
  end.

Definition bind {A B : Type} (m : outcome A) (k : A -> outcome B) : outcome B :=
  match m with
  | Returned a => k a
  | Thrown message => Thrown message
  end.

End Js.

(** ** types: posts *)

Module Types.

Record Post : Type := mkPost {
  id : string;
  title : string;
  body : option string;
  author : option string;
  url : option string;
  tags : option (list string);
  type : option string;
}.

Record CsvPost : Type := mkCsvPost {
  post :> Post;
  model : option string;
  baseModel : option string;
  version : option string;
  hwNumber : option string;
  name : option string;
  titleRaw : option string;
  threadId : option string;
}.

End Types.

(** ** csvPosts: the CSV reader *)

Module Csv.
Import Js Types.

(** [if (row.some((cell) => cell.length > 0)) rows.push(row)] *)
Definition flush (rows : list (list string)) (row : list string) : list (list string) :=
  if existsb (fun cell => (0 <? String.length cell)%nat) row then rows ++ [row] else rows.

(** The body of the [for] loop of [parseCsv] followed by the code after the
    loop. [input] is the text from index [i] on; skipping a character
    ([i += 1]) is a recursive call on the tail of the tail. *)
Fixpoint scan (input : string) (rows : list (list string)) (row : list string)
    (field : string) (inQuotes : bool) {struct input} : list (list string) :=
  match input with
  | EmptyString => flush rows (row ++ [field])
  | String char rest =>
      if Ascii.eqb char DQUOTE then
        match rest with
        | String next rest' =>
            if inQuotes && Ascii.eqb next DQUOTE
            then scan rest' rows row (push_char field DQUOTE) inQuotes
            else scan rest rows row field (negb inQuotes)
        | EmptyString => scan rest rows row field (negb inQuotes)
        end
      else if Ascii.eqb char COMMA && negb inQuotes then
        scan rest rows (row ++ [field]) EmptyString inQuotes
      else if (Ascii.eqb char LF || Ascii.eqb char CR) && negb inQuotes then
        match rest with
        | String next rest' =>
            if Ascii.eqb char CR && Ascii.eqb next LF
            then scan rest' (flush rows (row ++ [field])) [] EmptyString inQuotes
            else scan rest (flush rows (row ++ [field])) [] EmptyString inQuotes
        | EmptyString => scan rest (flush rows (row ++ [field])) [] EmptyString inQuotes
        end
      else scan rest rows row (push_char field char) inQuotes
  end.

Definition parseCsv (input : string) : list (list string) :=
  scan input [] [] EmptyString false.

(** The body of the loop of [buildRecord] at index [i]; [row[i] ?? ""] is the
    empty string once [i] is past the end of the row. *)
Definition buildRecord_step (header row : list string)
    (record : gmap string string) (i : nat) : gmap string string :=
  match header !! i with
  | Some key =>
      if negb (truthy key) then record
      else set_property record key (nullish (row !! i) EmptyString)
  | None => record
  end.

(** The record after the iterations [0 .. n-1] of the loop. *)
Definition record_upto (header row : list string) (n : nat) : gmap string string :=
  fold_left (buildRecord_step header row) (seq 0 n) ∅.

Definition buildRecord (header row : list string) : option (gmap string string) :=
  if (length row =? 0)%nat then None
  else Some (record_upto header row (length header)).

(** [(record.thread_id ?? "").trim()] *)
Definition thread_id_of (record : gmap string string) : string :=
  trim (nullish (record !! "thread_id") EmptyString).

(** [tag] when [value] is not empty, with the empty strings filtered out. *)
Definition tag_of (prefix value : string) : list string :=
  if truthy value then [prefix +:+ value] else [].

(** [toThread]. [randomUUID n] is the value of the [n]-th call of
    [crypto.randomUUID()]; [draws] counts the calls made so far. *)
Definition toThread (randomUUID : nat -> string) (record : gmap string string)
    (draws : nat) : Types.CsvPost * nat :=
  let titleClean := trim <$> record !! "title_clean" in
  let titleRaw := trim <$> record !! "title_raw" in
  let hwNumber := trim (nullish (record !! "hw_number") EmptyString) in
  let model := trim (nullish (record !! "model") EmptyString) in
  let baseModel := trim (nullish (record !! "base_model") EmptyString) in
  let version := trim (nullish (record !! "version") EmptyString) in
  let name := trim (nullish (record !! "name") EmptyString) in
  let text := nullish (record !! "text") EmptyString in
  let url := trim <$> record !! "url" in
  let threadId := thread_id_of record in
  let tags := tag_of "hw:" hwNumber ++ tag_of "model:" model
              ++ tag_of "base_model:" baseModel ++ tag_of "version:" version in
  let '(id, draws') :=
    if truthy threadId then (threadId, draws) else (randomUUID draws, S draws) in
  (Types.mkCsvPost
     (Types.mkPost id
        (opt_or_else titleClean (opt_or_else titleRaw "Untitled"))
        (Some text)
        (Some (or_else name "Unknown author"))
        (match url with Some u => if truthy u then Some u else None | None => None end)
        (Some tags)
        (Some "special_participation"))
     (Some model) (Some baseModel) (Some version) (Some hwNumber) (Some name)
     titleRaw (Some threadId),
   draws').

(** [records.map((record) => toThread(record))], left to right. *)
Fixpoint toThreads (randomUUID : nat -> string) (records : list (gmap string string))
    (draws : nat) : list Types.CsvPost :=
  match records with
  | [] => []
  | record :: records' =>
      let '(thread, draws') := toThread randomUUID record draws in
      thread :: toThreads randomUUID records' draws'
  end.

(** The loop of [dedupeById]. *)
Fixpoint dedupe_loop (threads : list Types.CsvPost) (seen : gset string)
    (out : list Types.CsvPost) : list Types.CsvPost :=
  match threads with
  | [] => out
  | thread :: threads' =>
      let key := Types.id thread in
      if decide (key ∈ seen) then dedupe_loop threads' seen out
      else dedupe_loop threads' ({[key]} ∪ seen) (out ++ [thread])
  end.

Definition dedupeById (threads : list Types.CsvPost) : list Types.CsvPost :=
  dedupe_loop threads ∅ [].

(** The ids of a list of posts, in order. *)
Definition ids (threads : list CsvPost) : list string :=
  map (fun thread : CsvPost => id thread) threads.

(** [thread.id === x] *)
Definition has_id (x : string) (thread : CsvPost) : bool := String.eqb (id thread) x.

(** The invariant of the loop of [dedupeById]: [seen] holds exactly the ids of
    [out]. *)
Definition seen_tracks (seen : gset string) (out : list CsvPost) : Prop :=
  forall x, x ∈ seen <-> In x (ids out).

Record FetchResult : Type := mkFetchResult {
  threads : list Types.CsvPost;
  warning : option string;
}.

(** The records of the data rows, [null] ones filtered out. *)
Definition buildRecords (header : list string) (rows : list (list string))
    : list (gmap string string) :=
  omap (buildRecord header) rows.

(** The posts built from the parsed rows, before deduplication. *)
Definition builtThreads (randomUUID : nat -> string) (rows : list (list string))
    : list Types.CsvPost :=
  match rows with
  | [] => []
  | header :: data => toThreads randomUUID (buildRecords header data) 0
  end.

(** [fetchCsvPosts]. [readFile] is the outcome of [fs.readFile(csvPath, "utf8")]:
    the text of the file, or the error it rejects with. *)
Definition fetchCsvPosts (readFile : outcome string) (randomUUID : nat -> string)
    : outcome FetchResult :=
  try_catch
    (bind readFile (fun csv =>
       let rows := parseCsv csv in
       match rows with
       | [] => Returned (mkFetchResult [] (Some "CSV file is empty."))
       | header :: data =>
           Returned (mkFetchResult
             (dedupeById (toThreads randomUUID (buildRecords header data) 0)) None)
       end))
    (fun message =>
       Returned (mkFetchResult [] (Some ("Failed to read CSV (" +:+ message +:+ ").")))).

(** [fetchCsvPostById] *)
Definition fetchCsvPostById (readFile : outcome string) (randomUUID : nat -> string)
    (id : string) : outcome (option Types.CsvPost * option string) :=
  bind (fetchCsvPosts readFile randomUUID) (fun r =>
    let found := find (has_id id) (threads r) in
    Returned (found,
              match found with
              | Some _ => warning r
              | None => Some (nullish (warning r) "Not found.")
              end)).

(** The text of a quoted field: every double quote of the content doubled. *)
Fixpoint escape (s : string) : string :=
  match s with
  | EmptyString => EmptyString
  | String c s' =>
      if Ascii.eqb c DQUOTE then String DQUOTE (String DQUOTE (escape s'))
      else String c (escape s')
  end.

(** A field wrapped in double quotes. *)
Definition quoted (s : string) : string :=
  String DQUOTE (escape s +:+ String DQUOTE EmptyString).

(** The first character of [s] is not a double quote (or there is none). *)
Definition no_quote_ahead (s : string) : bool :=
  match s with
  | String c _ => negb (Ascii.eqb c DQUOTE)
  | EmptyString => true
  end.

(** What remains of [s] after a line feed that completes a CR LF pair. *)
Definition skip_lf (s : string) : string :=
  match s with
  | String c s' => if Ascii.eqb c LF then s' else s
  | EmptyString => s
  end.

End Csv.

(** ** Regular expressions of the grouping heuristics *)

Module Regex.
Import Js.

(** [\w] *)
Definition is_word (c : ascii) : bool :=
  let n := N_of_ascii c in
  ((48 <=? n) && (n <=? 57) || (65 <=? n) && (n <=? 90)
   || (97 <=? n) && (n <=? 122) || (n =? 95))%N.

(** [[0-9]] *)
Definition is_digit (c : ascii) : bool :=
  let n := N_of_ascii c in ((48 <=? n) && (n <=? 57))%N.

(** Case folding of the [i] flag: among the code units below 256 only the
    letters A-Z canonicalise to the same character as an ASCII letter. *)
Definition fold_case (c : ascii) : ascii :=
  let n := N_of_ascii c in
  if ((65 <=? n) && (n <=? 90))%N then ascii_of_N (n + 32) else c.

(** The fragment of the regular expressions the source uses. Quantifiers only
    occur on single characters and classes, except for the optional group. *)
Inductive re : Type :=
| Eps
| Chr (c : ascii)               (* a literal character, matched under the i flag *)
| Cls (p : ascii -> bool)       (* a character class *)
| WordB                         (* \b *)
| Seq (r1 r2 : re)
| Opt (r : re)                  (* r? *)
| Star (p : ascii -> bool)      (* class* *)
| Plus (p : ascii -> bool)      (* class+ *)
| Rep12 (p : ascii -> bool)     (* class{1,2} *)
| Cap (r : re).                 (* ( r ), capture group 1 *)

(** A literal word. *)
Fixpoint lit (s : string) : re :=
  match s with
  | EmptyString => Eps
  | String c s' => Seq (Chr c) (lit s')
  end.

(** Concatenation of a list of pieces. *)
Definition cat (pieces : list re) : re := fold_right Seq Eps pieces.

Definition word_at (c : option ascii) : bool :=
  match c with Some x => is_word x | None => false end.

Definition first_char (s : string) : option ascii :=
  match s with String c _ => Some c | EmptyString => None end.

(** The text consumed between two positions of the input. *)
Definition consumed (before after : string) : string :=
  String.substring 0 (String.length before - String.length after) before.

Section Matcher.
Context {A : Type}.

(** Continuations receive the last character read, the rest of the input and
    the capture. *)
Definition cont : Type := option ascii -> string -> option string -> option A.

(** Greedy iteration of a class, giving characters back one at a time when the
    rest of the pattern fails. *)
Fixpoint star_loop (p : ascii -> bool) (prev : option ascii) (s : string)
    (cap : option string) (k : cont) : option A :=
  match s with
  | String c s' =>
      if p c then
        match star_loop p (Some c) s' cap k with
        | Some r => Some r
        | None => k prev s cap
        end
      else k prev s cap
  | EmptyString => k prev s cap
  end.

(** Backtracking match of [r] at the current position. *)
Fixpoint run (r : re) (prev : option ascii) (s : string) (cap : option string)
    (k : cont) : option A :=
  match r with
  | Eps => k prev s cap
  | Chr c =>
      match s with
      | String x s' =>
          if Ascii.eqb (fold_case x) (fold_case c) then k (Some x) s' cap else None
      | EmptyString => None
      end
  | Cls p =>
      match s with
      | String x s' => if p x then k (Some x) s' cap else None
      | EmptyString => None
      end
  | WordB =>
      if xorb (word_at prev) (word_at (first_char s)) then k prev s cap else None
  | Seq r1 r2 => run r1 prev s cap (fun prev' s' cap' => run r2 prev' s' cap' k)
  | Opt r1 =>
      match run r1 prev s cap k with
      | Some res => Some res
      | None => k prev s cap
      end
  | Star p => star_loop p prev s cap k
  | Plus p =>
      match s with
      | String x s' => if p x then star_loop p (Some x) s' cap k else None
      | EmptyString => None
      end
  | Rep12 p =>
      match s with
      | String x s' =>
          if p x then
            match s' with
            | String y s'' =>
                if p y then
                  match k (Some y) s'' cap with
                  | Some res => Some res
                  | None => k (Some x) s' cap
                  end
                else k (Some x) s' cap
            | EmptyString => k (Some x) s' cap
            end
          else None
      | EmptyString => None
      end
  | Cap r1 => run r1 prev s cap (fun prev' s' _ => k prev' s' (Some (consumed s s')))
  end.

End Matcher.

(** The leftmost match: every start position is tried in turn. The result is
    the capture of the match. *)
Fixpoint search (r : re) (prev : option ascii) (s : string) : option (option string) :=
  match run r prev s None (fun _ _ cap => Some cap) with
  | Some res => Some res
  | None =>
      match s with
      | String c s' => search r (Some c) s'
      | EmptyString => None
      end
  end.

(** [text.match(r)?.[1]] for a pattern without the [g] flag. *)
Definition match1 (r : re) (text : string) : option string :=
  match search r None text with
  | Some cap => cap
  | None => None
  end.

(** [r.test(text)] *)
Definition test (r : re) (text : string) : bool :=
  match search r None text with Some _ => true | None => false end.

End Regex.

(** ** aiPerspective: grouping *)

Module Ai.
Import Js Types Regex.

(** [\s] *)
Definition cls_space : ascii -> bool := is_space.
(** [[:\s_\-]] *)
Definition cls_hw_sep (c : ascii) : bool :=
  Ascii.eqb c ":" || is_space c || Ascii.eqb c "_" || Ascii.eqb c "-".
(** [[-\s]] *)
Definition cls_dash_space (c : ascii) : bool := Ascii.eqb c "-" || is_space c.
(** [[:=]] *)
Definition cls_colon_eq (c : ascii) : bool := Ascii.eqb c ":" || Ascii.eqb c "=".
(** [[a-z0-9\.\-\_]] under the i flag *)
Definition cls_model_token (c : ascii) : bool :=
  let n := N_of_ascii (fold_case c) in
  ((97 <=? n) && (n <=? 122) || (48 <=? n) && (n <=? 57))%N
  || Ascii.eqb c "." || Ascii.eqb c "-" || Ascii.eqb c "_".

(** [([0-9]{1,2})\b] *)
Definition number_tail : list re := [Cap (Rep12 is_digit); WordB].

(** The patterns of [detectHomework], in the order of the source. *)
Definition homework_patterns : list re :=
  [ cat ([WordB; lit "hw"; Star cls_space] ++ number_tail);
    cat ([WordB; lit "hw"; Star cls_hw_sep] ++ number_tail);
    cat ([WordB; lit "homework"; Star cls_space] ++ number_tail);
    cat ([WordB; lit "assignment"; Star cls_space] ++ number_tail);
    cat ([WordB; lit "proj"; Opt (lit "ect"); Star cls_space] ++ number_tail) ].

(** The loop of [detectHomework]: the first pattern whose match has a non-empty
    capture decides. *)
Fixpoint first_capture (patterns : list re) (text : string) : option string :=
  match patterns with
  | [] => None
  | pattern :: patterns' =>
      match match1 pattern text with
      | Some number => if truthy number then Some number else first_capture patterns' text
      | None => first_capture patterns' text
      end
  end.

Definition detectHomework (input : string) : option string :=
  first_capture homework_patterns (toLowerCase input).

(** The dictionary of [detectModels]. *)
Definition dictionary : list (string * list re) :=
  [ ("gpt-4o", [cat [WordB; lit "gpt"; Opt (Cls cls_dash_space); lit "4o"; WordB]]);
    ("gpt-4o-mini", [cat [WordB; lit "gpt"; Opt (Cls cls_dash_space); lit "4o";
                          Opt (Cls cls_dash_space); lit "mini"; WordB]]);
    ("o1", [cat [WordB; lit "o1"; WordB];
            cat [WordB; lit "o1"; Cls cls_dash_space; lit "preview"; WordB];
            cat [WordB; lit "o1"; Cls cls_dash_space; lit "mini"; WordB]]);
    ("claude", [cat [WordB; lit "claude"; WordB]; cat [WordB; lit "anthropic"; WordB]]);
    ("gemini", [cat [WordB; lit "gemini"; WordB]]);
    ("llama", [cat [WordB; lit "llama"; WordB];
               cat [WordB; lit "meta"; Opt (Cls cls_dash_space); lit "llama"; WordB]]);
    ("mistral", [cat [WordB; lit "mistral"; WordB]]);
    ("deepseek", [cat [WordB; lit "deepseek"; WordB]]);
    ("qwen", [cat [WordB; lit "qwen"; WordB]]);
    ("grok", [cat [WordB; lit "grok"; WordB]]) ].

(** [/\bmodel\s*[:=]\s*([a-z0-9\.\-\_]+)\b/i] *)
Definition model_line : re :=
  cat [WordB; lit "model"; Star cls_space; Cls cls_colon_eq; Star cls_space;
       Cap (Plus cls_model_token); WordB].

(** [hits.add(key)] on a [Set], which keeps insertion order. *)
Definition set_add (hits : list string) (key : string) : list string :=
  if existsb (String.eqb key) hits then hits else hits ++ [key].

Definition detectModels (input : string) : list string :=
  let text := toLowerCase input in
  let hits :=
    fold_left (fun hits (entry : string * list re) =>
                 if existsb (fun pattern => test pattern text) entry.2
                 then set_add hits entry.1 else hits)
              dictionary [] in
  match match1 model_line text with
  | Some token => if truthy token then set_add hits token else hits
  | None => hits
  end.

(** [existing.some((item) => String(item.id) === id)] *)
Definition some_id (existing : list Post) (x : string) : bool :=
  existsb (fun item : Post => String.eqb (id item) x) existing.

Definition pushMapUniqueById (map : gmap string (list Post)) (key : string) (value : Post)
    : gmap string (list Post) :=
  match map !! key with
  | None => <[key := [value]]> map
  | Some existing =>
      if some_id existing (id value) then map
      else <[key := existing ++ [value]]> map
  end.

(** [thread.tags ?? []] *)
Definition tags_of (thread : Post) : list string :=
  match tags thread with Some l => l | None => [] end.

(** The text the patterns are run on. *)
Definition text_of (thread : Post) : string :=
  title thread +:+ String LF (nullish (body thread) EmptyString)
  +:+ String LF (join " " (tags_of thread)).

(** [tags.find((tag) => tag.toLowerCase().startsWith(prefix))] *)
Definition find_tag (prefix : string) (thread : Post) : option string :=
  find (fun tag => startsWith prefix (toLowerCase tag)) (tags_of thread).

(** [tag.split(":")[1]?.trim()] *)
Definition tag_value (tag : string) : option string :=
  trim <$> (split ":" tag !! 1%nat).

(** The value of [hw] in the loop of [groupThreads]. *)
Definition hw_of (thread : Post) : option string :=
  match find_tag "hw:" thread with
  | Some hwFromTags =>
      if truthy hwFromTags then tag_value hwFromTags else detectHomework (text_of thread)
  | None => detectHomework (text_of thread)
  end.

(** [if (x) f(x)] for a string that may be undefined. *)
Definition when_truthy {S : Type} (x : option string) (f : string -> S -> S) (st : S) : S :=
  match x with
  | Some v => if truthy v then f v st else st
  | None => st
  end.

Record Groups : Type := mkGroups {
  homeworkGroups : gmap string (list Post);
  modelGroups : gmap string (list Post);
}.

(** One iteration of the first loop of [groupThreads]. *)
Definition group_step (g : Groups) (thread : Post) : Groups :=
  let homeworkGroups' :=
    when_truthy (hw_of thread)
      (fun hw m => pushMapUniqueById m ("hw:" +:+ hw) thread) (homeworkGroups g) in
  let modelGroups' :=
    match find_tag "base_model:" thread with
    | Some baseModelFromTags =>
        if truthy baseModelFromTags then
          when_truthy (tag_value baseModelFromTags)
            (fun base m => pushMapUniqueById m ("model:" +:+ base) thread) (modelGroups g)
        else
          fold_left (fun m model => pushMapUniqueById m ("model:" +:+ model) thread)
                    (detectModels (text_of thread)) (modelGroups g)
    | None =>
        fold_left (fun m model => pushMapUniqueById m ("model:" +:+ model) thread)
                  (detectModels (text_of thread)) (modelGroups g)
    end in
  mkGroups homeworkGroups' modelGroups'.

(** The groups after the first loop. *)
Definition collect (threads : list Post) : Groups :=
  fold_left group_step threads (mkGroups ∅ ∅).

(** The second loop: every entry of the map is visited once (deleting the entry
    being visited does not disturb the iteration) and removed when it holds
    fewer than two posts. *)
Definition drop_step (acc : gmap string (list Post)) (entry : string * list Post)
    : gmap string (list Post) :=
  if (length entry.2 <? 2)%nat then delete entry.1 acc else acc.

Definition drop_small (m : gmap string (list Post)) : gmap string (list Post) :=
  fold_left drop_step (map_to_list m) m.

Definition groupThreads (threads : list Post) : Groups :=
  let g := collect threads in
  mkGroups (homeworkGroups g) (drop_small (modelGroups g)).

(** No bucket of the map holds two posts of the same id. *)
Definition distinct_buckets (m : gmap string (list Post)) : Prop :=
  forall key items, m !! key = Some items -> NoDup (map id items).

End Ai.

(** ** aiPerspective: the chat-completion wrapper, the cache, the summariser *)

Module Summary.

Record GroupPostSummary : Type := mkGroupPostSummary {
  id : string;
  title : string;
  takeaway : string;
}.

Record GroupSummary : Type := mkGroupSummary {
  key : string;
  label : string;
  count : nat;
  overview : string;
  posts : list GroupPostSummary;
}.

End Summary.

Module Perspective.

Record Cluster : Type := mkCluster {
  title : string;
  description : string;
  tags : list string;
  size : Z;
}.

Inductive Mode : Type := llm | heuristic.

Record AIPerspective : Type := mkAIPerspective {
  summary : string;
  clusters : list Cluster;
  modelUsed : string;
  mode : Mode;
}.

End Perspective.

Module Remote.
Import Js.

(** The numbers of this code: integers, and [NaN] for what [Number()] cannot
    read. Fractional values do not occur in the model. *)
Inductive num : Type := Int (z : Z) | NaN.

(** [Math.max(a, b)] *)
Definition num_max (a b : num) : num :=
  match a, b with
  | Int x, Int y => Int (Z.max x y)
  | _, _ => NaN
  end.

(** The [retry-after] header as the code reads it: [Absent] when
    [headers.get] gives [null] or the empty string, [Seconds s] when
    [Number(value)] is the integer [s], [Unreadable] when it is [NaN] (the
    HTTP-date form). *)
Inductive retry_header : Type := Absent | Seconds (s : Z) | Unreadable.

(** What [response.json()] holds for the code: [choices?.[0]?.message?.content]
    and [model]. *)
Record Body : Type := mkBody {
  content : option string;
  model : option string;
}.

Record Response : Type := mkResponse {
  status : Z;
  retry_after : retry_header;
  json : outcome Body;
  text : outcome string;
}.

(** [response.ok] *)
Definition ok (response : Response) : bool :=
  ((200 <=? status response) && (status response <=? 299))%Z.

Record Completion : Type := mkCompletion {
  completion_content : string;
  completion_modelUsed : string;
}.

(** What the process does to the outside: requests and sleeps. *)
Inductive event : Type :=
| Fetched (request : nat)
| Slept (ms : num).

(** A value stored in the process-wide cache. *)
Inductive cached : Type :=
| CachedOverview (p : Perspective.AIPerspective)
| CachedGroup (g : Summary.GroupSummary).

(** The state the calls thread through: how many requests were issued, how
    many random numbers were drawn, what happened so far, and the cache
    ([globalThis.__ai_cache]). *)
Record World : Type := mkWorld {
  requests : nat;
  draws : nat;
  trace : list event;
  cache : gmap string cached;
}.

Definition fetched (w : World) : World :=
  mkWorld (S (requests w)) (draws w) (trace w ++ [Fetched (requests w)]) (cache w).

Definition slept (ms : num) (w : World) : World :=
  mkWorld (requests w) (S (draws w)) (trace w ++ [Slept ms]) (cache w).

(** [retryAfter ? Number(retryAfter) * 1000 : 0] *)
Definition retryAfterMs (h : retry_header) : num :=
  match h with
  | Absent => Int 0
  | Seconds s => Int (s * 1000)
  | Unreadable => NaN
  end.

(** [response.status === 429 || (response.status >= 500 && response.status <= 599)] *)
Definition transient (response : Response) : bool :=
  ((status response =? 429)
   || (500 <=? status response) && (status response <=? 599))%Z.

(** [Math.max(1, Number(process.env.AI_OPENAI_MAX_RETRIES ?? 5))]; the variable
    is [None] when unset, and otherwise what [Number()] makes of it. *)
Definition maxAttempts (env : option num) : num :=
  num_max (Int 1) (match env with Some n => n | None => Int 5 end).

(** The decimal text of a status code. *)
Definition show_status (z : Z) : string := NilZero.string_of_int (Z.to_int z).

Section Completion.

(** [random_floor n maxMs] is the value of [Math.floor(Math.random() * maxMs)]
    at the [n]-th draw; [net n] is what [fetch] gives for the [n]-th request of
    the process: a response, or a rejection. *)
Variable random_floor : nat -> Z -> Z.
Variable net : nat -> outcome Response.

(** [jitter(maxMs)] *)
Definition jitter (maxMs : Z) (w : World) : Z := random_floor (draws w) maxMs.

(** [Math.min(30_000, 600 * 2 ** (attempt - 1) + jitter(250))] *)
Definition backoffMs (attempt : Z) (w : World) : Z :=
  Z.min 30000 (600 * 2 ^ (attempt - 1) + jitter 250 w).

(** The loop of [openaiChatCompletion] with [fuel] iterations left, at
    iteration [attempt]. *)
Fixpoint attempts (fuel : nat) (attempt : Z) (model_name : string) (w : World)
    : outcome Completion * World :=
  match fuel with
  | O => (Thrown "OpenAI retries exhausted (429/5xx).", w)
  | S fuel' =>
      let w1 := fetched w in
      match net (requests w) with
      | Thrown message => (Thrown message, w1)
      | Returned response =>
          if ok response then
            match json response with
            | Thrown message => (Thrown message, w1)
            | Returned body =>
                match content body with
                | Some c =>
                    if truthy c
                    then (Returned (mkCompletion c (nullish (model body) model_name)), w1)
                    else (Thrown "OpenAI response missing content", w1)
                | None => (Thrown "OpenAI response missing content", w1)
                end
            end
          else if transient response then
            let ms := num_max (retryAfterMs (retry_after response))
                              (Int (backoffMs attempt w1)) in
            attempts fuel' (attempt + 1) model_name (slept ms w1)
          else
            let body := match text response with
                        | Returned t => t
                        | Thrown _ => EmptyString
                        end in
            (Thrown ("OpenAI responded with " +:+ show_status (status response)
                     +:+ (if truthy body then ": " +:+ slice0 140 body else EmptyString)),
             w1)
      end
  end.

Definition openaiChatCompletion (env_max_retries : option num) (model_name : string)
    (w : World) : outcome Completion * World :=
  match maxAttempts env_max_retries with
  | Int m => attempts (Z.to_nat m) 1 model_name w
  | NaN => (Thrown "OpenAI retries exhausted (429/5xx).", w)
  end.

End Completion.

End Remote.

(** ** Decoded JSON *)

Module Json.
Import Js.

(** A value [JSON.parse] returns. A number is carried as the text [String()]
    gives for it, the only way the summariser looks at one; an object as its
    own properties, each name once. *)
#[local] Unset Elimination Schemes.
Inductive value : Type :=
| Null
| Bool (b : bool)
| Number (rendering : string)
| Str (s : string)
| Array (items : list value)
| Object (fields : list (string * value)).
#[local] Set Elimination Schemes.

(** [v?.k] for one of the property names the summariser reads; arrays and
    primitives have no such property. *)
Definition get (v : option value) (k : string) : option value :=
  match v with
  | Some (Object fields) => snd <$> find (fun field => String.eqb field.1 k) fields
  | _ => None
  end.

(** [String(v)] *)
Fixpoint to_String (v : value) : string :=
  match v with
  | Null => "null"
  | Bool true => "true"
  | Bool false => "false"
  | Number rendering => rendering
  | Str s => s
  | Array items =>
      join "," (map (fun item => match item with
                                 | Null => EmptyString
                                 | _ => to_String item
                                 end) items)
  | Object _ => "[object Object]"
  end.

(** [typeof v === "string" ? v : ""] *)
Definition string_or_empty (v : option value) : string :=
  match v with Some (Str s) => s | _ => EmptyString end.

(** [Array.isArray(v) ? v : []] *)
Definition array_or_empty (v : option value) : list value :=
  match v with Some (Array items) => items | _ => [] end.

(** [String(v ?? "")] *)
Definition string_of_nullish (v : option value) : string :=
  match v with
  | None | Some Null => EmptyString
  | Some w => to_String w
  end.

End Json.

(** ** aiPerspective: the summariser of a bucket and the cached calls *)

Module Summarise.
Import Js Types Remote.

(** The text between the first opening brace and the last closing brace, both
    included, which [safeParseJsonObject] hands to [JSON.parse]. *)
Definition json_slice (input : string) : option string :=
  match indexOf "{" input, lastIndexOf "}" input with
  | Some start, Some stop =>
      if (stop <=? start)%nat then None else Some (slice start (stop + 1) input)
  | _, _ => None
  end.

(** The sample of a bucket sent to the model: an object with the fields [id],
    [title], [body], [tags], [author] and [type], that is a post without
    [url]. *)
Definition group_sample (items : list Post) : list Post :=
  map (fun thread : Post =>
         mkPost (id thread) (title thread)
                (Some (slice0 700 (nullish (body thread) EmptyString)))
                (Some (nullish (author thread) EmptyString))
                None
                (Some (Ai.tags_of thread))
                (Some (nullish (type thread) EmptyString)))
      (firstn 28 items).

(** The sample of [callOpenAI]: [id], [title], [body], [tags] and [type]. *)
Definition overview_sample (threads : list Post) : list Post :=
  map (fun thread : Post =>
         mkPost (id thread) (title thread)
                (Some (nullish (slice0 600 <$> body thread) EmptyString))
                None None
                (Some (Ai.tags_of thread))
                (type thread))
      (firstn 24 threads).

(** One element of [postsRaw] turned into an entry. *)
Definition decode_post (p : Json.value) : Summary.GroupPostSummary :=
  Summary.mkGroupPostSummary
    (Json.string_of_nullish (Json.get (Some p) "id"))
    (Json.string_or_empty (Json.get (Some p) "title"))
    (Json.string_or_empty (Json.get (Some p) "takeaway")).

(** [p.id && p.title && p.takeaway] *)
Definition complete (p : Summary.GroupPostSummary) : bool :=
  truthy (Summary.id p) && truthy (Summary.title p) && truthy (Summary.takeaway p).

(** The entry patched in for a post of the sample. *)
Definition patch (thread : Post) : Summary.GroupPostSummary :=
  Summary.mkGroupPostSummary (id thread) (title thread)
    (slice0 120 (or_else (nullish (body thread) EmptyString) "No body.")).

(** The body of the patching loop. *)
Definition patch_step (seen : gset string) (patched : list Summary.GroupPostSummary)
    (thread : Post) : list Summary.GroupPostSummary :=
  if decide (id thread ∈ seen) then patched else patched ++ [patch thread].

(** The input of [hashKey]: the object whose JSON text is hashed. *)
Inductive KeyInput : Type :=
| OverviewKey (model_name : string) (sample : list Post)
| GroupKey (model_name key : string) (sample : list Post).

(** [setCache] *)
Definition setCache (k : string) (v : cached) (w : World) : World :=
  mkWorld (requests w) (draws w) (trace w) (<[k := v]> (cache w)).

(** [getCache] *)
Definition getCache (k : string) (w : World) : option cached := cache w !! k.

Section Summariser.

(** [JSON.parse], [None] when it throws; [hashKey], the SHA-256 of the JSON
    text of its argument; the random source and the network as above;
    [extractClusters], which does not bear on what is proved here. *)
Variable JSON_parse : string -> option Json.value.
Variable hashKey : KeyInput -> string.
Variable random_floor : nat -> Z -> Z.
Variable net : nat -> outcome Response.
Variable extractClusters : string -> list Perspective.Cluster.

Definition safeParseJsonObject (input : string) : option Json.value :=
  match json_slice input with
  | Some text => JSON_parse text
  | None => None
  end.

(** The entries decoded from the answer of the model. *)
Definition decoded_posts (answer : string) : list Summary.GroupPostSummary :=
  let parsed := safeParseJsonObject answer in
  filter (fun p => complete p = true)
         (map decode_post (Json.array_or_empty (Json.get parsed "posts"))).

(** The part of [summarizeGroup] after the answer has arrived. *)
Definition summary_of (label key : string) (items : list Post) (answer : string)
    : Summary.GroupSummary :=
  let sample := group_sample items in
  let parsed := safeParseJsonObject answer in
  let overview := Json.string_or_empty (Json.get parsed "overview") in
  let posts := decoded_posts answer in
  let seen : gset string := list_to_set (map Summary.id posts) in
  let patched := fold_left (patch_step seen) sample posts in
  Summary.mkGroupSummary key label (length items)
    (or_else overview ("AI summary unavailable for " +:+ label +:+ "."))
    (firstn (length sample) patched).

Definition summarizeGroup (env_max_retries : option num) (model_name : string)
    (label key : string) (items : list Post) (w : World) : outcome cached * World :=
  let sample := group_sample items in
  let cacheKey := hashKey (GroupKey model_name key sample) in
  match getCache cacheKey w with
  | Some hit => (Returned hit, w)
  | None =>
      match openaiChatCompletion random_floor net env_max_retries model_name w with
      | (Returned completion, w1) =>
          let result := CachedGroup (summary_of label key items (completion_content completion)) in
          (Returned result, setCache cacheKey result w1)
      | (Thrown message, w1) => (Thrown message, w1)
      end
  end.

Definition callOpenAI (env_max_retries : option num) (env_model : option string)
    (threads : list Post) (w : World) : outcome cached * World :=
  let sample := overview_sample threads in
  let model_name := nullish env_model "gpt-4o-mini" in
  let cacheKey := hashKey (OverviewKey model_name sample) in
  match getCache cacheKey w with
  | Some hit => (Returned hit, w)
  | None =>
      match openaiChatCompletion random_floor net env_max_retries model_name w with
      | (Returned completion, w1) =>
          let content := completion_content completion in
          let result :=
            CachedOverview
              (Perspective.mkAIPerspective
                 (trim (join " " (firstn 3 (split LF content))))
                 (extractClusters content)
                 (completion_modelUsed completion)
                 Perspective.llm) in
          (Returned result, setCache cacheKey result w1)
      | (Thrown message, w1) => (Thrown message, w1)
      end
  end.

End Summariser.

End Summarise.

(** ** The wording of the specification, for comparison *)

Module Spec.
Import Js.

(** The rest of a balanced span: [depth] braces are open. *)
Fixpoint balanced_rest (depth : nat) (s : string) : option string :=
  match s with
  | EmptyString => None
  | String c s' =>
      if Ascii.eqb c "{" then String c <$> balanced_rest (S depth) s'
      else if Ascii.eqb c "}" then
        match depth with
        | O => Some (String c EmptyString)
        | S depth' => String c <$> balanced_rest depth' s'
        end
      else String c <$> balanced_rest depth s'
  end.

(** The first balanced span of braces of the text. *)
Fixpoint first_balanced_span (s : string) : option string :=
  match s with
  | EmptyString => None
  | String c s' =>
      if Ascii.eqb c "{" then String c <$> balanced_rest O s'
      else first_balanced_span s'
  end.

End Spec.

(** ** Sample posts used in the examples *)

Module Samples.
Import Types.

(** A post tagged [hw:3] whose title reads like homework 5. *)
Definition tagged_hw3 : Post :=
  mkPost "t-1" "hw 5 notes on Assignment 5" (Some "see attached") None None
         (Some ["hw:3"]) None.

(** A post whose [hw:] tag has no value. *)
Definition blank_hw_tag : Post :=
  mkPost "t-2" "Assignment 5" None None None (Some ["hw:"]) None.

(** Two posts on one base model, a third on another, the third with a
    homework number. *)
Definition on_llama_a : Post :=
  mkPost "t-3" "first" None None None (Some ["base_model:llama"]) None.
Definition on_llama_b : Post :=
  mkPost "t-4" "second" None None None (Some ["base_model:llama"]) None.
Definition on_qwen : Post :=
  mkPost "t-5" "third" None None None (Some ["hw:3"; "base_model:qwen"]) None.

(** A server that answers 429 with [retry-after: 0] once, then succeeds. *)
Definition busy_then_ok (n : nat) : Js.outcome Remote.Response :=
  match n with
  | O => Js.Returned (Remote.mkResponse 429 (Remote.Seconds 0)
                        (Js.Thrown "Unexpected end of JSON input")
                        (Js.Returned "rate limited"))
  | _ => Js.Returned (Remote.mkResponse 200 Remote.Absent
                        (Js.Returned (Remote.mkBody (Some "Two threads on homework 3.")
                                        (Some "gpt-4o-mini-2024-07-18")))
                        (Js.Returned EmptyString))
  end.

(** A server that rejects the first request with 400 and accepts later ones. *)
Definition bad_request_then_ok (n : nat) : Js.outcome Remote.Response :=
  match n with
  | O => Js.Returned (Remote.mkResponse 400 Remote.Absent
                        (Js.Thrown "Unexpected end of JSON input")
                        (Js.Returned "bad request"))
  | _ => Js.Returned (Remote.mkResponse 200 Remote.Absent
                        (Js.Returned (Remote.mkBody (Some "Two threads on homework 3.")
                                        (Some "gpt-4o-mini-2024-07-18")))
                        (Js.Returned EmptyString))
  end.

(** A server that is always overloaded. *)
Definition always_503 (n : nat) : Js.outcome Remote.Response :=
  Js.Returned (Remote.mkResponse 503 Remote.Absent
                 (Js.Thrown "Unexpected end of JSON input") (Js.Returned EmptyString)).

(** No jitter at all: [Math.random()] keeps returning 0. *)
Definition no_jitter (n : nat) (maxMs : Z) : Z := 0%Z.

(** A process that has done nothing yet. *)
Definition fresh : Remote.World := Remote.mkWorld 0 0 [] ∅.

(** A JSON string literal. *)
Definition json_text (s : string) : string := String Js.DQUOTE (s +:+ String Js.DQUOTE EmptyString).

(** An answer of the model that reports one post, of an id that is not in the
    sample, and what [JSON.parse] makes of it. *)
Definition foreign_answer : string :=
  "{" +:+ json_text "overview" +:+ ":" +:+ json_text "One thread." +:+ "," +:+ json_text "posts" +:+ ":[{"
  +:+ json_text "id" +:+ ":" +:+ json_text "t-9" +:+ "," +:+ json_text "title" +:+ ":" +:+ json_text "Other" +:+ ","
  +:+ json_text "takeaway" +:+ ":" +:+ json_text "Unrelated." +:+ "}]}".

Definition foreign_value : Json.value :=
  Json.Object
    [ ("overview", Json.Str "One thread.");
      ("posts", Json.Array
         [ Json.Object [ ("id", Json.Str "t-9"); ("title", Json.Str "Other");
                         ("takeaway", Json.Str "Unrelated.") ] ]) ].

(** An answer that reports the first of the two llama posts only, after a few
    words of preamble. *)
Definition partial_object : string :=
  "{" +:+ json_text "overview" +:+ ":" +:+ json_text "Both posts use llama." +:+ "," +:+ json_text "posts"
  +:+ ":[{" +:+ json_text "id" +:+ ":" +:+ json_text "t-3" +:+ "," +:+ json_text "title" +:+ ":" +:+ json_text "first"
  +:+ "," +:+ json_text "takeaway" +:+ ":" +:+ json_text "Asks about setup." +:+ "}]}".

Definition partial_answer : string := "Here is the summary: " +:+ partial_object.

Definition partial_value : Json.value :=
  Json.Object
    [ ("overview", Json.Str "Both posts use llama.");
      ("posts", Json.Array
         [ Json.Object [ ("id", Json.Str "t-3"); ("title", Json.Str "first");
                         ("takeaway", Json.Str "Asks about setup.") ] ]) ].

(** [JSON.parse] on the two texts above; any other text is taken not to
    parse. *)
Definition parse_known (text : string) : option Json.value :=
  if String.eqb text foreign_answer then Some foreign_value
  else if String.eqb text partial_object then Some partial_value
  else None.

(** A stand-in for the hash: one key per purpose, model and bucket. *)
Definition toy_hash (input : Summarise.KeyInput) : string :=
  match input with
  | Summarise.OverviewKey model_name _ => "overview/" +:+ model_name
  | Summarise.GroupKey model_name key _ => "group/" +:+ model_name +:+ "/" +:+ key
  end.

Definition no_clusters (content : string) : list Perspective.Cluster := [].

End Samples.

(** ** Writing CSV text, to read it back *)

Module CsvText.
Import Js Csv.

(** The characters that mean something to the scanner. *)
Definition special (c : ascii) : bool :=
  Ascii.eqb c DQUOTE || Ascii.eqb c COMMA || Ascii.eqb c LF || Ascii.eqb c CR.

(** A field that can be written bare. *)
Fixpoint plain (s : string) : bool :=
  match s with
  | EmptyString => true
  | String c s' => negb (special c) && plain s'
  end.

(** A cell to write: its content, and whether it is wrapped in quotes. A bare
    cell must be plain. *)
Definition cell : Type := (bool * string)%type.

Definition writable (c : cell) : bool := c.1 || plain c.2.

Definition render_cell (c : cell) : string := if c.1 then quoted c.2 else c.2.

(** The cells of a row, separated by commas. *)
Fixpoint render_row (cells : list cell) : string :=
  match cells with
  | [] => EmptyString
  | [c] => render_cell c
  | c :: cells' => render_cell c +:+ String COMMA (render_row cells')
  end.

(** The rows of a table, separated by line feeds. *)
Fixpoint render (table : list (list cell)) : string :=
  match table with
  | [] => EmptyString
  | [row] => render_row row
  | row :: table' => render_row row +:+ String LF (render table')
  end.

(** [row.some((cell) => cell.length > 0)] *)
Definition has_content (row : list string) : bool :=
  existsb (fun field => (0 <? String.length field)%nat) row.

(** The fields of a table of cells. *)
Definition contents (table : list (list cell)) : list (list string) :=
  map (map snd) table.

End CsvText.

(** ** Predicates the further properties are stated with *)

Module Shapes.
Import Js Types Regex.

(** The pattern has no capture group. *)
Fixpoint no_cap (r : re) : bool :=
  match r with
  | Cap _ => false
  | Seq r1 r2 => no_cap r1 && no_cap r2
  | Opt r1 => no_cap r1
  | _ => true
  end.

(** One or two decimal digits. *)
Definition is_number12 (s : string) : bool :=
  match s with
  | String a EmptyString => is_digit a
  | String a (String b EmptyString) => is_digit a && is_digit b
  | _ => false
  end.

(** Bucket [key] of the map holds a post of id [x]. *)
Definition holds (m : gmap string (list Post)) (key x : string) : Prop :=
  exists items item, m !! key = Some items /\ In item items /\ id item = x.

(** Every bucket of the map satisfies [P]. *)
Definition every_bucket (P : string -> list Post -> Prop) (m : gmap string (list Post))
    : Prop :=
  forall key items, m !! key = Some items -> P key items.

(** What holds of every bucket: it is not empty, its posts are posts of
    [threads], and its key starts with [prefix]. *)
Definition sound_bucket (prefix : string) (threads : list Post) (key : string)
    (items : list Post) : Prop :=
  items <> [] /\ (forall item, In item items -> In item threads)
  /\ exists rest, key = prefix +:+ rest.

End Shapes.

(** ** Reading a trace *)

Module Traces.
Import Remote.

Definition is_fetch (e : event) : bool :=
  match e with Fetched _ => true | Slept _ => false end.

Definition is_sleep (e : event) : bool :=
  match e with Slept _ => true | Fetched _ => false end.

(** How many requests, how many sleeps a list of events holds. *)
Definition fetches (events : list event) : nat := length (List.filter is_fetch events).
Definition sleeps (events : list event) : nat := length (List.filter is_sleep events).

(** A sleep of at least [floor] milliseconds, or of an unreadable length. *)
Definition at_least (floor : Z) (ms : num) : Prop :=
  match ms with
  | Int z => (floor <= z)%Z
  | NaN => True
  end.

(** What a call adds to the state: [events] at the end of the trace, as many
    requests and random draws as the events tell, nothing to the cache. *)
Definition extends (w w' : World) (events : list event) : Prop :=
  trace w' = trace w ++ events
  /\ requests w' = (requests w + fetches events)%nat
  /\ draws w' = (draws w + sleeps events)%nat
  /\ cache w' = cache w.

End Traces.

(** ** One call after another *)

Module Session.
Import Js Types Remote Summarise.

(** A call that goes through the cache: [callOpenAI] for the overview of some
    posts, [summarizeGroup] for a bucket. *)
Inductive call : Type :=
| Overview (env_model : option string) (threads : list Post)
| Group (model_name label key : string) (items : list Post).

Section Calls.

Variable JSON_parse : string -> option Json.value.
Variable hashKey : KeyInput -> string.
Variable random_floor : nat -> Z -> Z.
Variable net : nat -> outcome Response.
Variable extractClusters : string -> list Perspective.Cluster.
Variable env_max_retries : option num.

Definition perform (c : call) (w : World) : outcome cached * World :=
  match c with
  | Overview env_model threads =>
      callOpenAI hashKey random_floor net extractClusters env_max_retries env_model threads w
  | Group model_name label key items =>
      summarizeGroup JSON_parse hashKey random_floor net env_max_retries
        model_name label key items w
  end.

(** The key a call looks up and stores under. *)
Definition cacheKey (c : call) : string :=
  match c with
  | Overview env_model threads =>
      hashKey (OverviewKey (nullish env_model "gpt-4o-mini") (overview_sample threads))
  | Group model_name label key items =>
      hashKey (GroupKey model_name key (group_sample items))
  end.

(** The state after the calls of a list, each one made when the one before
    it has settled. *)
Definition perform_all (calls : list call) (w : World) : World :=
  fold_left (fun state c => (perform c state).2) calls w.

End Calls.

End Session.

(** ** The grouped perspective *)

Module Grouped.
Import Js Types.

Record GroupedAIPerspective : Type := mkGroupedAIPerspective {
  homeworks : list Summary.GroupSummary;
  models : list Summary.GroupSummary;
  modelUsed : string;
  mode : Perspective.Mode;
  note : option string;
}.

(** What is left of [s] after [prefix], when [s] starts with it. *)
Fixpoint drop_prefix (prefix s : string) : option string :=
  match prefix, s with
  | EmptyString, _ => Some s
  | String a prefix', String b s' =>
      if Ascii.eqb a b then drop_prefix prefix' s' else None
  | String _ _, EmptyString => None
  end.

(** [key.replace(/^(hw:|model:)/, EMPTY)]: the first alternative that is a
    prefix of the key is cut off, once. *)
Definition strip_kind (key : string) : string :=
  match drop_prefix "hw:" key with
  | Some rest => rest
  | None =>
      match drop_prefix "model:" key with
      | Some rest => rest
      | None => key
      end
  end.

(** The decimal text of [items.length]. *)
Definition show_length (n : nat) : string := NilEmpty.string_of_uint (Nat.to_uint n).

(** [toSummary] of [buildHeuristicGroupedPerspective]; [note] is the
    parameter of the enclosing function. *)
Definition toSummary (note : string) (labelPrefix key : string) (items : list Post)
    : Summary.GroupSummary :=
  Summary.mkGroupSummary key
    (labelPrefix +:+ " " +:+ strip_kind key)
    (length items)
    ("Heuristic overview: " +:+ show_length (length items) +:+ " posts. " +:+ note)
    (map (fun thread : Post =>
            Summary.mkGroupPostSummary (id thread) (title thread)
              (or_else (slice0 120 (nullish (body thread) EmptyString))
                       "No preview content available."))
         (firstn 40 items)).

(** The [byKey] map after the two loops of [mergeGroupPerspectives]. *)
Definition index_groups (byKey : gmap string Summary.GroupSummary)
    (groups : list Summary.GroupSummary) : gmap string Summary.GroupSummary :=
  fold_left (fun m group => <[Summary.key group := group]> m) groups byKey.

(** [byKey.get(group.key) ?? group] *)
Definition pick (byKey : gmap string Summary.GroupSummary) (group : Summary.GroupSummary)
    : Summary.GroupSummary :=
  match byKey !! Summary.key group with
  | Some found => found
  | None => group
  end.

Definition mergeGroupPerspectives (baseline enhanced : GroupedAIPerspective)
    : GroupedAIPerspective :=
  let byKey := index_groups (index_groups ∅ (homeworks enhanced)) (models enhanced) in
  mkGroupedAIPerspective
    (map (pick byKey) (homeworks baseline))
    (map (pick byKey) (models baseline))
    (modelUsed enhanced)
    (mode enhanced)
    (note baseline).

(** The groups of a perspective, homeworks first. *)
Definition groups_of (p : GroupedAIPerspective) : list Summary.GroupSummary :=
  homeworks p ++ models p.

End Grouped.

(** ** The home page: search and paging *)

Module Page.
Import Js Types.

(** The numbers of the page are IEEE 754 doubles. [Whole z] is the double
    whose value is the integer [z]; [Double f] is any double, in the binary64
    format of [SpecFloat]: a fraction, an infinity, [NaN]. The operations on
    two whole numbers are written on the integers, which is what the double
    operations give as long as the results stay below 2^53, as the numbers of
    a page do (an array length is below 2^32). Every other operation is the
    one of [SpecFloat], rounding to nearest even. *)
Inductive number : Type :=
| Whole (z : Z)
| Double (f : spec_float).

Definition prec : Z := 53.
Definition emax : Z := 1024.

Definition NaN : number := Double S754_nan.

Definition to_double (n : number) : spec_float :=
  match n with
  | Whole z => binary_normalize prec emax z 0 false
  | Double f => f
  end.

Definition is_negative_zero (f : spec_float) : bool :=
  match f with S754_zero true => true | _ => false end.

(** [Math.max] and [Math.min] on doubles: [NaN] when one of the two is, and
    -0 below +0. *)
Definition double_max (x y : spec_float) : spec_float :=
  match SFcompare x y with
  | Some Lt => y
  | Some Gt => x
  | Some Eq => if is_negative_zero x then y else x
  | None => S754_nan
  end.

Definition double_min (x y : spec_float) : spec_float :=
  match SFcompare x y with
  | Some Lt => x
  | Some Gt => y
  | Some Eq => if is_negative_zero y then y else x
  | None => S754_nan
  end.

(** [Math.ceil] on a double. *)
Definition double_ceil (f : spec_float) : spec_float :=
  match f with
  | S754_finite s m e =>
      let below := Z.shiftl (Z.pos m) e in
      if (Z.shiftl below (- e) =? Z.pos m)%Z then f
      else if s then
        (if (below =? 0)%Z then S754_zero true
         else binary_normalize prec emax (- below) 0 false)
      else binary_normalize prec emax (below + 1) 0 false
  | _ => f
  end.

(** [Math.max(a, b)] *)
Definition num_max (a b : number) : number :=
  match a, b with
  | Whole x, Whole y => Whole (Z.max x y)
  | _, _ => Double (double_max (to_double a) (to_double b))
  end.

(** [Math.min(a, b)] *)
Definition num_min (a b : number) : number :=
  match a, b with
  | Whole x, Whole y => Whole (Z.min x y)
  | _, _ => Double (double_min (to_double a) (to_double b))
  end.

(** [a - b] *)
Definition num_sub (a b : number) : number :=
  match a, b with
  | Whole x, Whole y => Whole (x - y)%Z
  | _, _ => Double (SFsub prec emax (to_double a) (to_double b))
  end.

(** [a * b] *)
Definition num_mul (a b : number) : number :=
  match a, b with
  | Whole x, Whole y => Whole (x * y)%Z
  | _, _ => Double (SFmul prec emax (to_double a) (to_double b))
  end.

(** [Math.ceil(n / d)] for an array length [n]. *)
Definition ceil_div (n : nat) (d : number) : number :=
  let quotient :=
    Double (double_ceil (SFdiv prec emax (to_double (Whole (Z.of_nat n))) (to_double d))) in
  match d with
  | Whole z => if (z =? 0)%Z then quotient else Whole (- ((- Z.of_nat n) / z))%Z
  | Double _ => quotient
  end.

(** The index [slice] makes of an argument, for an array of length [len]:
    the number is cut to an integer ([NaN] counts as 0), a negative one counts
    from the end, and the result is brought into 0..[len]. *)
Definition relative (len : Z) (n : number) : Z :=
  let clamp z := if (z <? 0)%Z then Z.max (len + z) 0 else Z.min z len in
  match n with
  | Whole z => clamp z
  | Double (S754_finite false m e) => clamp (Z.shiftl (Z.pos m) e)
  | Double (S754_finite true m e) => clamp (- Z.shiftl (Z.pos m) e)%Z
  | Double (S754_infinity false) => len
  | Double (S754_infinity true) => 0%Z
  | Double (S754_zero _) | Double S754_nan => clamp 0%Z
  end.

(** [l.slice(start, stop)] on an array. *)
Definition array_slice {A : Type} (start stop : number) (l : list A) : list A :=
  let len := Z.of_nat (length l) in
  let from := relative len start in
  let final := relative len stop in
  firstn (Z.to_nat (final - from)%Z) (skipn (Z.to_nat from) l).

(** The parameter is a whole number, or is not given. *)
Definition whole_or_absent (raw : option number) : Prop :=
  match raw with
  | Some (Double _) => False
  | _ => True
  end.

(** [s.includes(q)] *)
Fixpoint includes (q s : string) : bool :=
  String.prefix q s
  || match s with
     | String _ s' => includes q s'
     | EmptyString => false
     end.

(** [Math.max(1, Number(first(sp, page) ?? 1))]; [raw] is the value of
    [Number] on the text of the parameter, when the parameter is given. *)
Definition page (raw : option number) : number :=
  num_max (Whole 1) (match raw with Some n => n | None => Whole 1 end).

(** [Math.min(100, Math.max(10, Number(first(sp, limit) ?? 25)))] *)
Definition limit (raw : option number) : number :=
  num_min (Whole 100)
    (num_max (Whole 10) (match raw with Some n => n | None => Whole 25 end)).

(** [(first(sp, q) ?? EMPTY).trim()] *)
Definition query (raw : option string) : string := trim (nullish raw EmptyString).

(** [matchesQuery] *)
Definition matchesQuery (post : Post) (query : string) : bool :=
  let q := toLowerCase query in
  let haystack :=
    toLowerCase
      (join (String LF EmptyString)
         [title post;
          nullish (body post) EmptyString;
          nullish (author post) EmptyString;
          join " " (match tags post with Some tags => tags | None => [] end)]) in
  includes q haystack.

(** The texts [matchesQuery] puts into the haystack. *)
Definition fields (post : Post) : list string :=
  [title post; nullish (body post) EmptyString; nullish (author post) EmptyString]
  ++ match tags post with Some tags => tags | None => [] end.

Definition filtered (query : string) (posts : list Post) : list Post :=
  if truthy query then List.filter (fun post => matchesQuery post query) posts else posts.

Definition totalPages (limit : number) (filtered : list Post) : number :=
  num_max (Whole 1) (ceil_div (length filtered) limit).

Definition safePage (page totalPages : number) : number := num_min page totalPages.

(** The posts of the page the query string asks for. *)
Definition pagePosts (page_raw limit_raw : option number) (filtered : list Post)
    : list Post :=
  let page := page page_raw in
  let limit := limit limit_raw in
  let totalPages := totalPages limit filtered in
  let safePage := safePage page totalPages in
  array_slice (num_mul (num_sub safePage (Whole 1)) limit) (num_mul safePage limit) filtered.

End Page.

(** Numbers with a fraction, for the examples. *)
Module Fractions.

(** 10.5 and 1.5 as doubles. *)
Definition ten_and_a_half : Page.number :=
  Page.Double (S754_finite false 5910974510923776 (-49)).
Definition one_and_a_half : Page.number :=
  Page.Double (S754_finite false 6755399441055744 (-52)).

End Fractions.

(** * Properties *)

(** ** Strings *)

Lemma append_cons (c : ascii) (s t : string) : String c s +:+ t = String c (s +:+ t).
Proof. reflexivity. Qed.

Lemma append_nil_l (s : string) : EmptyString +:+ s = s.
Proof. reflexivity. Qed.

Lemma append_nil_r (s : string) : s +:+ EmptyString = s.
Proof. induction s as [|c s IH]; [reflexivity | now rewrite append_cons, IH]. Qed.

Lemma append_assoc (a b c : string) : (a +:+ b) +:+ c = a +:+ (b +:+ c).
Proof.
  induction a as [|x a IH]; [reflexivity | now rewrite !append_cons, IH].
Qed.

Lemma push_char_append (s : string) (c : ascii) (t : string) :
  Js.push_char s c +:+ t = s +:+ String c t.
Proof. unfold Js.push_char. now rewrite append_assoc. Qed.

Lemma push_char_as_append (s : string) (c : ascii) :
  Js.push_char s c = s +:+ String c EmptyString.
Proof. reflexivity. Qed.

(** ** parseCsv *)

Section ParseCsv.
Import Js Csv.

Lemma scan_quote_closes rest rows row field :
  no_quote_ahead rest = true ->
  scan (String DQUOTE rest) rows row field true = scan rest rows row field false.
Proof.
  intros Hrest. destruct rest as [|next rest']; [reflexivity|].
  simpl in Hrest. apply negb_true_iff in Hrest.
  cbn [scan]. rewrite Ascii.eqb_refl, Hrest. reflexivity.
Qed.

Lemma scan_quote_opens rest rows row field :
  scan (String DQUOTE rest) rows row field false = scan rest rows row field true.
Proof. destruct rest; reflexivity. Qed.

Lemma scan_inside_plain c rest rows row field :
  Ascii.eqb c DQUOTE = false ->
  scan (String c rest) rows row field true = scan rest rows row (push_char field c) true.
Proof.
  intros Hc. cbn [scan]. rewrite Hc, !andb_false_r. reflexivity.
Qed.

Lemma scan_inside_pair rest rows row field :
  scan (String DQUOTE (String DQUOTE rest)) rows row field true
  = scan rest rows row (push_char field DQUOTE) true.
Proof. reflexivity. Qed.

(** Between the quotes the scanner only accumulates: the escaped text of [s]
    followed by the closing quote adds exactly [s] to the field. *)
Lemma scan_inside s : forall rest rows row field,
  no_quote_ahead rest = true ->
  scan (escape s +:+ String DQUOTE rest) rows row field true
  = scan rest rows row (field +:+ s) false.
Proof.
  induction s as [|c s IH]; intros rest rows row field Hrest.
  - cbn [escape]. rewrite append_nil_l, append_nil_r.
    now apply scan_quote_closes.
  - cbn [escape]. destruct (Ascii.eqb c DQUOTE) eqn:Hc.
    + apply Ascii.eqb_eq in Hc. subst c.
      rewrite !append_cons, scan_inside_pair, IH by assumption.
      now rewrite push_char_append.
    + rewrite append_cons, scan_inside_plain, IH by assumption.
      now rewrite push_char_append.
Qed.

Lemma quoted_append s rest :
  quoted s +:+ rest = String DQUOTE (escape s +:+ String DQUOTE rest).
Proof. unfold quoted. now rewrite append_cons, append_assoc. Qed.

Lemma flush_single (s : string) :
  flush [] [s] = if Js.truthy s then [[s]] else [].
Proof. unfold flush. destruct s; reflexivity. Qed.

End ParseCsv.

(** C1. A double-quoted field is one field. From any scanner state outside
    quotes, reading an opening quote, the escaped text of an arbitrary content
    [s] (commas, line feeds and carriage returns included, each double quote
    doubled) and a closing quote leaves the scanner outside quotes with exactly
    [s] appended to the current field, no field or row having been closed on the
    way; a one-field input therefore parses to the single row holding [s], and
    the quoted input a,b LF c parses to one row with the one field a,b LF c. *)
Theorem C1_quoted_field_is_literal :
  (forall (s rest : string) (rows : list (list string)) (row : list string) (field : string),
      Csv.no_quote_ahead rest = true ->
      Csv.scan (Csv.quoted s +:+ rest) rows row field false
      = Csv.scan rest rows row (field +:+ s) false)
  /\ (forall s : string,
      Csv.parseCsv (Csv.quoted s) = if Js.truthy s then [[s]] else [])
  /\ Csv.parseCsv (Csv.quoted ("a,b" +:+ String Js.LF "c"))
     = [["a,b" +:+ String Js.LF "c"]].
Proof.
  assert (Hgen : forall s rest rows row field,
      Csv.no_quote_ahead rest = true ->
      Csv.scan (Csv.quoted s +:+ rest) rows row field false
      = Csv.scan rest rows row (field +:+ s) false).
  { intros s rest rows row field Hrest.
    rewrite quoted_append, scan_quote_opens. now apply scan_inside. }
  split; [exact Hgen|]. split.
  - intros s. unfold Csv.parseCsv.
    rewrite <- (append_nil_r (Csv.quoted s)), Hgen by reflexivity.
    cbn [Csv.scan]. rewrite append_nil_l. apply flush_single.
  - reflexivity.
Qed.

Lemma C1_quoted_field_witness :
  Csv.scan (Csv.quoted (String Js.DQUOTE ",") +:+ ",x") [] ["k"] "v" false
  = Csv.scan ",x" [] ["k"] ("v" +:+ String Js.DQUOTE ",") false.
Proof.
  apply (proj1 C1_quoted_field_is_literal (String Js.DQUOTE ",") ",x" [] ["k"] "v").
  reflexivity.
Defined.

(** C10. Outside quotes a carriage return ends the row whether or not a line
    feed follows: reading CR has the effect of reading LF, the line feed of a
    CR LF pair being consumed with it, so bare-CR line endings give one row
    per line. *)
Theorem C10_lone_cr_ends_row :
  (forall (rest : string) (rows : list (list string)) (row : list string) (field : string),
      Csv.scan (String Js.CR rest) rows row field false
      = Csv.scan (String Js.LF (Csv.skip_lf rest)) rows row field false)
  /\ (forall (rest : string) (rows : list (list string)) (row : list string) (field : string),
      Csv.scan (String Js.CR rest) rows row field false
      = Csv.scan (Csv.skip_lf rest) (Csv.flush rows (row ++ [field])) [] EmptyString false)
  /\ Csv.parseCsv ("a,b" +:+ String Js.CR ("c" +:+ String Js.CR "d"))
     = [["a"; "b"]; ["c"]; ["d"]]
  /\ Csv.parseCsv ("a,b" +:+ String Js.CR ("c" +:+ String Js.CR "d"))
     = Csv.parseCsv ("a,b" +:+ String Js.LF ("c" +:+ String Js.CR (String Js.LF "d"))).
Proof.
  assert (Hcr : forall rest rows row field,
      Csv.scan (String Js.CR rest) rows row field false
      = Csv.scan (Csv.skip_lf rest) (Csv.flush rows (row ++ [field])) [] EmptyString false).
  { intros [|next rest'] rows row field; [reflexivity|].
    change (Csv.scan (String Js.CR (String next rest')) rows row field false)
      with (if Ascii.eqb next Js.LF
            then Csv.scan rest' (Csv.flush rows (row ++ [field])) [] EmptyString false
            else Csv.scan (String next rest') (Csv.flush rows (row ++ [field]))
                   [] EmptyString false).
    unfold Csv.skip_lf. destruct (Ascii.eqb next Js.LF); reflexivity. }
  assert (Hlf : forall rest rows row field,
      Csv.scan (String Js.LF rest) rows row field false
      = Csv.scan rest (Csv.flush rows (row ++ [field])) [] EmptyString false).
  { intros [|next rest'] rows row field; reflexivity. }
  split; [|split; [exact Hcr|split; reflexivity]].
  intros rest rows row field. now rewrite Hcr, Hlf.
Qed.

(** ** buildRecord *)

Section BuildRecord.
Import Js Csv.
Variables header row : list string.

Local Abbreviation upto := (record_upto header row).

Lemma upto_S n : upto (S n) = buildRecord_step header row (upto n) n.
Proof. unfold record_upto. now rewrite seq_S, fold_left_app. Qed.

(** One iteration touches at most the key found at its index. *)
Lemma step_other record i k :
  header !! i ≠ Some k -> buildRecord_step header row record i !! k = record !! k.
Proof.
  intros Hne. unfold buildRecord_step, set_property.
  destruct (header !! i) as [key|] eqn:Hkey; [|reflexivity].
  destruct (negb (truthy key)); [reflexivity|].
  destruct (String.eqb key "__proto__"); [reflexivity|].
  apply lookup_insert_ne. congruence.
Qed.

Lemma step_same record i k :
  header !! i = Some k -> truthy k = true -> k ≠ "__proto__" ->
  buildRecord_step header row record i !! k = Some (nullish (row !! i) EmptyString).
Proof.
  intros Hkey Hk Hproto. unfold buildRecord_step, set_property.
  rewrite Hkey, Hk. cbn [negb].
  destruct (String.eqb_spec k "__proto__") as [->|_]; [congruence|].
  apply lookup_insert_eq.
Qed.

Lemma step_origin record i k v :
  buildRecord_step header row record i !! k = Some v ->
  record !! k = Some v \/ (header !! i = Some k /\ v = nullish (row !! i) EmptyString).
Proof.
  unfold buildRecord_step, set_property.
  destruct (header !! i) as [key|] eqn:Hkey; [|auto].
  destruct (negb (truthy key)); [auto|].
  destruct (String.eqb key "__proto__"); [auto|].
  destruct (decide (key = k)) as [->|Hne].
  - rewrite lookup_insert_eq. intros [= <-]. auto.
  - rewrite lookup_insert_ne by assumption. auto.
Qed.

Lemma upto_last n : forall i k,
  (i < n)%nat -> header !! i = Some k -> truthy k = true -> k ≠ "__proto__" ->
  (forall j, (i < j)%nat -> (j < n)%nat -> header !! j ≠ Some k) ->
  upto n !! k = Some (nullish (row !! i) EmptyString).
Proof.
  induction n as [|n IH]; intros i k Hi Hkey Hk Hproto Hlast; [lia|].
  rewrite upto_S. destruct (decide (i = n)) as [->|Hne].
  - now apply step_same.
  - rewrite step_other by (apply Hlast; lia).
    apply IH; try assumption; [lia|]. intros j ? ?. apply Hlast; lia.
Qed.

Lemma upto_origin n : forall k v,
  upto n !! k = Some v ->
  exists i, (i < n)%nat /\ header !! i = Some k /\ v = nullish (row !! i) EmptyString.
Proof.
  induction n as [|n IH]; intros k v Hv.
  - unfold record_upto in Hv. cbn in Hv. now rewrite lookup_empty in Hv.
  - rewrite upto_S in Hv. apply step_origin in Hv as [Hv|[Hkey ->]].
    + destruct (IH _ _ Hv) as (i & ? & ? & ?). exists i. split; [lia|auto].
    + exists n. split; [lia|auto].
Qed.

Lemma buildRecord_Some record :
  buildRecord header row = Some record -> record = upto (length header).
Proof.
  unfold buildRecord. destruct (length row =? 0)%nat; [discriminate|].
  now intros [= <-].
Qed.

End BuildRecord.

(** C4 (as the code has it). For a non-empty row, [buildRecord] binds header
    name [k] found at column [i] (a non-empty name other than [__proto__] that
    no later column repeats) to field [i] of the row, and to the empty string
    when the row has no field [i]: the keys of the missing trailing columns are
    present, bound to the empty string. Every binding of the record comes from
    a column inside the header, so row fields past the header are ignored. *)
Theorem C4_buildRecord_positional (header row : list string) (record : gmap string string) :
  Csv.buildRecord header row = Some record ->
  (forall (i : nat) (k : string),
      header !! i = Some k -> Js.truthy k = true -> k ≠ "__proto__" ->
      (forall j, (i < j)%nat -> header !! j ≠ Some k) ->
      record !! k = Some (Js.nullish (row !! i) EmptyString)
      /\ ((length row <= i)%nat -> record !! k = Some EmptyString))
  /\ (forall (k v : string),
      record !! k = Some v ->
      exists i, (i < length header)%nat /\ header !! i = Some k
                /\ v = Js.nullish (row !! i) EmptyString).
Proof.
  intros Hrec. apply buildRecord_Some in Hrec. subst record. split.
  - intros i k Hkey Hk Hproto Hlast.
    assert (Hi : (i < length header)%nat) by (apply lookup_lt_is_Some; eauto).
    assert (Hv : Csv.record_upto header row (length header) !! k
                 = Some (Js.nullish (row !! i) EmptyString)).
    { apply upto_last; try assumption. intros j ? _. now apply Hlast. }
    split; [exact Hv|]. intros Hshort. rewrite Hv.
    now rewrite (lookup_ge_None_2 row i Hshort).
  - intros k v Hv. now apply upto_origin.
Qed.

Lemma C4_buildRecord_positional_witness :
  exists record,
    Csv.buildRecord ["a"; "b"; "c"] ["x"; "y"] = Some record
    /\ record !! "b" = Some "y" /\ record !! "c" = Some EmptyString.
Proof.
  eexists. split; [reflexivity|].
  pose proof (C4_buildRecord_positional ["a"; "b"; "c"] ["x"; "y"] _ eq_refl) as [H _].
  split.
  - refine (proj1 (H 1%nat "b" eq_refl eq_refl _ _)); [discriminate|].
    intros [|[|[|j]]] Hj; try lia; discriminate.
  - refine (proj2 (H 2%nat "c" eq_refl eq_refl _ _) _); [discriminate| |simpl; lia].
    intros [|[|[|j]]] Hj; try lia; discriminate.
Defined.

(** C4 as stated fails: the row is shorter than the header, yet the key of the
    missing trailing column is bound (to the empty string). *)
Lemma C4_missing_keys_absent_counterexample :
  ~ (forall (header row : list string) (record : gmap string string) (i : nat) (k : string),
        Csv.buildRecord header row = Some record ->
        header !! i = Some k -> (length row <= i)%nat ->
        record !! k = None).
Proof.
  intros H.
  specialize (H ["a"; "b"] ["x"] _ 1%nat "b" eq_refl eq_refl (le_n 1)).
  vm_compute in H. discriminate H.
Qed.

(** ** dedupeById *)

Section Dedupe.
Import Js Types Csv.

Lemma ids_app (a b : list CsvPost) : ids (a ++ b) = ids a ++ ids b.
Proof. apply map_app. Qed.

Lemma seen_tracks_nil : seen_tracks ∅ [].
Proof. intros x. split; [set_solver | intros []]. Qed.

Lemma seen_tracks_push seen out (thread : CsvPost) :
  seen_tracks seen out -> seen_tracks ({[id thread]} ∪ seen) (out ++ [thread]).
Proof.
  intros H x. specialize (H x).
  rewrite ids_app, in_app_iff, elem_of_union, elem_of_singleton.
  cbn. intuition.
Qed.

Lemma find_has_id_None x (l : list CsvPost) :
  ~ In x (ids l) -> find (has_id x) l = None.
Proof.
  induction l as [|t l IH]; intros Hnot; [reflexivity|].
  cbn [find]. unfold has_id at 1. destruct (String.eqb_spec (id t) x) as [Heq|_].
  - exfalso. apply Hnot. left. exact Heq.
  - apply IH. intros ?. apply Hnot. now right.
Qed.

Lemma find_has_id_In x (l : list CsvPost) :
  In x (ids l) -> exists t, find (has_id x) l = Some t.
Proof.
  induction l as [|t l IH]; intros Hin; [destruct Hin|].
  cbn [find]. unfold has_id at 1. destruct (String.eqb_spec (id t) x) as [_|Hne]; [eauto|].
  apply IH. destruct Hin as [Heq|Hin]; [contradiction|exact Hin].
Qed.

Lemma find_app_has_id x (a b : list CsvPost) :
  find (has_id x) (a ++ b)
  = match find (has_id x) a with Some t => Some t | None => find (has_id x) b end.
Proof.
  induction a as [|t a IH]; [reflexivity|].
  cbn [app find]. now destruct (has_id x t).
Qed.

(** Looking a post up by id gives the same answer after the loop as in the
    posts it was given: the first post with that id. *)
Lemma dedupe_loop_find x threads : forall seen out,
  seen_tracks seen out ->
  find (has_id x) (dedupe_loop threads seen out) = find (has_id x) (out ++ threads).
Proof.
  induction threads as [|t threads IH]; intros seen out Htr.
  - cbn [dedupe_loop]. now rewrite app_nil_r.
  - cbn [dedupe_loop]. destruct (decide (id t ∈ seen)) as [Hin|Hnot].
    + rewrite IH by assumption. rewrite !find_app_has_id.
      destruct (find (has_id x) out) as [q|] eqn:Hout; [reflexivity|].
      cbn [find]. unfold has_id at 2.
      destruct (String.eqb_spec (id t) x) as [Heq|_]; [|reflexivity].
      apply Htr in Hin. subst x.
      destruct (find_has_id_In _ _ Hin) as [q Hq]. congruence.
    + rewrite IH by now apply seen_tracks_push.
      now rewrite <- app_assoc.
Qed.

Lemma dedupe_loop_NoDup threads : forall seen out,
  seen_tracks seen out -> NoDup (ids out) ->
  NoDup (ids (dedupe_loop threads seen out)).
Proof.
  induction threads as [|t threads IH]; intros seen out Htr Hnd; [exact Hnd|].
  cbn [dedupe_loop]. destruct (decide (id t ∈ seen)) as [Hin|Hnot].
  - now apply IH.
  - apply IH; [now apply seen_tracks_push|].
    rewrite ids_app. apply NoDup_app. split; [exact Hnd|]. split.
    + intros y Hy [<-|[]]%list_elem_of_In. apply Hnot, Htr.
      now apply list_elem_of_In.
    + cbn. apply NoDup_singleton.
Qed.

(** The loop only ever appends posts of its input, in their order. *)
Lemma dedupe_loop_sublist threads : forall seen out,
  exists kept, dedupe_loop threads seen out = out ++ kept /\ sublist kept threads.
Proof.
  induction threads as [|t threads IH]; intros seen out.
  - exists []. cbn. now rewrite app_nil_r.
  - cbn [dedupe_loop]. destruct (decide (id t ∈ seen)).
    + destruct (IH seen out) as (kept & -> & Hsub).
      exists kept. split; [reflexivity | now apply sublist_cons].
    + destruct (IH ({[id t]} ∪ seen) (out ++ [t])) as (kept & -> & Hsub).
      exists (t :: kept). split; [now rewrite <- app_assoc | now apply sublist_skip].
Qed.

Lemma dedupeById_NoDup threads : NoDup (ids (dedupeById threads)).
Proof. apply dedupe_loop_NoDup; [apply seen_tracks_nil | apply NoDup_nil_2]. Qed.

Lemma dedupeById_find x threads :
  find (has_id x) (dedupeById threads) = find (has_id x) threads.
Proof. unfold dedupeById. now rewrite dedupe_loop_find by apply seen_tracks_nil. Qed.

Lemma dedupeById_sublist threads : sublist (dedupeById threads) threads.
Proof.
  destruct (dedupe_loop_sublist threads ∅ []) as (kept & H & Hsub).
  unfold dedupeById. now rewrite H.
Qed.

(** A thread id that is not blank becomes the id of the post, and no random id
    is drawn. *)
Lemma toThread_id_given randomUUID record draws :
  truthy (thread_id_of record) = true ->
  id (toThread randomUUID record draws).1 = thread_id_of record
  /\ (toThread randomUUID record draws).2 = draws.
Proof. intros H. unfold toThread. rewrite H. now cbn. Qed.

Lemma toThreads_two randomUUID rec1 rec2 :
  toThreads randomUUID [rec1; rec2] 0
  = [ (toThread randomUUID rec1 0).1;
      (toThread randomUUID rec2 (toThread randomUUID rec1 0).2).1 ].
Proof.
  cbn [toThreads]. destruct (toThread randomUUID rec1 0) as [t1 d1]. cbn [fst snd].
  now destruct (toThread randomUUID rec2 d1) as [t2 d2].
Qed.

Lemma toThread_id_drawn randomUUID record draws :
  truthy (thread_id_of record) = false ->
  id (toThread randomUUID record draws).1 = randomUUID draws
  /\ (toThread randomUUID record draws).2 = S draws.
Proof. intros H. unfold toThread. rewrite H. now cbn. Qed.

Lemma dedupeById_other_id (t1 t2 : CsvPost) :
  id t1 <> id t2 -> dedupeById [t1; t2] = [t1; t2].
Proof.
  intros Hne. unfold dedupeById. cbn [dedupe_loop].
  destruct (decide (id t1 ∈ (∅ : gset string))) as [Hin|_]; [set_solver|].
  cbn [dedupe_loop app].
  destruct (decide (id t2 ∈ ({[id t1]} ∪ ∅ : gset string))) as [Hseen|_]; [|reflexivity].
  exfalso. apply Hne.
  apply elem_of_union in Hseen as [Hseen%elem_of_singleton|Hseen%elem_of_empty];
    [congruence | contradiction].
Qed.

Lemma dedupeById_same_id (t1 t2 : CsvPost) :
  id t1 = id t2 -> dedupeById [t1; t2] = [t1].
Proof.
  intros Heq. unfold dedupeById. cbn [dedupe_loop].
  destruct (decide (id t1 ∈ (∅ : gset string))) as [Hin|_]; [set_solver|].
  cbn [dedupe_loop app].
  destruct (decide (id t2 ∈ ({[id t1]} ∪ ∅ : gset string))) as [_|Hnot]; [reflexivity|].
  exfalso. apply Hnot. rewrite Heq. set_solver.
Qed.

End Dedupe.

(** ** fetchCsvPosts *)

(** C2 (as the code has it). The posts [fetchCsvPosts] returns carry pairwise
    distinct ids; they are the posts built from the data rows with the later
    ones of equal id left out, in their order, so looking an id up finds the
    post of the first row that normalises to it. Two data rows whose thread ids
    are equal and not blank after trimming give exactly one post, the one of
    the first row. Two data rows whose thread ids are blank or missing get the
    ids [crypto.randomUUID()] draws for them, and both posts are kept when the
    two ids drawn differ. *)
Theorem C2_no_duplicate_ids (readFile : Js.outcome string) (randomUUID : nat -> string)
    (r : Csv.FetchResult) :
  Csv.fetchCsvPosts readFile randomUUID = Js.Returned r ->
  NoDup (Csv.ids (Csv.threads r))
  /\ (forall csv, readFile = Js.Returned csv ->
        sublist (Csv.threads r) (Csv.builtThreads randomUUID (Csv.parseCsv csv))
        /\ forall x, find (Csv.has_id x) (Csv.threads r)
                     = find (Csv.has_id x) (Csv.builtThreads randomUUID (Csv.parseCsv csv)))
  /\ (forall csv header row1 row2 rec1 rec2,
        readFile = Js.Returned csv ->
        Csv.parseCsv csv = [header; row1; row2] ->
        Csv.buildRecord header row1 = Some rec1 ->
        Csv.buildRecord header row2 = Some rec2 ->
        Csv.thread_id_of rec1 = Csv.thread_id_of rec2 ->
        Js.truthy (Csv.thread_id_of rec1) = true ->
        Csv.threads r = [(Csv.toThread randomUUID rec1 0).1])
  /\ (forall csv header row1 row2 rec1 rec2,
        readFile = Js.Returned csv ->
        Csv.parseCsv csv = [header; row1; row2] ->
        Csv.buildRecord header row1 = Some rec1 ->
        Csv.buildRecord header row2 = Some rec2 ->
        Js.truthy (Csv.thread_id_of rec1) = false ->
        Js.truthy (Csv.thread_id_of rec2) = false ->
        randomUUID 0%nat <> randomUUID 1%nat ->
        Csv.threads r
        = [(Csv.toThread randomUUID rec1 0).1; (Csv.toThread randomUUID rec2 1).1]
        /\ Csv.ids (Csv.threads r) = [randomUUID 0%nat; randomUUID 1%nat]).
Proof.
  intros Hr. unfold Csv.fetchCsvPosts in Hr.
  destruct readFile as [csv|message]; cbn [Js.bind Js.try_catch] in Hr.
  - destruct (Csv.parseCsv csv) as [|header data] eqn:Hrows; cbn in Hr;
      injection Hr as <-; cbn [Csv.threads].
    + split; [apply NoDup_nil_2|]. split; [|split].
      * intros csv' [= <-]. rewrite Hrows. cbn. split; [constructor|reflexivity].
      * intros csv' ? ? ? ? ? [= <-]. rewrite Hrows. discriminate.
      * intros csv' ? ? ? ? ? [= <-]. rewrite Hrows. discriminate.
    + split; [apply dedupeById_NoDup|]. split; [|split].
      * intros csv' [= <-]. rewrite Hrows. cbn [Csv.builtThreads]. split.
        -- apply dedupeById_sublist.
        -- intros x. apply dedupeById_find.
      * intros csv' header' row1 row2 rec1 rec2 [= <-]. rewrite Hrows.
        intros [= <- ->] H1 H2 Hsame Hgiven.
        assert (Hrecs : Csv.buildRecords header [row1; row2] = [rec1; rec2]).
        { unfold Csv.buildRecords. cbn. now rewrite H1, H2. }
        rewrite Hrecs, toThreads_two.
        destruct (toThread_id_given randomUUID rec1 0 Hgiven) as [Hid1 Hd1].
        rewrite Hd1. rewrite Hsame in Hgiven.
        destruct (toThread_id_given randomUUID rec2 0 Hgiven) as [Hid2 _].
        apply dedupeById_same_id. now rewrite Hid1, Hid2.
      * intros csv' header' row1 row2 rec1 rec2 [= <-]. rewrite Hrows.
        intros [= <- ->] H1 H2 Hblank1 Hblank2 Hdrawn.
        assert (Hrecs : Csv.buildRecords header [row1; row2] = [rec1; rec2]).
        { unfold Csv.buildRecords. cbn. now rewrite H1, H2. }
        rewrite Hrecs, toThreads_two.
        destruct (toThread_id_drawn randomUUID rec1 0 Hblank1) as [Hid1 Hd1].
        rewrite Hd1.
        destruct (toThread_id_drawn randomUUID rec2 1 Hblank2) as [Hid2 _].
        rewrite dedupeById_other_id by now rewrite Hid1, Hid2.
        split; [reflexivity|]. unfold Csv.ids. cbn [map]. now rewrite Hid1, Hid2.
  - cbn in Hr. injection Hr as <-. cbn [Csv.threads]. split; [apply NoDup_nil_2|].
    split; [|split]; intros; discriminate.
Qed.

Lemma C2_no_duplicate_ids_witness :
  (exists r,
    Csv.fetchCsvPosts
      (Js.Returned ("thread_id,hw_number" +:+ String Js.LF ("7 ,3" +:+ String Js.LF "7,4")))
      (fun _ => "00000000-0000-4000-8000-000000000000") = Js.Returned r
    /\ NoDup (Csv.ids (Csv.threads r))
    /\ Csv.ids (Csv.threads r) = ["7"])
  /\ (exists r,
        Csv.fetchCsvPosts
          (Js.Returned ("thread_id,title_clean" +:+ String Js.LF (",A" +:+ String Js.LF ",B")))
          (fun n => match n with
                    | O => "3f2b8c1e-5d4a-4b7f-9c60-1a2b3c4d5e6f"
                    | _ => "a81d4fae-7dec-41d0-a765-00a0c91e6bf6"
                    end) = Js.Returned r
        /\ Csv.ids (Csv.threads r)
           = ["3f2b8c1e-5d4a-4b7f-9c60-1a2b3c4d5e6f"; "a81d4fae-7dec-41d0-a765-00a0c91e6bf6"]).
Proof.
  split.
  - eexists. split; [reflexivity|]. split.
    + refine (proj1 (C2_no_duplicate_ids
        (Js.Returned ("thread_id,hw_number" +:+ String Js.LF ("7 ,3" +:+ String Js.LF "7,4")))
        (fun _ => "00000000-0000-4000-8000-000000000000") _ _)).
      reflexivity.
    + vm_compute. reflexivity.
  - eexists. split; [reflexivity|].
    refine (proj2 (proj2 (proj2 (proj2 (C2_no_duplicate_ids
      (Js.Returned ("thread_id,title_clean" +:+ String Js.LF (",A" +:+ String Js.LF ",B")))
      (fun n => match n with
                | O => "3f2b8c1e-5d4a-4b7f-9c60-1a2b3c4d5e6f"
                | _ => "a81d4fae-7dec-41d0-a765-00a0c91e6bf6"
                end) _ eq_refl))) _
      ["thread_id"; "title_clean"] [EmptyString; "A"] [EmptyString; "B"] _ _
      eq_refl eq_refl eq_refl eq_refl eq_refl eq_refl _)).
    discriminate.
Defined.

(** C2 as stated fails: two data rows with the same (blank) thread id each get
    an id of their own from [crypto.randomUUID()], and both posts are kept. *)
Lemma C2_identical_thread_id_counterexample :
  ~ (forall (csv : string) (header row1 row2 : list string)
            (rec1 rec2 : gmap string string) (randomUUID : nat -> string)
            (r : Csv.FetchResult),
        Csv.fetchCsvPosts (Js.Returned csv) randomUUID = Js.Returned r ->
        Csv.parseCsv csv = [header; row1; row2] ->
        Csv.buildRecord header row1 = Some rec1 ->
        Csv.buildRecord header row2 = Some rec2 ->
        Csv.thread_id_of rec1 = Csv.thread_id_of rec2 ->
        length (Csv.threads r) = 1%nat).
Proof.
  intros H.
  specialize (H ("thread_id,title_clean" +:+ String Js.LF (",A" +:+ String Js.LF ",B"))
                ["thread_id"; "title_clean"] [EmptyString; "A"] [EmptyString; "B"] _ _
                (fun n => match n with
                          | O => "3f2b8c1e-5d4a-4b7f-9c60-1a2b3c4d5e6f"
                          | _ => "a81d4fae-7dec-41d0-a765-00a0c91e6bf6"
                          end)
                _ eq_refl eq_refl eq_refl eq_refl eq_refl).
  vm_compute in H. discriminate H.
Qed.

(** C3. Whatever the file system answers, [fetchCsvPosts] returns: a read
    failure gives no posts and the warning built from the error message, a
    text that parses to no rows gives no posts and the empty-file warning. *)
Theorem C3_fetch_never_throws (readFile : Js.outcome string) (randomUUID : nat -> string) :
  exists r : Csv.FetchResult,
    Csv.fetchCsvPosts readFile randomUUID = Js.Returned r
    /\ (forall message, readFile = Js.Thrown message ->
          Csv.threads r = []
          /\ Csv.warning r = Some ("Failed to read CSV (" +:+ message +:+ ")."))
    /\ (forall csv, readFile = Js.Returned csv -> Csv.parseCsv csv = [] ->
          Csv.threads r = [] /\ Csv.warning r = Some "CSV file is empty.").
Proof.
  unfold Csv.fetchCsvPosts.
  destruct readFile as [csv|message]; cbn [Js.bind Js.try_catch].
  - destruct (Csv.parseCsv csv) as [|header data] eqn:Hrows;
      eexists; (split; [reflexivity|]); (split; [discriminate|]).
    + intros _ _ _. now cbn.
    + intros csv' [= <-]. rewrite Hrows. discriminate.
  - eexists. split; [reflexivity|]. split; [|discriminate].
    intros m [= <-]. now cbn.
Qed.

Lemma C3_fetch_never_throws_witness :
  exists r : Csv.FetchResult,
    Csv.fetchCsvPosts (Js.Thrown "ENOENT: no such file or directory") (fun _ => EmptyString)
    = Js.Returned r
    /\ Csv.threads r = []
    /\ Csv.warning r = Some "Failed to read CSV (ENOENT: no such file or directory).".
Proof.
  destruct (C3_fetch_never_throws (Js.Thrown "ENOENT: no such file or directory")
              (fun _ => EmptyString)) as (r & Hr & Hfail & _).
  exists r. split; [exact Hr|]. exact (Hfail _ eq_refl).
Defined.

(** ** groupThreads *)

Section Grouping.
Import Js Types Regex Ai.

Lemma some_id_spec (items : list Post) (x : string) :
  some_id items x = true <-> exists item, In item items /\ id item = x.
Proof.
  unfold some_id. rewrite existsb_exists. split.
  - intros (item & Hin & Heq). apply String.eqb_eq in Heq. eauto.
  - intros (item & Hin & Heq). exists item. split; [exact Hin|].
    now apply String.eqb_eq.
Qed.

(** What a push leaves in the bucket it addresses. *)
Lemma push_same (m : gmap string (list Post)) key value :
  exists items,
    pushMapUniqueById m key value !! key = Some items
    /\ (exists item, In item items /\ id item = id value)
    /\ (forall item, In item items ->
          (exists old, m !! key = Some old /\ In item old) \/ item = value).
Proof.
  unfold pushMapUniqueById. destruct (m !! key) as [existing|] eqn:Hkey.
  - destruct (some_id existing (id value)) eqn:Hsome.
    + exists existing. rewrite Hkey. split; [reflexivity|]. split.
      * now apply some_id_spec.
      * intros item Hin. left. eauto.
    + exists (existing ++ [value]). rewrite lookup_insert_eq. split; [reflexivity|]. split.
      * exists value. split; [|reflexivity]. apply in_app_iff. right. now left.
      * intros item [Hin|[<-|[]]]%in_app_iff; [left; eauto | now right].
  - exists [value]. rewrite lookup_insert_eq. split; [reflexivity|]. split.
    + exists value. split; [now left | reflexivity].
    + intros item [<-|[]]. now right.
Qed.

Lemma push_other (m : gmap string (list Post)) key value key' :
  key' ≠ key -> pushMapUniqueById m key value !! key' = m !! key'.
Proof.
  intros Hne. unfold pushMapUniqueById. destruct (m !! key) as [existing|].
  - destruct (some_id existing (id value)); [reflexivity|].
    now apply lookup_insert_ne.
  - now apply lookup_insert_ne.
Qed.

(** A push never removes a post from any bucket, and only adds the pushed
    post. *)
Lemma push_grows (m : gmap string (list Post)) key value key' items :
  m !! key' = Some items ->
  exists items',
    pushMapUniqueById m key value !! key' = Some items'
    /\ (forall item, In item items -> In item items')
    /\ (forall item, In item items' -> In item items \/ item = value).
Proof.
  intros Hitems. destruct (decide (key' = key)) as [->|Hne].
  - unfold pushMapUniqueById. rewrite Hitems.
    destruct (some_id items (id value)).
    + exists items. rewrite Hitems. auto.
    + exists (items ++ [value]). rewrite lookup_insert_eq. split; [reflexivity|].
      split; intros item; rewrite in_app_iff; [auto|].
      intros [?|[<-|[]]]; auto.
  - exists items. rewrite push_other by assumption. auto.
Qed.

Lemma push_origin (m : gmap string (list Post)) key value key' items' item :
  pushMapUniqueById m key value !! key' = Some items' -> In item items' ->
  (exists items, m !! key' = Some items /\ In item items) \/ item = value.
Proof.
  intros Hlook Hin. destruct (decide (key' = key)) as [->|Hne].
  - destruct (push_same m key value) as (items & Hitems & _ & Horigin).
    rewrite Hitems in Hlook. injection Hlook as <-. now apply Horigin.
  - rewrite push_other in Hlook by assumption. left. eauto.
Qed.

Lemma collect_snoc threads thread :
  collect (threads ++ [thread]) = group_step (collect threads) thread.
Proof. unfold collect. now rewrite fold_left_app. Qed.

Lemma homework_step g thread :
  homeworkGroups (group_step g thread)
  = when_truthy (hw_of thread)
      (fun hw m => pushMapUniqueById m ("hw:" +:+ hw) thread) (homeworkGroups g).
Proof. reflexivity. Qed.

(** Every post of a homework bucket is one of the posts scanned, and the key
    of the bucket is the homework key of the post. *)
Lemma homework_members threads : forall key items item,
  homeworkGroups (collect threads) !! key = Some items -> In item items ->
  In item threads
  /\ exists n, hw_of item = Some n /\ truthy n = true /\ key = "hw:" +:+ n.
Proof.
  induction threads as [|thread threads IH] using rev_ind; intros key items item Hlook Hin.
  - cbn in Hlook. now rewrite lookup_empty in Hlook.
  - rewrite collect_snoc, homework_step in Hlook. rewrite in_app_iff.
    unfold when_truthy in Hlook.
    destruct (hw_of thread) as [hw|] eqn:Hhw; [destruct (truthy hw) eqn:Hn|];
      try (destruct (IH _ _ _ Hlook Hin); now auto).
    destruct (decide (key = "hw:" +:+ hw)) as [->|Hne].
    + destruct (push_origin _ _ _ _ _ _ Hlook Hin) as [(old & Hold & Hin') | ->].
      * destruct (IH _ _ _ Hold Hin'); auto.
      * split; [right; now left | eauto].
    + rewrite push_other in Hlook by assumption.
      destruct (IH _ _ _ Hlook Hin); auto.
Qed.

(** A post whose homework key is not blank is represented in the bucket of
    that key. *)
Lemma homework_assigned threads : forall thread n,
  In thread threads -> hw_of thread = Some n -> truthy n = true ->
  exists items item,
    homeworkGroups (collect threads) !! ("hw:" +:+ n) = Some items
    /\ In item items /\ id item = id thread.
Proof.
  induction threads as [|last threads IH] using rev_ind; intros thread n Hin Hhw Hn.
  - destruct Hin.
  - rewrite collect_snoc, homework_step.
    apply in_app_iff in Hin as [Hin|[->|[]]].
    + destruct (IH _ _ Hin Hhw Hn) as (items & item & Hlook & Hitem & Hid).
      unfold when_truthy.
      destruct (hw_of last) as [hw|]; [destruct (truthy hw)|]; eauto.
      destruct (push_grows _ ("hw:" +:+ hw) last _ _ Hlook) as (items' & Hlook' & Hkeep & _).
      exists items', item. auto.
    + unfold when_truthy. rewrite Hhw, Hn.
      destruct (push_same (homeworkGroups (collect threads)) ("hw:" +:+ n) thread)
        as (items & Hlook & (item & Hitem & Hid) & _).
      eauto.
Qed.

Lemma same_id_same_post (threads : list Post) (a b : Post) :
  NoDup (map id threads) -> In a threads -> In b threads -> id a = id b -> a = b.
Proof.
  induction threads as [|t threads IH]; intros Hnd Ha Hb Heq; [destruct Ha|].
  cbn in Hnd. apply NoDup_cons in Hnd as [Hfresh Hnd].
  destruct Ha as [->|Ha], Hb as [->|Hb]; auto.
  - exfalso. apply Hfresh. rewrite Heq. apply list_elem_of_In. now apply in_map.
  - exfalso. apply Hfresh. rewrite <- Heq. apply list_elem_of_In. now apply in_map.
Qed.

Lemma find_tag_truthy prefix thread tag :
  truthy prefix = true -> find_tag prefix thread = Some tag -> truthy tag = true.
Proof.
  intros Hp Hfind. apply find_some in Hfind as [_ Hstarts].
  destruct tag; [|reflexivity]. destruct prefix; [discriminate|]. discriminate.
Qed.

Lemma hw_of_tagged thread tag :
  find_tag "hw:" thread = Some tag -> hw_of thread = tag_value tag.
Proof.
  intros Hfind. unfold hw_of. rewrite Hfind.
  now rewrite (find_tag_truthy "hw:" thread tag eq_refl Hfind).
Qed.

Lemma first_capture_app ps1 ps2 text n :
  first_capture ps1 text = Some n -> first_capture (ps1 ++ ps2) text = Some n.
Proof.
  induction ps1 as [|p ps1 IH]; [discriminate|]. cbn [first_capture app].
  destruct (match1 p text) as [number|]; [destruct (truthy number)|]; auto.
Qed.

Lemma first_capture_skip ps1 ps2 text :
  first_capture ps1 text = None ->
  first_capture (ps1 ++ ps2) text = first_capture ps2 text.
Proof.
  induction ps1 as [|p ps1 IH]; [reflexivity|]. cbn [first_capture app].
  destruct (match1 p text) as [number|]; [destruct (truthy number)|]; auto.
  discriminate.
Qed.

(** The second loop keeps exactly the buckets of two or more posts. *)
Lemma drop_fold_lookup (entries : list (string * list Post)) : forall acc key,
  fold_left drop_step entries acc !! key
  = if existsb (fun entry : string * list Post =>
                  String.eqb entry.1 key && (length entry.2 <? 2)%nat) entries
    then None else acc !! key.
Proof.
  induction entries as [|[k items] entries IH]; intros acc key; [reflexivity|].
  cbn [fold_left existsb]. rewrite IH. unfold drop_step. cbn [fst snd].
  destruct (existsb _ entries); [now rewrite orb_true_r|]. rewrite orb_false_r.
  destruct (length items <? 2)%nat; [|now rewrite andb_false_r].
  rewrite andb_true_r. destruct (String.eqb_spec k key) as [->|Hne].
  - apply lookup_delete_eq.
  - now apply lookup_delete_ne.
Qed.

Lemma drop_small_lookup (m : gmap string (list Post)) key :
  drop_small m !! key
  = match m !! key with
    | Some items => if (length items <? 2)%nat then None else Some items
    | None => None
    end.
Proof.
  unfold drop_small. rewrite drop_fold_lookup.
  destruct (existsb _ (map_to_list m)) eqn:Hex.
  - apply existsb_exists in Hex as ([k items] & Hin & Hsmall).
    cbn [fst snd] in Hsmall. apply andb_true_iff in Hsmall as [Hk Hsmall].
    apply String.eqb_eq in Hk. subst k.
    apply list_elem_of_In, elem_of_map_to_list in Hin. now rewrite Hin, Hsmall.
  - destruct (m !! key) as [items|] eqn:Hlook; [|reflexivity].
    destruct (length items <? 2)%nat eqn:Hsmall; [|reflexivity].
    exfalso. apply not_true_iff_false in Hex. apply Hex, existsb_exists.
    exists (key, items). split.
    + now apply list_elem_of_In, elem_of_map_to_list.
    + cbn [fst snd]. now rewrite String.eqb_refl, Hsmall.
Qed.

End Grouping.

(** C5 (as the code has it). The first tag that starts with [hw:] (letter
    case ignored) decides the homework key: it is the trimmed text between the
    first and the second colon of the tag, whatever the title, the body and the
    other tags say, and the patterns are not consulted; they are consulted only
    when no such tag exists, in their fixed order, the first capture winning.
    A post is put in the bucket of its key when the key is not blank, and
    in that bucket only; a tag with a blank value puts the post in none. *)
Theorem C5_hw_tag_precedence :
  (forall (thread : Types.Post) (tag : string),
      Ai.find_tag "hw:" thread = Some tag -> Ai.hw_of thread = Ai.tag_value tag)
  /\ (forall thread : Types.Post,
      Ai.find_tag "hw:" thread = None ->
      Ai.hw_of thread = Ai.detectHomework (Ai.text_of thread))
  /\ (forall (earlier later : list Regex.re) (text n : string),
      Ai.first_capture earlier text = Some n ->
      Ai.first_capture (earlier ++ later) text = Some n)
  /\ (forall (earlier later : list Regex.re) (text : string),
      Ai.first_capture earlier text = None ->
      Ai.first_capture (earlier ++ later) text = Ai.first_capture later text)
  /\ (forall (threads : list Types.Post) (thread : Types.Post) (n : string),
      In thread threads -> Ai.hw_of thread = Some n -> Js.truthy n = true ->
      exists items item,
        Ai.homeworkGroups (Ai.groupThreads threads) !! ("hw:" +:+ n) = Some items
        /\ In item items /\ Types.id item = Types.id thread
        /\ (NoDup (map Types.id threads) -> item = thread))
  /\ (forall (threads : list Types.Post) (key : string) (items : list Types.Post)
             (item : Types.Post),
      Ai.homeworkGroups (Ai.groupThreads threads) !! key = Some items -> In item items ->
      In item threads
      /\ exists n, Ai.hw_of item = Some n /\ Js.truthy n = true /\ key = "hw:" +:+ n)
  /\ Ai.detectHomework (Ai.text_of Samples.tagged_hw3) = Some "5"
  /\ Ai.homeworkGroups (Ai.groupThreads [Samples.tagged_hw3])
     = {[ "hw:3" := [Samples.tagged_hw3] ]}
  /\ Ai.detectHomework "Assignment 5, then hw 7" = Some "7".
Proof.
  split; [exact hw_of_tagged|].
  split; [intros thread Hnone; unfold Ai.hw_of; now rewrite Hnone|].
  split; [exact first_capture_app|].
  split; [exact first_capture_skip|].
  split.
  { intros threads thread n Hin Hhw Hn. cbn [Ai.groupThreads Ai.homeworkGroups].
    destruct (homework_assigned threads thread n Hin Hhw Hn)
      as (items & item & Hlook & Hitem & Hid).
    exists items, item. repeat split; try assumption.
    intros Hnd. apply (same_id_same_post threads); try assumption.
    now apply (homework_members threads _ _ _ Hlook). }
  split; [intros threads key items item; apply homework_members|].
  repeat split; vm_compute; reflexivity.
Qed.

Lemma C5_hw_tag_precedence_witness :
  Ai.hw_of Samples.tagged_hw3 = Some "3"
  /\ exists items,
       Ai.homeworkGroups (Ai.groupThreads [Samples.on_qwen; Samples.tagged_hw3]) !! "hw:3"
       = Some items
       /\ In Samples.tagged_hw3 items.
Proof.
  destruct C5_hw_tag_precedence as (Htag & _ & _ & _ & Hbucket & _).
  split.
  - exact (Htag Samples.tagged_hw3 "hw:3" eq_refl).
  - destruct (Hbucket [Samples.on_qwen; Samples.tagged_hw3] Samples.tagged_hw3 "3")
      as (items & item & Hlook & Hitem & _ & Hsame).
    + right. now left.
    + reflexivity.
    + reflexivity.
    + exists items. split; [exact Hlook|].
      rewrite <- Hsame; [exact Hitem|].
      cbn. apply NoDup_cons. split; [|apply NoDup_singleton].
      intros Hin%list_elem_of_In. destruct Hin as [Heq|[]]. discriminate Heq.
Defined.

(** C5 as stated fails: a post carrying the tag [hw:] with nothing after the
    colon is assigned to no homework bucket at all. *)
Lemma C5_blank_hw_tag_counterexample :
  ~ (forall (threads : list Types.Post) (thread : Types.Post) (tag : string),
        In thread threads -> In tag (Ai.tags_of thread) ->
        Js.startsWith "hw:" tag = true ->
        exists key items,
          Ai.homeworkGroups (Ai.groupThreads threads) !! key = Some items
          /\ In thread items).
Proof.
  intros H.
  destruct (H [Samples.blank_hw_tag] Samples.blank_hw_tag "hw:")
    as (key & items & Hlook & _); [now left | now left | reflexivity |].
  assert (Hempty : Ai.homeworkGroups (Ai.groupThreads [Samples.blank_hw_tag]) = ∅)
    by (vm_compute; reflexivity).
  rewrite Hempty, lookup_empty in Hlook. discriminate Hlook.
Qed.

(** C6. Every bucket of [modelGroups] holds at least two posts: a bucket
    collected with fewer is deleted before the result is returned, one
    collected with two or more is returned as collected. [homeworkGroups] is
    returned as collected, whatever the sizes: every post with a homework key
    finds its bucket there, be it alone in it. *)
Theorem C6_small_model_buckets_dropped (threads : list Types.Post) :
  (forall (key : string) (items : list Types.Post),
      Ai.modelGroups (Ai.groupThreads threads) !! key = Some items ->
      (2 <= length items)%nat)
  /\ (forall (key : string) (items : list Types.Post),
      Ai.modelGroups (Ai.collect threads) !! key = Some items ->
      Ai.modelGroups (Ai.groupThreads threads) !! key
      = if (length items <? 2)%nat then None else Some items)
  /\ (forall key : string,
      Ai.modelGroups (Ai.collect threads) !! key = None ->
      Ai.modelGroups (Ai.groupThreads threads) !! key = None)
  /\ Ai.homeworkGroups (Ai.groupThreads threads) = Ai.homeworkGroups (Ai.collect threads)
  /\ (forall (thread : Types.Post) (n : string),
      In thread threads -> Ai.hw_of thread = Some n -> Js.truthy n = true ->
      exists items,
        Ai.homeworkGroups (Ai.groupThreads threads) !! ("hw:" +:+ n) = Some items
        /\ (1 <= length items)%nat).
Proof.
  cbn [Ai.groupThreads Ai.modelGroups Ai.homeworkGroups].
  split; [|split; [|split; [|split; [reflexivity|]]]].
  - intros key items. rewrite drop_small_lookup.
    destruct (Ai.modelGroups (Ai.collect threads) !! key) as [collected|]; [|discriminate].
    destruct (length collected <? 2)%nat eqn:Hsmall; [discriminate|].
    intros [= <-]. apply Nat.ltb_ge in Hsmall. exact Hsmall.
  - intros key items Hlook. now rewrite drop_small_lookup, Hlook.
  - intros key Hlook. now rewrite drop_small_lookup, Hlook.
  - intros thread n Hin Hhw Hn.
    destruct (homework_assigned threads thread n Hin Hhw Hn)
      as (items & item & Hlook & Hitem & _).
    exists items. split; [exact Hlook|]. destruct items; [destruct Hitem | cbn; lia].
Qed.

Lemma C6_small_model_buckets_witness :
  Ai.modelGroups (Ai.groupThreads [Samples.on_llama_a; Samples.on_qwen; Samples.on_llama_b])
    !! "model:llama" = Some [Samples.on_llama_a; Samples.on_llama_b]
  /\ Ai.modelGroups (Ai.groupThreads [Samples.on_llama_a; Samples.on_qwen; Samples.on_llama_b])
    !! "model:qwen" = None
  /\ Ai.homeworkGroups (Ai.groupThreads [Samples.on_llama_a; Samples.on_qwen; Samples.on_llama_b])
    !! "hw:3" = Some [Samples.on_qwen].
Proof.
  pose proof (C6_small_model_buckets_dropped
                [Samples.on_llama_a; Samples.on_qwen; Samples.on_llama_b])
    as (_ & Hkept & _ & Hhw & _).
  split; [|split].
  - exact (Hkept "model:llama" [Samples.on_llama_a; Samples.on_llama_b] eq_refl).
  - exact (Hkept "model:qwen" [Samples.on_qwen] eq_refl).
  - rewrite Hhw. reflexivity.
Defined.

(** ** openaiChatCompletion *)

Section Retry.
Import Js Remote.
Variable random_floor : nat -> Z -> Z.
Variable net : nat -> outcome Response.

Local Abbreviation attempts := (Remote.attempts random_floor net).

Lemma transient_spec response :
  transient response = true
  <-> (status response = 429 \/ 500 <= status response <= 599)%Z.
Proof. unfold transient. lia. Qed.

Lemma attempts_retry fuel attempt model_name w response :
  net (requests w) = Returned response -> ok response = false ->
  transient response = true ->
  attempts (S fuel) attempt model_name w
  = attempts fuel (attempt + 1) model_name
      (slept (num_max (retryAfterMs (retry_after response))
                      (Int (backoffMs random_floor attempt (fetched w))))
             (fetched w)).
Proof. intros Hnet Hok Htr. cbn [Remote.attempts]. now rewrite Hnet, Hok, Htr. Qed.

Lemma attempts_terminal fuel attempt model_name w response :
  net (requests w) = Returned response -> ok response = false ->
  transient response = false ->
  exists message, attempts (S fuel) attempt model_name w = (Thrown message, fetched w).
Proof.
  intros Hnet Hok Htr. cbn [Remote.attempts]. rewrite Hnet, Hok, Htr. eauto.
Qed.

Lemma attempts_success fuel attempt model_name w response body c :
  net (requests w) = Returned response -> ok response = true ->
  json response = Returned body -> content body = Some c -> truthy c = true ->
  attempts (S fuel) attempt model_name w
  = (Returned (mkCompletion c (nullish (model body) model_name)), fetched w).
Proof.
  intros Hnet Hok Hjson Hc Ht. cbn [Remote.attempts].
  now rewrite Hnet, Hok, Hjson, Hc, Ht.
Qed.

(** An invocation issues at most [fuel] requests, and never touches the
    cache. *)
Lemma attempts_bound fuel : forall attempt model_name w,
  (requests w <= requests (attempts fuel attempt model_name w).2
   <= requests w + fuel)%nat
  /\ cache (attempts fuel attempt model_name w).2 = cache w.
Proof.
  induction fuel as [|fuel IH]; intros attempt model_name w; [cbn; split; [lia|reflexivity]|].
  cbn [Remote.attempts].
  destruct (net (requests w)) as [response|message]; [|cbn; split; [lia|reflexivity]].
  destruct (ok response).
  - destruct (json response) as [body|message]; [|cbn; split; [lia|reflexivity]].
    destruct (content body) as [c|]; [destruct (truthy c)|]; cbn; (split; [lia|reflexivity]).
  - destruct (transient response); [|cbn; split; [lia|reflexivity]].
    match goal with |- context [Remote.attempts _ _ fuel ?a ?m ?w'] =>
      destruct (IH a m w') as [Hreq Hcache]; cbn in Hreq, Hcache |- * end.
    split; [lia|exact Hcache].
Qed.

(** When every answer is a transient failure, all the attempts are used up. *)
Lemma attempts_exhausted fuel : forall attempt model_name w,
  (forall i, (i < fuel)%nat ->
     exists response, net (requests w + i) = Returned response
                      /\ ok response = false /\ transient response = true) ->
  (attempts fuel attempt model_name w).1 = Thrown "OpenAI retries exhausted (429/5xx)."
  /\ requests (attempts fuel attempt model_name w).2 = (requests w + fuel)%nat.
Proof.
  induction fuel as [|fuel IH]; intros attempt model_name w Hall.
  - cbn. split; [reflexivity|lia].
  - destruct (Hall 0%nat) as (response & Hnet & Hok & Htr); [lia|].
    rewrite Nat.add_0_r in Hnet.
    rewrite (attempts_retry _ _ _ _ _ Hnet Hok Htr).
    match goal with |- context [Remote.attempts _ _ fuel ?a ?m ?w'] =>
      destruct (IH a m w') as [Hres Hreq] end.
    + intros i Hi. cbn [requests slept fetched].
      replace (S (requests w) + i)%nat with (requests w + S i)%nat by lia.
      apply Hall. lia.
    + split; [exact Hres|]. rewrite Hreq. cbn. lia.
Qed.

Hypothesis random_floor_range :
  forall n maxMs, (0 < maxMs)%Z -> (0 <= random_floor n maxMs < maxMs)%Z.

Lemma backoffMs_range attempt w :
  (Z.min 30000 (600 * 2 ^ (attempt - 1)) <= backoffMs random_floor attempt w
   <= Z.min 30000 (600 * 2 ^ (attempt - 1) + 249))%Z.
Proof.
  unfold backoffMs, jitter.
  pose proof (random_floor_range (draws w) 250 ltac:(lia)). lia.
Qed.

End Retry.

(** C7 (as the code has it). With the random source in its range: the
    attempt count defaults to 5 and bounds the requests of a call; a
    non-success answer is retried exactly when its status is 429 or in
    500..599, after a sleep of the larger of the retry-after delay (seconds
    times 1000, 0 without the header) and the backoff, which is 600 ms doubled
    per attempt plus a jitter of 0 to 249 ms, the sum capped at 30 s; any other
    non-success status fails at once, without sleep or further request; a
    server that only gives transient failures uses up all the attempts. *)
Theorem C7_retry_policy (random_floor : nat -> Z -> Z)
    (net : nat -> Js.outcome Remote.Response) :
  (forall n maxMs, (0 < maxMs)%Z -> (0 <= random_floor n maxMs < maxMs)%Z) ->
  Remote.maxAttempts None = Remote.Int 5
  /\ (forall model_name w,
        Remote.openaiChatCompletion random_floor net None model_name w
        = Remote.attempts random_floor net 5 1 model_name w)
  /\ (forall fuel attempt model_name w,
        (Remote.requests (Remote.attempts random_floor net fuel attempt model_name w).2
         <= Remote.requests w + fuel)%nat)
  /\ (forall fuel attempt model_name w response,
        net (Remote.requests w) = Js.Returned response ->
        Remote.ok response = false ->
        (Remote.status response = 429 \/ 500 <= Remote.status response <= 599)%Z ->
        Remote.attempts random_floor net (S fuel) attempt model_name w
        = Remote.attempts random_floor net fuel (attempt + 1) model_name
            (Remote.slept
               (Remote.num_max (Remote.retryAfterMs (Remote.retry_after response))
                  (Remote.Int (Remote.backoffMs random_floor attempt (Remote.fetched w))))
               (Remote.fetched w)))
  /\ (forall fuel attempt model_name w response,
        net (Remote.requests w) = Js.Returned response ->
        Remote.ok response = false ->
        ~ (Remote.status response = 429 \/ 500 <= Remote.status response <= 599)%Z ->
        exists message,
          Remote.attempts random_floor net (S fuel) attempt model_name w
          = (Js.Thrown message, Remote.fetched w))
  /\ (forall attempt w,
        (1 <= attempt)%Z ->
        (Z.min 30000 (600 * 2 ^ (attempt - 1)) <= Remote.backoffMs random_floor attempt w
         <= Z.min 30000 (600 * 2 ^ (attempt - 1) + 249))%Z
        /\ (600 * 2 ^ (attempt + 1 - 1) = 2 * (600 * 2 ^ (attempt - 1)))%Z
        /\ Remote.num_max (Remote.retryAfterMs Remote.Absent)
             (Remote.Int (Remote.backoffMs random_floor attempt w))
           = Remote.Int (Remote.backoffMs random_floor attempt w)
        /\ forall s,
             Remote.num_max (Remote.retryAfterMs (Remote.Seconds s))
               (Remote.Int (Remote.backoffMs random_floor attempt w))
             = Remote.Int (Z.max (s * 1000) (Remote.backoffMs random_floor attempt w)))
  /\ (forall fuel attempt model_name w,
        (forall i, (i < fuel)%nat ->
           exists response,
             net (Remote.requests w + i) = Js.Returned response
             /\ Remote.ok response = false
             /\ (Remote.status response = 429 \/ 500 <= Remote.status response <= 599)%Z) ->
        (Remote.attempts random_floor net fuel attempt model_name w).1
        = Js.Thrown "OpenAI retries exhausted (429/5xx)."
        /\ Remote.requests (Remote.attempts random_floor net fuel attempt model_name w).2
           = (Remote.requests w + fuel)%nat).
Proof.
  intros Hrange.
  split; [reflexivity|]. split; [reflexivity|].
  split; [intros; apply attempts_bound|].
  split.
  { intros fuel attempt model_name w response Hnet Hok Hst.
    apply attempts_retry; [assumption..|]. now apply transient_spec. }
  split.
  { intros fuel attempt model_name w response Hnet Hok Hst.
    apply (attempts_terminal _ _ _ _ _ _ response); [assumption..|].
    apply not_true_iff_false. intros Htr. now apply Hst, transient_spec. }
  split.
  { intros attempt w Hattempt.
    pose proof (backoffMs_range random_floor Hrange attempt w) as Hb.
    assert (Hpow : (0 < 2 ^ (attempt - 1))%Z) by (apply Z.pow_pos_nonneg; lia).
    split; [exact Hb|]. split.
    - replace (attempt + 1 - 1)%Z with (Z.succ (attempt - 1)) by lia.
      rewrite Z.pow_succ_r by lia. lia.
    - split.
      + cbn. f_equal. lia.
      + intros s. reflexivity. }
  intros fuel attempt model_name w Hall. apply attempts_exhausted.
  intros i Hi. destruct (Hall i Hi) as (response & Hnet & Hok & Hst).
  exists response. repeat split; try assumption. now apply transient_spec.
Qed.

Lemma C7_retry_policy_witness :
  (Remote.attempts Samples.no_jitter Samples.always_503 5 1 "gpt-4o-mini" Samples.fresh).1
  = Js.Thrown "OpenAI retries exhausted (429/5xx)."
  /\ Remote.requests
       (Remote.attempts Samples.no_jitter Samples.always_503 5 1 "gpt-4o-mini" Samples.fresh).2
     = 5%nat.
Proof.
  assert (Hrange : forall (n : nat) (maxMs : Z),
             (0 < maxMs)%Z -> (0 <= Samples.no_jitter n maxMs < maxMs)%Z)
    by (intros n maxMs Hpos; unfold Samples.no_jitter; lia).
  destruct (C7_retry_policy Samples.no_jitter Samples.always_503 Hrange)
    as (_ & _ & _ & _ & _ & _ & Hexhausted).
  apply (Hexhausted 5%nat 1%Z "gpt-4o-mini" Samples.fresh).
  intros i _. eexists. split; [reflexivity|]. split; [reflexivity|].
  right. cbn. lia.
Defined.

(** C7 as stated fails twice. A retry-after header does not set the sleep: an
    answer 429 with [retry-after: 0] is followed by a sleep of 600 ms, the
    backoff. And the jitter is never negative: whatever the random source
    gives, the first backoff is not below 600 ms. *)
Lemma C7_retry_after_and_jitter_counterexample :
  ~ (forall (random_floor : nat -> Z -> Z) (net : nat -> Js.outcome Remote.Response)
            (model_name : string) (w : Remote.World) (response : Remote.Response) (s : Z),
        net (Remote.requests w) = Js.Returned response ->
        Remote.ok response = false ->
        (Remote.status response = 429 \/ 500 <= Remote.status response <= 599)%Z ->
        Remote.retry_after response = Remote.Seconds s ->
        In (Remote.Slept (Remote.Int (s * 1000)))
           (Remote.trace
              (Remote.openaiChatCompletion random_floor net None model_name w).2))
  /\ ~ (exists (random_floor : nat -> Z -> Z) (w : Remote.World),
          (forall n maxMs, (0 < maxMs)%Z -> (0 <= random_floor n maxMs < maxMs)%Z)
          /\ (Remote.backoffMs random_floor 1 w < 600)%Z).
Proof.
  split.
  - intros H.
    specialize (H Samples.no_jitter Samples.busy_then_ok "gpt-4o-mini" Samples.fresh
                  _ 0%Z eq_refl eq_refl (or_introl eq_refl) eq_refl).
    vm_compute in H. destruct H as [H|[H|[H|[]]]]; discriminate H.
  - intros (random_floor & w & Hrange & Hlow).
    pose proof (backoffMs_range random_floor Hrange 1 w) as Hb.
    change (600 * 2 ^ (1 - 1))%Z with 600%Z in Hb. lia.
Qed.

(** ** Buckets hold distinct ids *)

Section DistinctBuckets.
Import Js Types Ai.

Lemma some_id_false_fresh (items : list Post) (value : Post) :
  some_id items (id value) = false -> id value ∉ map id items.
Proof.
  intros Hnone (item & Hid & Hin)%list_elem_of_fmap.
  apply not_true_iff_false in Hnone. apply Hnone, some_id_spec.
  exists item. split; [now apply list_elem_of_In | now rewrite Hid].
Qed.

Lemma push_distinct m key value :
  distinct_buckets m -> distinct_buckets (pushMapUniqueById m key value).
Proof.
  intros Hm k items Hlook. destruct (decide (k = key)) as [->|Hne].
  - unfold pushMapUniqueById in Hlook.
    destruct (m !! key) as [existing|] eqn:Hkey.
    + destruct (some_id existing (id value)) eqn:Hsome.
      * apply (Hm key). congruence.
      * rewrite lookup_insert_eq in Hlook. injection Hlook as <-.
        rewrite map_app. apply NoDup_app. split; [now apply (Hm key)|]. split.
        -- intros x Hx [<-|[]]%list_elem_of_In.
           now apply (some_id_false_fresh existing value).
        -- apply NoDup_singleton.
    + rewrite lookup_insert_eq in Hlook. injection Hlook as <-. apply NoDup_singleton.
  - rewrite push_other in Hlook by assumption. now apply (Hm k).
Qed.

Lemma when_truthy_distinct x (f : string -> gmap string (list Post) -> gmap string (list Post)) m :
  (forall v m', distinct_buckets m' -> distinct_buckets (f v m')) ->
  distinct_buckets m -> distinct_buckets (when_truthy x f m).
Proof.
  intros Hf Hm. unfold when_truthy.
  destruct x as [v|]; [destruct (truthy v)|]; auto.
Qed.

Lemma push_all_distinct (thread : Post) (models : list string) : forall m,
  distinct_buckets m ->
  distinct_buckets
    (fold_left (fun m model => pushMapUniqueById m ("model:" +:+ model) thread) models m).
Proof.
  induction models as [|model models IH]; intros m Hm; [exact Hm|].
  cbn [fold_left]. apply IH. now apply push_distinct.
Qed.

Lemma group_step_distinct g thread :
  distinct_buckets (homeworkGroups g) -> distinct_buckets (modelGroups g) ->
  distinct_buckets (homeworkGroups (group_step g thread))
  /\ distinct_buckets (modelGroups (group_step g thread)).
Proof.
  intros Hhw Hmodel. unfold group_step. cbn [homeworkGroups modelGroups]. split.
  - apply when_truthy_distinct; [|exact Hhw]. intros v m' Hm'. now apply push_distinct.
  - destruct (find_tag "base_model:" thread) as [tag|];
      [destruct (truthy tag)|]; try now apply push_all_distinct.
    apply when_truthy_distinct; [|exact Hmodel]. intros v m' Hm'. now apply push_distinct.
Qed.

Lemma collect_distinct threads :
  distinct_buckets (homeworkGroups (collect threads))
  /\ distinct_buckets (modelGroups (collect threads)).
Proof.
  induction threads as [|thread threads [IHhw IHmodel]] using rev_ind.
  - split; intros key items Hlook; cbn in Hlook; now rewrite lookup_empty in Hlook.
  - rewrite collect_snoc. now apply group_step_distinct.
Qed.

Lemma groupThreads_distinct threads :
  distinct_buckets (homeworkGroups (groupThreads threads))
  /\ distinct_buckets (modelGroups (groupThreads threads)).
Proof.
  destruct (collect_distinct threads) as [Hhw Hmodel].
  cbn [groupThreads homeworkGroups modelGroups]. split; [exact Hhw|].
  intros key items Hlook. rewrite drop_small_lookup in Hlook.
  destruct (modelGroups (collect threads) !! key) as [collected|] eqn:Hc; [|discriminate].
  destruct (length collected <? 2)%nat; [discriminate|].
  injection Hlook as <-. now apply (Hmodel key).
Qed.

End DistinctBuckets.

(** ** summarizeGroup *)

Section Patching.
Import Js Types Summarise.

(** The sample posts the loop patches in: those whose id is not in [seen]. *)
Local Abbreviation missing seen sample :=
  (filter (fun thread : Post => id thread ∉ (seen : gset string)) sample).
Local Abbreviation present seen sample :=
  (filter (fun thread : Post => id thread ∈ (seen : gset string)) sample).

Lemma patch_fold seen sample : forall patched,
  fold_left (patch_step seen) sample patched
  = patched ++ map patch (missing seen sample).
Proof.
  induction sample as [|thread sample IH]; intros patched.
  - cbn. now rewrite app_nil_r.
  - cbn [fold_left]. rewrite IH. unfold patch_step. rewrite filter_cons.
    destruct (decide (id thread ∈ seen)) as [Hin|Hnot].
    + now rewrite decide_False by auto.
    + rewrite decide_True by assumption. cbn [map]. now rewrite <- app_assoc.
Qed.

Lemma missing_present_length (seen : gset string) (sample : list Post) :
  (length (missing seen sample) + length (present seen sample) = length sample)%nat.
Proof.
  induction sample as [|thread sample IH]; [reflexivity|].
  rewrite !filter_cons. destruct (decide (id thread ∈ seen)) as [Hin|Hnot].
  - rewrite decide_False by auto. cbn. lia.
  - rewrite decide_True by assumption. cbn. lia.
Qed.

Lemma map_id_filter_NoDup (P : Post -> Prop) `{!forall t, Decision (P t)}
    (sample : list Post) :
  NoDup (map id sample) -> NoDup (map id (filter P sample)).
Proof.
  intros Hnd. apply (sublist_NoDup _ (map id sample)); [exact Hnd|].
  apply (fmap_sublist id), sublist_filter.
Qed.

(** With distinct ids in the sample, no more sample posts are found among the
    decoded entries than there are decoded entries. *)
Lemma present_le (posts : list Summary.GroupPostSummary) (sample : list Post) :
  NoDup (map id sample) ->
  (length (present (list_to_set (map Summary.id posts)) sample) <= length posts)%nat.
Proof.
  intros Hnd.
  rewrite <- (length_map id (filter _ sample)), <- (length_map Summary.id posts).
  apply submseteq_length, NoDup_submseteq.
  - now apply map_id_filter_NoDup.
  - intros x (thread & -> & Hin)%list_elem_of_fmap.
    apply list_elem_of_filter in Hin as [Hseen _].
    now apply elem_of_list_to_set in Hseen.
Qed.

(** Decoded entries with distinct ids, all of them ids of the sample, are no
    more than the sample posts found among them. *)
Lemma present_ge (posts : list Summary.GroupPostSummary) (sample : list Post) :
  NoDup (map Summary.id posts) ->
  (forall p, In p posts -> exists thread, In thread sample /\ id thread = Summary.id p) ->
  (length posts <= length (present (list_to_set (map Summary.id posts)) sample))%nat.
Proof.
  intros Hnd Hfrom.
  rewrite <- (length_map id (filter _ sample)), <- (length_map Summary.id posts).
  apply submseteq_length, NoDup_submseteq; [exact Hnd|].
  intros x (p & -> & Hin)%list_elem_of_fmap.
  destruct (Hfrom p) as (thread & Hthread & Hid); [now apply list_elem_of_In|].
  apply list_elem_of_fmap. exists thread. split; [now rewrite Hid|].
  apply list_elem_of_filter. split; [|now apply list_elem_of_In].
  rewrite Hid. apply elem_of_list_to_set, list_elem_of_fmap. eauto.
Qed.

(** Before the cut, every post of the sample is covered. *)
Lemma patched_covers (posts : list Summary.GroupPostSummary) (sample : list Post) thread :
  In thread sample ->
  exists entry,
    In entry (posts ++ map patch (missing (list_to_set (map Summary.id posts)) sample))
    /\ Summary.id entry = id thread.
Proof.
  intros Hin.
  destruct (decide (id thread ∈ (list_to_set (map Summary.id posts) : gset string)))
    as [Hseen|Hnot].
  - apply elem_of_list_to_set, list_elem_of_fmap in Hseen as (p & Hid & Hp).
    exists p. split; [|now rewrite Hid]. apply in_app_iff. left.
    now apply list_elem_of_In.
  - exists (patch thread). split; [|reflexivity]. apply in_app_iff. right.
    apply in_map, list_elem_of_In, list_elem_of_filter.
    split; [exact Hnot | now apply list_elem_of_In].
Qed.

Lemma group_sample_ids items :
  map id (group_sample items) = map id (firstn 28 items).
Proof. unfold group_sample. rewrite map_map. reflexivity. Qed.

Lemma json_slice_shape input text :
  json_slice input = Some text ->
  exists start stop,
    indexOf "{" input = Some start /\ lastIndexOf "}" input = Some stop
    /\ (start < stop)%nat /\ text = slice start (stop + 1) input.
Proof.
  unfold json_slice.
  destruct (indexOf "{" input) as [start|]; [|discriminate].
  destruct (lastIndexOf "}" input) as [stop|]; [|discriminate].
  destruct (Nat.leb_spec stop start); [discriminate|].
  intros [= <-]. exists start, stop. auto.
Qed.

End Patching.

(** C8 (as the code has it). The posts of the summary are the first
    sample-size entries of the complete entries decoded from the answer
    followed by one patch per sample post whose id is not among them, a patch
    carrying the first 120 characters of the body (of "No body." when the body
    is empty). The list never exceeds the sample size and has exactly that size
    for a bucket with distinct ids, as every bucket of [groupThreads] is. It
    covers every post of the sample when the decoded entries carry distinct
    ids that all belong to the sample. The text decoded is the one from the
    first opening brace to the last closing brace of the answer. *)
Theorem C8_group_summary_posts (JSON_parse : string -> option Json.value)
    (label key : string) (items : list Types.Post) (answer : string) :
  Summary.posts (Summarise.summary_of JSON_parse label key items answer)
  = firstn (length (Summarise.group_sample items))
      (Summarise.decoded_posts JSON_parse answer
       ++ map Summarise.patch
            (filter (fun thread : Types.Post =>
                       Types.id thread
                       ∉ (list_to_set (map Summary.id (Summarise.decoded_posts JSON_parse answer))
                          : gset string))
                    (Summarise.group_sample items)))
  /\ (length (Summary.posts (Summarise.summary_of JSON_parse label key items answer))
      <= length (Summarise.group_sample items))%nat
  /\ (NoDup (map Types.id items) ->
      length (Summary.posts (Summarise.summary_of JSON_parse label key items answer))
      = length (Summarise.group_sample items))
  /\ (forall threads bucket,
        Ai.homeworkGroups (Ai.groupThreads threads) !! bucket = Some items
        \/ Ai.modelGroups (Ai.groupThreads threads) !! bucket = Some items ->
        length (Summary.posts (Summarise.summary_of JSON_parse label key items answer))
        = length (Summarise.group_sample items))
  /\ (NoDup (map Summary.id (Summarise.decoded_posts JSON_parse answer)) ->
      (forall p, In p (Summarise.decoded_posts JSON_parse answer) ->
         exists thread, In thread (Summarise.group_sample items)
                        /\ Types.id thread = Summary.id p) ->
      forall thread, In thread (Summarise.group_sample items) ->
        exists entry,
          In entry (Summary.posts (Summarise.summary_of JSON_parse label key items answer))
          /\ Summary.id entry = Types.id thread)
  /\ (forall thread : Types.Post,
        Summary.takeaway (Summarise.patch thread)
        = Js.slice0 120 (Js.or_else (Js.nullish (Types.body thread) EmptyString) "No body."))
  /\ (forall text, Summarise.json_slice answer = Some text ->
        exists start stop,
          Js.indexOf "{" answer = Some start /\ Js.lastIndexOf "}" answer = Some stop
          /\ (start < stop)%nat /\ text = Js.slice start (stop + 1) answer)
  /\ Summarise.safeParseJsonObject JSON_parse answer
     = match Summarise.json_slice answer with
       | Some text => JSON_parse text
       | None => None
       end.
Proof.
  set (sample := Summarise.group_sample items).
  set (decoded := Summarise.decoded_posts JSON_parse answer).
  assert (Hposts : Summary.posts (Summarise.summary_of JSON_parse label key items answer)
            = firstn (length sample)
                (decoded ++ map Summarise.patch
                   (filter (fun thread : Types.Post =>
                              Types.id thread
                              ∉ (list_to_set (map Summary.id decoded) : gset string))
                           sample))).
  { unfold Summarise.summary_of. cbn [Summary.posts]. now rewrite patch_fold. }
  assert (Hexact : NoDup (map Types.id items) ->
            length (Summary.posts (Summarise.summary_of JSON_parse label key items answer))
            = length sample).
  { intros Hnd. rewrite Hposts, length_take, length_app, length_map.
    assert (Hsample : NoDup (map Types.id sample)).
    { unfold sample. rewrite group_sample_ids.
      apply (sublist_NoDup _ (map Types.id items)); [exact Hnd|].
      apply (fmap_sublist Types.id), sublist_take. }
    pose proof (present_le decoded sample Hsample).
    pose proof (missing_present_length (list_to_set (map Summary.id decoded)) sample).
    lia. }
  split; [exact Hposts|]. split; [rewrite Hposts, length_take; lia|].
  split; [exact Hexact|]. split.
  { intros threads bucket Hbucket. apply Hexact.
    destruct (groupThreads_distinct threads) as [Hhw Hmodel].
    destruct Hbucket as [Hlook|Hlook]; [now apply (Hhw bucket) | now apply (Hmodel bucket)]. }
  split.
  { intros Hnd Hfrom thread Hin. rewrite Hposts, take_ge.
    - now apply patched_covers.
    - rewrite length_app, length_map.
      pose proof (present_ge decoded sample Hnd Hfrom).
      pose proof (missing_present_length (list_to_set (map Summary.id decoded)) sample).
      lia. }
  split; [reflexivity|]. split; [apply json_slice_shape | reflexivity].
Qed.

Lemma C8_group_summary_posts_witness :
  exists entry,
    In entry (Summary.posts
                (Summarise.summary_of Samples.parse_known "Model llama" "model:llama"
                   [Samples.on_llama_a; Samples.on_llama_b] Samples.partial_answer))
    /\ Summary.id entry = "t-4".
Proof.
  refine (proj1 (proj2 (proj2 (proj2 (proj2
    (C8_group_summary_posts Samples.parse_known "Model llama" "model:llama"
       [Samples.on_llama_a; Samples.on_llama_b] Samples.partial_answer))))) _ _
    (Types.mkPost "t-4" "second" (Some EmptyString) (Some EmptyString) None
       (Some ["base_model:llama"]) (Some EmptyString)) _).
  - vm_compute. apply NoDup_singleton.
  - intros p Hp. vm_compute in Hp. destruct Hp as [<-|[]].
    eexists. split; [left; reflexivity | reflexivity].
  - right. left. reflexivity.
Defined.

(** C8 as stated fails twice. When the answer reports a post that is not in
    the sample, the cut at the sample size removes the patch of a sample post,
    which the summary then does not cover: so it is for the bucket [hw:3] of a
    single post. And the text handed to the decoder runs to the last closing
    brace of the answer, not to the end of the first balanced span. *)
Lemma C8_cover_and_span_counterexample :
  ~ (forall (JSON_parse : string -> option Json.value) (threads : list Types.Post)
            (label key : string) (items : list Types.Post) (answer : string)
            (thread : Types.Post),
        Ai.homeworkGroups (Ai.groupThreads threads) !! key = Some items ->
        In thread (Summarise.group_sample items) ->
        exists entry,
          In entry (Summary.posts (Summarise.summary_of JSON_parse label key items answer))
          /\ Summary.id entry = Types.id thread)
  /\ ~ (forall answer : string,
          Summarise.json_slice answer = Spec.first_balanced_span answer).
Proof.
  split.
  - intros H.
    destruct (H Samples.parse_known [Samples.on_qwen] "Homework 3" "hw:3" [Samples.on_qwen]
                Samples.foreign_answer _ eq_refl (or_introl eq_refl))
      as (entry & Hin & Hid).
    vm_compute in Hin. destruct Hin as [<-|[]]. vm_compute in Hid. discriminate Hid.
  - intros H. specialize (H "{} and {}"). vm_compute in H. discriminate H.
Qed.

(** ** The cache *)

Section Cache.
Import Js Remote Summarise.

Lemma getCache_setCache k v w : getCache k (setCache k v w) = Some v.
Proof. unfold getCache, setCache. cbn [cache]. apply lookup_insert_eq. Qed.

Lemma openaiChatCompletion_cache random_floor net env model_name w :
  cache (openaiChatCompletion random_floor net env model_name w).2 = cache w.
Proof.
  unfold openaiChatCompletion. destruct (maxAttempts env); [|reflexivity].
  apply attempts_bound.
Qed.

Lemma openaiChatCompletion_requests random_floor net env model_name w m :
  maxAttempts env = Int m ->
  (requests w <= requests (openaiChatCompletion random_floor net env model_name w).2
   <= requests w + Z.to_nat m)%nat.
Proof.
  intros Hm. unfold openaiChatCompletion. rewrite Hm. apply attempts_bound.
Qed.

End Cache.

(** C9 (as the code has it). A call looks its key up once, before anything
    is sent: on a hit it returns the stored value and leaves the process as it
    was, no request issued. On a miss it does what [openaiChatCompletion] does,
    retries included, and stores the result under the key when that succeeds;
    a failure stores nothing. So after a call that succeeded, a second call
    with the same key input returns the same value without a request. The same
    holds for the summary of a bucket. *)
Theorem C9_cache_short_circuits
    (hashKey : Summarise.KeyInput -> string) (random_floor : nat -> Z -> Z)
    (net : nat -> Js.outcome Remote.Response)
    (extractClusters : string -> list Perspective.Cluster)
    (JSON_parse : string -> option Json.value)
    (env_max_retries : option Remote.num) (env_model : option string)
    (threads : list Types.Post) (w : Remote.World) :
  (forall v,
      Summarise.getCache
        (hashKey (Summarise.OverviewKey (Js.nullish env_model "gpt-4o-mini")
                    (Summarise.overview_sample threads))) w = Some v ->
      Summarise.callOpenAI hashKey random_floor net extractClusters
        env_max_retries env_model threads w = (Js.Returned v, w))
  /\ (forall v w1,
      Summarise.callOpenAI hashKey random_floor net extractClusters
        env_max_retries env_model threads w = (Js.Returned v, w1) ->
      Summarise.callOpenAI hashKey random_floor net extractClusters
        env_max_retries env_model threads w1 = (Js.Returned v, w1))
  /\ (forall message w1,
      Summarise.callOpenAI hashKey random_floor net extractClusters
        env_max_retries env_model threads w = (Js.Thrown message, w1) ->
      Remote.cache w1 = Remote.cache w)
  /\ (Summarise.getCache
        (hashKey (Summarise.OverviewKey (Js.nullish env_model "gpt-4o-mini")
                    (Summarise.overview_sample threads))) w = None ->
      Remote.trace
        (Summarise.callOpenAI hashKey random_floor net extractClusters
           env_max_retries env_model threads w).2
      = Remote.trace
          (Remote.openaiChatCompletion random_floor net env_max_retries
             (Js.nullish env_model "gpt-4o-mini") w).2)
  /\ (forall model_name label key items v w1,
      Summarise.summarizeGroup JSON_parse hashKey random_floor net
        env_max_retries model_name label key items w = (Js.Returned v, w1) ->
      Summarise.summarizeGroup JSON_parse hashKey random_floor net
        env_max_retries model_name label key items w1 = (Js.Returned v, w1)).
Proof.
  split.
  { intros v Hhit. unfold Summarise.callOpenAI. now rewrite Hhit. }
  split.
  { intros v w1. unfold Summarise.callOpenAI.
    destruct (Summarise.getCache _ w) as [hit|] eqn:Hlook.
    - intros [= <- <-]. now rewrite Hlook.
    - destruct (Remote.openaiChatCompletion _ _ _ _ w) as [[completion|message] w'];
        [|discriminate].
      intros [= <- <-]. now rewrite getCache_setCache. }
  split.
  { intros message w1. unfold Summarise.callOpenAI.
    destruct (Summarise.getCache _ w) as [hit|]; [discriminate|].
    pose proof (openaiChatCompletion_cache random_floor net env_max_retries
                  (Js.nullish env_model "gpt-4o-mini") w) as Hcache.
    destruct (Remote.openaiChatCompletion _ _ _ _ w) as [[completion|message'] w'];
      [discriminate|].
    intros [= _ <-]. exact Hcache. }
  split.
  { intros Hmiss. unfold Summarise.callOpenAI. rewrite Hmiss.
    now destruct (Remote.openaiChatCompletion _ _ _ _ w) as [[completion|message] w']. }
  intros model_name label key items v w1. unfold Summarise.summarizeGroup.
  destruct (Summarise.getCache _ w) as [hit|] eqn:Hlook.
  - intros [= <- <-]. now rewrite Hlook.
  - destruct (Remote.openaiChatCompletion _ _ _ _ w) as [[completion|message] w'];
      [|discriminate].
    intros [= <- <-]. now rewrite getCache_setCache.
Qed.

Lemma C9_cache_short_circuits_witness :
  exists v w1,
    Summarise.callOpenAI Samples.toy_hash Samples.no_jitter Samples.busy_then_ok
      Samples.no_clusters None None [Samples.tagged_hw3] Samples.fresh = (Js.Returned v, w1)
    /\ Summarise.callOpenAI Samples.toy_hash Samples.no_jitter Samples.busy_then_ok
         Samples.no_clusters None None [Samples.tagged_hw3] w1 = (Js.Returned v, w1)
    /\ Remote.requests w1 = 2%nat.
Proof.
  eexists. eexists. split; [vm_compute; reflexivity|]. split.
  - refine (proj1 (proj2 (C9_cache_short_circuits Samples.toy_hash Samples.no_jitter
      Samples.busy_then_ok Samples.no_clusters Samples.parse_known None None
      [Samples.tagged_hw3] Samples.fresh)) _ _ _).
    vm_compute. reflexivity.
  - reflexivity.
Defined.

(** C9 as stated fails: a first call that fails stores nothing, so a second
    call with the same key input sends a request of its own, and the two calls
    together issue two. *)
Lemma C9_failed_call_counterexample :
  ~ (forall (hashKey : Summarise.KeyInput -> string) (random_floor : nat -> Z -> Z)
            (net : nat -> Js.outcome Remote.Response)
            (extractClusters : string -> list Perspective.Cluster)
            (env_max_retries : option Remote.num) (env_model : option string)
            (threads : list Types.Post) (w : Remote.World),
        (Remote.requests
           (Summarise.callOpenAI hashKey random_floor net extractClusters
              env_max_retries env_model threads
              (Summarise.callOpenAI hashKey random_floor net extractClusters
                 env_max_retries env_model threads w).2).2
         <= Remote.requests w + 1)%nat).
Proof.
  intros H.
  specialize (H Samples.toy_hash Samples.no_jitter Samples.bad_request_then_ok
                Samples.no_clusters None None [Samples.tagged_hw3] Samples.fresh).
  vm_compute in H. lia.
Qed.

(** * Further properties of the code *)

(** ** parseCsv: what it returns, and reading back what was written *)

Section ParseCsvMore.
Import Js Csv CsvText.

Lemma flush_content rows row :
  Forall (fun r => has_content r = true) rows ->
  Forall (fun r => has_content r = true) (flush rows row).
Proof.
  intros Hrows. unfold flush. fold (has_content row).
  destruct (has_content row) eqn:Hrow; [|exact Hrows].
  apply Forall_app. split; [exact Hrows|]. now apply Forall_singleton.
Qed.

(** The scanner only ever stores rows that have a non-empty field. *)
Lemma scan_content_upto n : forall input rows row field inQuotes,
  (String.length input <= n)%nat ->
  Forall (fun r => has_content r = true) rows ->
  Forall (fun r => has_content r = true) (scan input rows row field inQuotes).
Proof.
  induction n as [|n IH]; intros input rows row field inQuotes Hlen Hrows.
  - destruct input; [now apply flush_content | cbn in Hlen; lia].
  - destruct input as [|char rest]; [now apply flush_content|].
    cbn [String.length] in Hlen.
    assert (Hrest : forall rows row field inQuotes,
               Forall (fun r => has_content r = true) rows ->
               Forall (fun r => has_content r = true) (scan rest rows row field inQuotes))
      by (intros; apply IH; [lia | assumption]).
    assert (Hnext : forall next rest', rest = String next rest' ->
               forall rows row field inQuotes,
               Forall (fun r => has_content r = true) rows ->
               Forall (fun r => has_content r = true) (scan rest' rows row field inQuotes)).
    { intros next rest' -> rows' row' field' q' Hrows'.
      apply IH; [cbn [String.length] in Hlen; lia | assumption]. }
    cbn [scan]. destruct (Ascii.eqb char DQUOTE).
    + destruct rest as [|next rest']; [now apply Hrest|].
      destruct (inQuotes && Ascii.eqb next DQUOTE);
        [now apply (Hnext next rest') | now apply Hrest].
    + destruct (Ascii.eqb char COMMA && negb inQuotes); [now apply Hrest|].
      destruct ((Ascii.eqb char LF || Ascii.eqb char CR) && negb inQuotes);
        [|now apply Hrest].
      destruct rest as [|next rest']; [now apply Hrest, flush_content|].
      destruct (Ascii.eqb char CR && Ascii.eqb next LF);
        [apply (Hnext next rest' eq_refl) | apply Hrest]; now apply flush_content.
Qed.

(** The scanner only ever stores rows that have a non-empty field. *)
Lemma scan_content input rows row field inQuotes :
  Forall (fun r => has_content r = true) rows ->
  Forall (fun r => has_content r = true) (scan input rows row field inQuotes).
Proof. now apply (scan_content_upto (String.length input)). Qed.

Lemma scan_comma rest rows row field :
  scan (String COMMA rest) rows row field false
  = scan rest rows (row ++ [field]) EmptyString false.
Proof. destruct rest; reflexivity. Qed.

Lemma scan_line_feed rest rows row field :
  scan (String LF rest) rows row field false
  = scan rest (flush rows (row ++ [field])) [] EmptyString false.
Proof. destruct rest; reflexivity. Qed.

Lemma scan_bare_char c rest rows row field :
  special c = false ->
  scan (String c rest) rows row field false
  = scan rest rows row (push_char field c) false.
Proof.
  unfold special. intros Hc.
  apply orb_false_iff in Hc as [Hc Hcr]. apply orb_false_iff in Hc as [Hc Hlf].
  apply orb_false_iff in Hc as [Hq Hcomma].
  cbn [scan]. rewrite Hq, Hcomma, Hlf, Hcr. reflexivity.
Qed.

Lemma scan_plain s : forall rest rows row field,
  plain s = true ->
  scan (s +:+ rest) rows row field false = scan rest rows row (field +:+ s) false.
Proof.
  induction s as [|c s IH]; intros rest rows row field Hs.
  - now rewrite append_nil_l, append_nil_r.
  - cbn [plain] in Hs. apply andb_true_iff in Hs as [Hc Hs].
    apply negb_true_iff in Hc.
    rewrite append_cons, scan_bare_char, IH by assumption.
    now rewrite push_char_append.
Qed.

Lemma scan_cell (c : cell) rest rows row field :
  writable c = true -> no_quote_ahead rest = true ->
  scan (render_cell c +:+ rest) rows row field false
  = scan rest rows row (field +:+ c.2) false.
Proof.
  unfold writable, render_cell. intros Hc Hrest. destruct c as [[|] s]; cbn [fst snd] in *.
  - rewrite quoted_append, scan_quote_opens. now apply scan_inside.
  - now apply scan_plain.
Qed.

(** Reading a written row, up to what ends it: [on_end] is what the scanner
    does from there with the fields of the row in hand. *)
Lemma scan_row (on_end : list (list string) -> list string -> list (list string))
    rest cells : forall rows row,
  Forall (fun c => writable c = true) cells ->
  no_quote_ahead rest = true ->
  (forall rows row field, scan rest rows row field false = on_end rows (row ++ [field])) ->
  cells <> [] ->
  scan (render_row cells +:+ rest) rows row EmptyString false
  = on_end rows (row ++ map snd cells).
Proof.
  induction cells as [|c cells IH]; intros rows row Hcells Hrest Hend Hne; [congruence|].
  apply Forall_cons in Hcells as [Hc Hcells].
  destruct cells as [|c' cells].
  - cbn [render_row map]. rewrite scan_cell, Hend by assumption.
    now rewrite append_nil_l.
  - change (render_row (c :: c' :: cells))
      with (render_cell c +:+ String COMMA (render_row (c' :: cells))).
    rewrite append_assoc, scan_cell by (assumption || reflexivity).
    rewrite append_cons, scan_comma, append_nil_l, IH by (assumption || discriminate).
    cbn [map]. now rewrite <- app_assoc.
Qed.

Lemma flush_as_filter rows row :
  flush rows row = rows ++ filter (fun r => has_content r = true) [row].
Proof.
  unfold flush. fold (has_content row). rewrite filter_cons, filter_nil.
  destruct (has_content row) eqn:Hrow.
  - now rewrite decide_True.
  - rewrite decide_False by congruence. now rewrite app_nil_r.
Qed.

Lemma scan_row_or_blank (on_end : list (list string) -> list string -> list (list string))
    rest cells rows :
  Forall (fun c => writable c = true) cells ->
  no_quote_ahead rest = true ->
  (forall rows row field, scan rest rows row field false = on_end rows (row ++ [field])) ->
  (forall fields, has_content fields = false -> on_end rows fields = on_end rows []) ->
  scan (render_row cells +:+ rest) rows [] EmptyString false
  = on_end rows (map snd cells).
Proof.
  intros Hcells Hrest Hend Hblank. destruct cells as [|c cells].
  - cbn [render_row map]. rewrite append_nil_l, Hend. now apply Hblank.
  - now rewrite (scan_row on_end) by (assumption || discriminate).
Qed.

Lemma scan_table table : forall rows,
  Forall (Forall (fun c => writable c = true)) table ->
  scan (render table) rows [] EmptyString false
  = rows ++ filter (fun r => has_content r = true) (contents table).
Proof.
  induction table as [|cells table IH]; intros rows Htable.
  - cbn. now rewrite app_nil_r.
  - apply Forall_cons in Htable as [Hcells Htable].
    destruct table as [|cells' table].
    + cbn [render]. rewrite <- (append_nil_r (render_row cells)).
      rewrite (scan_row_or_blank (fun rows fields => flush rows fields));
        [apply flush_as_filter | assumption | reflexivity | reflexivity |].
      intros fields Hfields. unfold flush. fold (has_content fields).
      now rewrite Hfields.
    + change (render (cells :: cells' :: table))
        with (render_row cells +:+ String LF (render (cells' :: table))).
      rewrite (scan_row_or_blank
                 (fun rows fields =>
                    scan (render (cells' :: table)) (flush rows fields) [] EmptyString false));
        [| assumption | reflexivity | intros; apply scan_line_feed |].
      * rewrite IH by assumption. rewrite flush_as_filter, <- app_assoc. f_equal.
        unfold contents. cbn [map].
        rewrite (filter_cons _ (map snd cells) []), filter_nil.
        rewrite (filter_cons _ (map snd cells) (_ :: _)).
        destruct (decide (has_content (map snd cells) = true)); reflexivity.
      * intros fields Hfields. unfold flush. fold (has_content fields).
        now rewrite Hfields.
Qed.

End ParseCsvMore.

(** X1. Every row [parseCsv] returns has a non-empty field: blank lines, and
    lines of commas only, leave no row behind, and no row is empty. *)
Theorem X1_rows_have_content (input : string) (row : list string) :
  In row (Csv.parseCsv input) ->
  CsvText.has_content row = true /\ row <> [].
Proof.
  intros Hin.
  assert (Hall : Forall (fun r => CsvText.has_content r = true) (Csv.parseCsv input))
    by (apply scan_content; constructor).
  rewrite Forall_forall in Hall. specialize (Hall row (proj2 (list_elem_of_In _ _) Hin)).
  split; [exact Hall|]. intros ->. discriminate Hall.
Qed.

Lemma X1_rows_have_content_witness :
  In ["c"] (Csv.parseCsv ("a,b" +:+ String Js.LF (String Js.LF ("," +:+ String Js.LF "c"))))
  /\ CsvText.has_content ["c"] = true.
Proof.
  assert (Hin : In ["c"]
            (Csv.parseCsv ("a,b" +:+ String Js.LF (String Js.LF ("," +:+ String Js.LF "c")))))
    by (right; left; reflexivity).
  split; [exact Hin|].
  exact (proj1 (X1_rows_have_content _ _ Hin)).
Defined.

(** X2. Reading back what was written. A table of cells, each either wrapped
    in quotes with its double quotes doubled or written bare when it holds no
    quote, comma, line feed or carriage return, the cells of a row joined by
    commas and the rows by line feeds, parses to the fields of the table, the
    rows without any non-empty field left out. *)
Theorem X2_written_table_reads_back (table : list (list CsvText.cell)) :
  Forall (Forall (fun c => CsvText.writable c = true)) table ->
  Csv.parseCsv (CsvText.render table)
  = filter (fun r => CsvText.has_content r = true) (CsvText.contents table).
Proof. intros Htable. unfold Csv.parseCsv. now rewrite scan_table. Qed.

Lemma X2_written_table_reads_back_witness :
  Csv.parseCsv
    (CsvText.render
       [ [(false, "id"); (true, "note")];
         [(false, EmptyString); (false, EmptyString)];
         [(false, "7"); (true, "a,b" +:+ String Js.LF (String Js.DQUOTE "c"))] ])
  = [ ["id"; "note"]; ["7"; "a,b" +:+ String Js.LF (String Js.DQUOTE "c")] ].
Proof.
  rewrite X2_written_table_reads_back.
  - reflexivity.
  - repeat constructor.
Defined.

(** ** From rows to posts *)

Section RowsToPosts.
Import Js Types Csv.

Lemma buildRecord_is_Some header row :
  row <> [] -> exists record, buildRecord header row = Some record.
Proof.
  intros Hrow. unfold buildRecord. destruct row; [congruence|]. cbn. eauto.
Qed.

Lemma buildRecords_length header rows :
  Forall (fun row => row <> []) rows ->
  length (buildRecords header rows) = length rows.
Proof.
  unfold buildRecords. induction 1 as [|row rows Hrow _ IH]; [reflexivity|].
  destruct (buildRecord_is_Some header row Hrow) as [record Hrecord].
  cbn. rewrite Hrecord. cbn. f_equal. exact IH.
Qed.

Lemma toThreads_length randomUUID records : forall draws,
  length (toThreads randomUUID records draws) = length records.
Proof.
  induction records as [|record records IH]; intros draws; [reflexivity|].
  cbn [toThreads]. destruct (toThread randomUUID record draws) as [thread draws'].
  cbn. now rewrite IH.
Qed.

Lemma or_else_truthy a b : truthy b = true -> truthy (or_else a b) = true.
Proof. intros Hb. unfold or_else. now destruct (truthy a) eqn:Ha. Qed.

Lemma opt_or_else_truthy a b : truthy b = true -> truthy (opt_or_else a b) = true.
Proof. intros Hb. destruct a; [now apply or_else_truthy | exact Hb]. Qed.

Lemma tag_of_cases prefix value :
  tag_of prefix value = [] \/ (truthy value = true /\ tag_of prefix value = [prefix +:+ value]).
Proof. unfold tag_of. destruct (truthy value); auto. Qed.

(** The first character of a string, [None] for the empty string. *)
Lemma head_append c prefix value :
  String.get 0 (String c prefix +:+ value) = Some c.
Proof. reflexivity. Qed.

Lemma tags_distinct a b c d :
  NoDup (tag_of "hw:" a ++ tag_of "model:" b ++ tag_of "base_model:" c
         ++ tag_of "version:" d).
Proof.
  assert (Hne : forall (x y : ascii) p q u v,
             x <> y -> String x p +:+ u <> String y q +:+ v).
  { intros x y p q u v Hxy Heq. apply (f_equal (String.get 0)) in Heq.
    rewrite !head_append in Heq. congruence. }
  destruct (tag_of_cases "hw:" a) as [->|[_ ->]],
           (tag_of_cases "model:" b) as [->|[_ ->]],
           (tag_of_cases "base_model:" c) as [->|[_ ->]],
           (tag_of_cases "version:" d) as [->|[_ ->]];
    cbn [app];
    repeat (apply NoDup_cons; split;
            [rewrite ?elem_of_cons, elem_of_nil;
             intros Hin; repeat destruct Hin as [Hin|Hin]; try exact Hin;
             revert Hin; apply Hne; discriminate|]);
    apply NoDup_nil_2.
Qed.

Lemma tags_in a b c d tag :
  In tag (tag_of "hw:" a ++ tag_of "model:" b ++ tag_of "base_model:" c
          ++ tag_of "version:" d) ->
  exists prefix value,
    In (prefix, value) [("hw:", a); ("model:", b); ("base_model:", c); ("version:", d)]
    /\ truthy value = true /\ tag = prefix +:+ value.
Proof.
  rewrite !in_app_iff.
  assert (Hone : forall prefix value,
             In tag (tag_of prefix value) -> truthy value = true /\ tag = prefix +:+ value).
  { intros prefix value. unfold tag_of. destruct (truthy value); [|intros []].
    intros [<-|[]]. auto. }
  intros [H|[H|[H|H]]]; apply Hone in H as [Hv ->]; do 2 eexists;
    (split; [|split; [exact Hv | reflexivity]]); cbn; auto.
Qed.

Lemma tags_length a b c d :
  (length (tag_of "hw:" a ++ tag_of "model:" b ++ tag_of "base_model:" c
           ++ tag_of "version:" d) <= 4)%nat.
Proof.
  rewrite !length_app.
  assert (Hone : forall prefix value, (length (tag_of prefix value) <= 1)%nat)
    by (intros prefix value; unfold tag_of; destruct (truthy value); cbn; lia).
  pose proof (Hone "hw:" a). pose proof (Hone "model:" b).
  pose proof (Hone "base_model:" c). pose proof (Hone "version:" d). lia.
Qed.

(** A list of posts with distinct ids goes through the loop unchanged. *)
Lemma dedupe_loop_distinct threads : forall seen out,
  seen_tracks seen out -> NoDup (ids out ++ ids threads) ->
  dedupe_loop threads seen out = out ++ threads.
Proof.
  induction threads as [|t threads IH]; intros seen out Htr Hnd.
  - cbn. now rewrite app_nil_r.
  - cbn [dedupe_loop]. destruct (decide (id t ∈ seen)) as [Hin|Hnot].
    + exfalso. apply Htr in Hin. apply NoDup_app in Hnd as (_ & Hsep & _).
      apply (Hsep (id t)); [now apply list_elem_of_In|]. cbn. left.
    + rewrite IH.
      * now rewrite <- app_assoc.
      * now apply seen_tracks_push.
      * rewrite ids_app. cbn in Hnd |- *. now rewrite <- app_assoc.
Qed.

Lemma find_has_id_Some x (l : list CsvPost) p :
  find (has_id x) l = Some p -> id p = x /\ In p l.
Proof.
  intros Hfind. apply find_some in Hfind as [Hin Hid].
  split; [now apply String.eqb_eq in Hid | exact Hin].
Qed.

Lemma parsed_rows_not_empty csv :
  Forall (fun row : list string => row <> []) (parseCsv csv).
Proof.
  assert (Hall : Forall (fun r => CsvText.has_content r = true) (parseCsv csv))
    by (apply scan_content; constructor).
  eapply Forall_impl; [exact Hall|]. intros row Hrow ->. discriminate Hrow.
Qed.

Lemma fetchCsvPosts_rows csv randomUUID header data :
  parseCsv csv = header :: data ->
  fetchCsvPosts (Returned csv) randomUUID
  = Returned (mkFetchResult
                (dedupeById (toThreads randomUUID (buildRecords header data) 0)) None).
Proof.
  intros Hrows. unfold fetchCsvPosts. cbn [bind try_catch]. now rewrite Hrows.
Qed.

Lemma fetchCsvPosts_returns readFile randomUUID :
  exists r, fetchCsvPosts readFile randomUUID = Returned r.
Proof.
  unfold fetchCsvPosts. destruct readFile as [csv|message]; cbn [bind try_catch].
  - destruct (parseCsv csv); eauto.
  - eauto.
Qed.

End RowsToPosts.

(** X3. No data row is lost on the way to the posts: every row [parseCsv]
    returns gives a record, so before deduplication there is one post per data
    row, and [fetchCsvPosts] returns at most as many posts as the file has data
    rows, without a warning. *)
Theorem X3_one_post_per_data_row (csv : string) (randomUUID : nat -> string)
    (header : list string) (data : list (list string)) (r : Csv.FetchResult) :
  Csv.parseCsv csv = header :: data ->
  Csv.fetchCsvPosts (Js.Returned csv) randomUUID = Js.Returned r ->
  length (Csv.buildRecords header data) = length data
  /\ length (Csv.builtThreads randomUUID (Csv.parseCsv csv)) = length data
  /\ (length (Csv.threads r) <= length data)%nat
  /\ Csv.warning r = None.
Proof.
  intros Hrows Hr.
  assert (Hrecords : length (Csv.buildRecords header data) = length data).
  { apply buildRecords_length.
    pose proof (parsed_rows_not_empty csv) as Hall. rewrite Hrows in Hall.
    now apply Forall_cons in Hall as [_ Hall]. }
  rewrite (fetchCsvPosts_rows _ _ _ _ Hrows) in Hr. injection Hr as <-.
  cbn [Csv.threads Csv.warning]. rewrite Hrows. cbn [Csv.builtThreads].
  rewrite toThreads_length.
  split; [exact Hrecords|]. split; [exact Hrecords|]. split; [|reflexivity].
  pose proof (dedupeById_sublist
                (Csv.toThreads randomUUID (Csv.buildRecords header data) 0)) as Hsub.
  apply sublist_length in Hsub. rewrite toThreads_length in Hsub. lia.
Qed.

Lemma X3_one_post_per_data_row_witness :
  length (Csv.buildRecords ["thread_id"; "hw_number"] [["7 "; "3"]; ["7"; "4"]]) = 2%nat
  /\ (length (Csv.dedupeById
                (Csv.toThreads (fun _ => "00000000-0000-4000-8000-000000000000")
                   (Csv.buildRecords ["thread_id"; "hw_number"] [["7 "; "3"]; ["7"; "4"]]) 0))
      <= 2)%nat.
Proof.
  pose proof (X3_one_post_per_data_row
    ("thread_id,hw_number" +:+ String Js.LF ("7 ,3" +:+ String Js.LF "7,4"))
    (fun _ => "00000000-0000-4000-8000-000000000000")
    ["thread_id"; "hw_number"] [["7 "; "3"]; ["7"; "4"]] _ eq_refl eq_refl)
    as (Hrecords & _ & Hposts & _).
  split; [exact Hrecords | exact Hposts].
Defined.

(** X4. A post built from a record always has a title and an author to show.
    The title is the trimmed clean title when that is not blank, else the
    trimmed raw title when that is not blank, else [Untitled] (a column that is
    missing counts as blank); the author is the trimmed name when that is not
    blank, else [Unknown author]. The body is the text column as it is, the
    type is fixed, and a link is only kept when it is not blank. *)
Theorem X4_thread_has_title_and_author (randomUUID : nat -> string)
    (record : gmap string string) (draws : nat) :
  Js.truthy (Types.title (Types.post (Csv.toThread randomUUID record draws).1)) = true
  /\ (exists author, Types.author (Types.post (Csv.toThread randomUUID record draws).1) = Some author
                     /\ Js.truthy author = true)
  /\ Types.body (Types.post (Csv.toThread randomUUID record draws).1)
     = Some (Js.nullish (record !! "text") EmptyString)
  /\ Types.type (Types.post (Csv.toThread randomUUID record draws).1) = Some "special_participation"
  /\ (forall link, Types.url (Types.post (Csv.toThread randomUUID record draws).1) = Some link ->
        Js.truthy link = true)
  /\ (record !! "title_clean" = None -> record !! "title_raw" = None ->
      Types.title (Types.post (Csv.toThread randomUUID record draws).1) = "Untitled")
  /\ (Js.truthy (Js.trim (Js.nullish (record !! "title_clean") EmptyString)) = true ->
      Types.title (Types.post (Csv.toThread randomUUID record draws).1)
      = Js.trim (Js.nullish (record !! "title_clean") EmptyString))
  /\ (Js.truthy (Js.trim (Js.nullish (record !! "title_clean") EmptyString)) = false ->
      Js.truthy (Js.trim (Js.nullish (record !! "title_raw") EmptyString)) = true ->
      Types.title (Types.post (Csv.toThread randomUUID record draws).1)
      = Js.trim (Js.nullish (record !! "title_raw") EmptyString))
  /\ (Js.truthy (Js.trim (Js.nullish (record !! "title_clean") EmptyString)) = false ->
      Js.truthy (Js.trim (Js.nullish (record !! "title_raw") EmptyString)) = false ->
      Types.title (Types.post (Csv.toThread randomUUID record draws).1) = "Untitled")
  /\ (Js.truthy (Js.trim (Js.nullish (record !! "name") EmptyString)) = true ->
      Types.author (Types.post (Csv.toThread randomUUID record draws).1)
      = Some (Js.trim (Js.nullish (record !! "name") EmptyString)))
  /\ (Js.truthy (Js.trim (Js.nullish (record !! "name") EmptyString)) = false ->
      Types.author (Types.post (Csv.toThread randomUUID record draws).1)
      = Some "Unknown author").
Proof.
  assert (Htitle : Types.title (Types.post (Csv.toThread randomUUID record draws).1)
                   = Js.or_else (Js.trim (Js.nullish (record !! "title_clean") EmptyString))
                       (Js.or_else (Js.trim (Js.nullish (record !! "title_raw") EmptyString))
                          "Untitled")).
  { unfold Csv.toThread. destruct (Js.truthy (Csv.thread_id_of record));
      cbn [fst Types.post Types.title];
      destruct (record !! "title_clean"), (record !! "title_raw"); reflexivity. }
  assert (Hauthor : Types.author (Types.post (Csv.toThread randomUUID record draws).1)
                    = Some (Js.or_else (Js.trim (Js.nullish (record !! "name") EmptyString))
                              "Unknown author")).
  { unfold Csv.toThread. now destruct (Js.truthy (Csv.thread_id_of record)). }
  split; [rewrite Htitle; now apply or_else_truthy, or_else_truthy|].
  split; [eexists; split; [exact Hauthor | now apply or_else_truthy]|].
  split; [unfold Csv.toThread; now destruct (Js.truthy (Csv.thread_id_of record))|].
  split; [unfold Csv.toThread; now destruct (Js.truthy (Csv.thread_id_of record))|].
  split.
  { intros link. unfold Csv.toThread.
    destruct (Js.truthy (Csv.thread_id_of record)); cbn [fst Types.post Types.url];
      (destruct (Js.trim <$> record !! "url") as [u|];
       [destruct (Js.truthy u) eqn:Hu|]; intros [= <-]; exact Hu). }
  rewrite Htitle, Hauthor. unfold Js.or_else.
  split; [intros -> ->; reflexivity|].
  split; [now intros ->|]. split; [now intros -> ->|]. split; [now intros -> ->|].
  split; now intros ->.
Qed.

Lemma X4_thread_has_title_and_author_witness :
  Types.title (Types.post (Csv.toThread (fun _ => "00000000-0000-4000-8000-000000000000")
                             {[ "text" := "body only" ]} 0).1) = "Untitled"
  /\ Types.title (Types.post (Csv.toThread (fun _ => "00000000-0000-4000-8000-000000000000")
                                {[ "title_clean" := "  "; "title_raw" := " Raw title " ]} 0).1)
     = "Raw title"
  /\ Types.author (Types.post (Csv.toThread (fun _ => "00000000-0000-4000-8000-000000000000")
                                 {[ "title_clean" := "  "; "title_raw" := " Raw title " ]} 0).1)
     = Some "Unknown author".
Proof.
  split; [|split].
  - apply (proj1 (proj2 (proj2 (proj2 (proj2 (proj2
      (X4_thread_has_title_and_author (fun _ => "00000000-0000-4000-8000-000000000000")
         {[ "text" := "body only" ]} 0))))))); reflexivity.
  - eapply eq_trans.
    + apply (proj1 (proj2 (proj2 (proj2 (proj2 (proj2 (proj2 (proj2
        (X4_thread_has_title_and_author (fun _ => "00000000-0000-4000-8000-000000000000")
           {[ "title_clean" := "  "; "title_raw" := " Raw title " ]} 0)))))))));
        reflexivity.
    + vm_compute. reflexivity.
  - apply (proj2 (proj2 (proj2 (proj2 (proj2 (proj2 (proj2 (proj2 (proj2 (proj2
      (X4_thread_has_title_and_author (fun _ => "00000000-0000-4000-8000-000000000000")
         {[ "title_clean" := "  "; "title_raw" := " Raw title " ]} 0))))))))))); reflexivity.
Defined.

(** X5. The tags of a post built from a record: at most four, no two alike,
    each one of the prefixes [hw:], [model:], [base_model:], [version:]
    followed by the non-blank trimmed value of its column. *)
Theorem X5_thread_tags (randomUUID : nat -> string) (record : gmap string string)
    (draws : nat) :
  exists tags,
    Types.tags (Types.post (Csv.toThread randomUUID record draws).1) = Some tags
    /\ NoDup tags
    /\ (length tags <= 4)%nat
    /\ forall tag, In tag tags ->
         exists prefix column,
           In (prefix, column)
              [("hw:", "hw_number"); ("model:", "model"); ("base_model:", "base_model");
               ("version:", "version")]
           /\ Js.truthy (Js.trim (Js.nullish (record !! column) EmptyString)) = true
           /\ tag = prefix +:+ Js.trim (Js.nullish (record !! column) EmptyString).
Proof.
  eexists. split.
  { unfold Csv.toThread. destruct (Js.truthy (Csv.thread_id_of record)); reflexivity. }
  split; [apply tags_distinct|]. split; [apply tags_length|].
  intros tag Hin. apply tags_in in Hin as (prefix & value & Hpv & Hv & ->).
  cbn in Hpv. destruct Hpv as [[= <- <-]|[[= <- <-]|[[= <- <-]|[[= <- <-]|[]]]]];
    do 2 eexists; (split; [|split; [exact Hv | reflexivity]]); cbn; auto.
Qed.

Lemma X5_thread_tags_witness :
  exists prefix column,
    In (prefix, column)
       [("hw:", "hw_number"); ("model:", "model"); ("base_model:", "base_model");
        ("version:", "version")]
    /\ Js.truthy (Js.trim (Js.nullish
                             (({[ "hw_number" := " 3 " ]} : gmap string string) !! column)
                             EmptyString)) = true
    /\ "hw:3" = prefix +:+ Js.trim (Js.nullish
                                      (({[ "hw_number" := " 3 " ]} : gmap string string)
                                         !! column)
                                      EmptyString).
Proof.
  destruct (X5_thread_tags (fun _ => "00000000-0000-4000-8000-000000000000")
              {[ "hw_number" := " 3 " ]} 0) as (tags & Htags & _ & _ & Hall).
  apply Hall. vm_compute in Htags. injection Htags as <-. now left.
Defined.

(** X6. [dedupeById] leaves a list of posts with distinct ids as it is, so
    running it again on its own result (as the page does on the posts it
    fetched) changes nothing; it never shortens the set of ids, only the
    list. *)
Theorem X6_dedupe_fixpoint (threads : list Types.CsvPost) :
  (NoDup (Csv.ids threads) -> Csv.dedupeById threads = threads)
  /\ Csv.dedupeById (Csv.dedupeById threads) = Csv.dedupeById threads
  /\ (forall x, In x (Csv.ids (Csv.dedupeById threads)) <-> In x (Csv.ids threads))
  /\ (length (Csv.dedupeById threads) <= length threads)%nat.
Proof.
  assert (Hfix : forall l, NoDup (Csv.ids l) -> Csv.dedupeById l = l).
  { intros l Hnd. unfold Csv.dedupeById.
    now rewrite dedupe_loop_distinct by (apply seen_tracks_nil || exact Hnd). }
  split; [apply Hfix|]. split; [apply Hfix, dedupeById_NoDup|]. split.
  - intros x. split; intros Hin.
    + destruct (find_has_id_In _ _ Hin) as [p Hp]. rewrite dedupeById_find in Hp.
      apply find_has_id_Some in Hp as [<- Hp]. unfold Csv.ids.
      now apply (in_map (fun thread : Types.CsvPost => Types.id (Types.post thread))).
    + destruct (find_has_id_In _ _ Hin) as [p Hp]. rewrite <- dedupeById_find in Hp.
      apply find_has_id_Some in Hp as [<- Hp]. unfold Csv.ids.
      now apply (in_map (fun thread : Types.CsvPost => Types.id (Types.post thread))).
  - apply sublist_length, dedupeById_sublist.
Qed.

Lemma X6_dedupe_fixpoint_witness :
  Csv.dedupeById
    (Csv.toThreads (fun _ => "00000000-0000-4000-8000-000000000000")
       (Csv.buildRecords ["thread_id"] [["7"]; ["8"]]) 0)
  = Csv.toThreads (fun _ => "00000000-0000-4000-8000-000000000000")
      (Csv.buildRecords ["thread_id"] [["7"]; ["8"]]) 0.
Proof.
  apply (proj1 (X6_dedupe_fixpoint _)).
  vm_compute. apply NoDup_cons. split; [|apply NoDup_singleton].
  intros Hin%list_elem_of_In. destruct Hin as [Heq|[]]. discriminate Heq.
Defined.

(** X7. [fetchCsvPostById] never throws. The post it returns is the first
    fetched post with the id asked for; when there is none it returns no post
    and always a warning, the one of the fetch or else [Not found.]; when it
    returns a post, the warning is the one of the fetch. *)
Theorem X7_post_by_id (readFile : Js.outcome string) (randomUUID : nat -> string)
    (x : string) :
  exists (r : Csv.FetchResult) (found : option Types.CsvPost) (warning : option string),
    Csv.fetchCsvPosts readFile randomUUID = Js.Returned r
    /\ Csv.fetchCsvPostById readFile randomUUID x = Js.Returned (found, warning)
    /\ found = find (Csv.has_id x) (Csv.threads r)
    /\ (forall p, found = Some p ->
          Types.id (Types.post p) = x /\ In p (Csv.threads r) /\ warning = Csv.warning r)
    /\ (found = None ->
          ~ In x (Csv.ids (Csv.threads r))
          /\ warning = Some (Js.nullish (Csv.warning r) "Not found.")).
Proof.
  destruct (fetchCsvPosts_returns readFile randomUUID) as [r Hr].
  exists r. unfold Csv.fetchCsvPostById. rewrite Hr. cbn [Js.bind].
  do 2 eexists. split; [reflexivity|]. split; [reflexivity|]. split; [reflexivity|].
  split.
  - intros p Hp. rewrite Hp. apply find_has_id_Some in Hp as [Hid Hin]. auto.
  - intros Hnone. rewrite Hnone. split; [|reflexivity].
    intros Hin. destruct (find_has_id_In _ _ Hin) as [p Hp]. congruence.
Qed.

Lemma X7_post_by_id_witness :
  exists p,
    Csv.fetchCsvPostById
      (Js.Returned ("thread_id,title_clean" +:+ String Js.LF "7,Hello"))
      (fun _ => "00000000-0000-4000-8000-000000000000") "7"
    = Js.Returned (Some p, None)
    /\ Types.id (Types.post p) = "7".
Proof.
  destruct (X7_post_by_id
              (Js.Returned ("thread_id,title_clean" +:+ String Js.LF "7,Hello"))
              (fun _ => "00000000-0000-4000-8000-000000000000") "7")
    as (r & found & warning & Hr & Hby & Hfound & Hsome & _).
  injection Hr as <-. cbn [Csv.threads] in Hfound. vm_compute in Hfound.
  eexists. split; [vm_compute; reflexivity|].
  exact (proj1 (Hsome _ Hfound)).
Defined.

(** ** Buckets: what every one of them satisfies *)

Section Buckets.
Import Js Types Ai Shapes.

Lemma push_every (P : string -> list Post -> Prop) m key value :
  every_bucket P m ->
  P key [value] ->
  (forall existing, m !! key = Some existing -> P key existing ->
     P key (existing ++ [value])) ->
  every_bucket P (pushMapUniqueById m key value).
Proof.
  intros Hm Hnew Hmore k items Hlook. destruct (decide (k = key)) as [->|Hne].
  - unfold pushMapUniqueById in Hlook. destruct (m !! key) as [existing|] eqn:Hkey.
    + destruct (some_id existing (id value)).
      * apply Hm. congruence.
      * rewrite lookup_insert_eq in Hlook. injection Hlook as <-.
        apply Hmore; [reflexivity | now apply Hm].
    + rewrite lookup_insert_eq in Hlook. now injection Hlook as <-.
  - rewrite push_other in Hlook by assumption. now apply Hm.
Qed.

Lemma push_sound prefix threads m rest value :
  In value threads ->
  every_bucket (sound_bucket prefix threads) m ->
  every_bucket (sound_bucket prefix threads) (pushMapUniqueById m (prefix +:+ rest) value).
Proof.
  intros Hin Hm. apply push_every; [exact Hm | |].
  - split; [discriminate|]. split; [|eauto]. intros item [<-|[]]. exact Hin.
  - intros existing _ (Hne & Hfrom & Hkey). split.
    + intros Heq. apply app_eq_nil in Heq as [_ Heq]. discriminate Heq.
    + split; [|exact Hkey]. intros item [Hitem|[<-|[]]]%in_app_iff; auto.
Qed.

Lemma when_truthy_every (P : gmap string (list Post) -> Prop) x
    (f : string -> gmap string (list Post) -> gmap string (list Post)) m :
  (forall v m', P m' -> P (f v m')) -> P m -> P (when_truthy x f m).
Proof.
  intros Hf Hm. unfold when_truthy. destruct x as [v|]; [destruct (truthy v)|]; auto.
Qed.

Lemma fold_push_every (P : gmap string (list Post) -> Prop) (thread : Post)
    (models : list string) : forall m,
  (forall model m', P m' -> P (pushMapUniqueById m' ("model:" +:+ model) thread)) ->
  P m ->
  P (fold_left (fun m model => pushMapUniqueById m ("model:" +:+ model) thread) models m).
Proof.
  induction models as [|model models IH]; intros m Hpush Hm; [exact Hm|].
  cbn [fold_left]. apply IH; [exact Hpush | now apply Hpush].
Qed.

Lemma group_step_sound threads g thread :
  In thread threads ->
  every_bucket (sound_bucket "hw:" threads) (homeworkGroups g) ->
  every_bucket (sound_bucket "model:" threads) (modelGroups g) ->
  every_bucket (sound_bucket "hw:" threads) (homeworkGroups (group_step g thread))
  /\ every_bucket (sound_bucket "model:" threads) (modelGroups (group_step g thread)).
Proof.
  intros Hin Hhw Hmodel. unfold group_step. cbn [homeworkGroups modelGroups]. split.
  - apply (when_truthy_every (every_bucket (sound_bucket "hw:" threads)));
      [|exact Hhw]. intros v m' Hm'. now apply push_sound.
  - destruct (find_tag "base_model:" thread) as [tag|]; [destruct (truthy tag)|].
    + apply (when_truthy_every (every_bucket (sound_bucket "model:" threads)));
        [|exact Hmodel]. intros v m' Hm'. now apply push_sound.
    + apply (fold_push_every (every_bucket (sound_bucket "model:" threads)));
        [|exact Hmodel]. intros model m' Hm'. now apply push_sound.
    + apply (fold_push_every (every_bucket (sound_bucket "model:" threads)));
        [|exact Hmodel]. intros model m' Hm'. now apply push_sound.
Qed.

Lemma fold_group_step_sound threads scanned : forall g,
  (forall thread, In thread scanned -> In thread threads) ->
  every_bucket (sound_bucket "hw:" threads) (homeworkGroups g) ->
  every_bucket (sound_bucket "model:" threads) (modelGroups g) ->
  every_bucket (sound_bucket "hw:" threads)
    (homeworkGroups (fold_left group_step scanned g))
  /\ every_bucket (sound_bucket "model:" threads)
       (modelGroups (fold_left group_step scanned g)).
Proof.
  induction scanned as [|thread scanned IH]; intros g Hsub Hhw Hmodel; [auto|].
  cbn [fold_left].
  destruct (group_step_sound threads g thread) as [Hhw' Hmodel']; auto using in_eq.
  apply IH; auto using in_cons.
Qed.

Lemma collect_sound threads :
  every_bucket (sound_bucket "hw:" threads) (homeworkGroups (collect threads))
  /\ every_bucket (sound_bucket "model:" threads) (modelGroups (collect threads)).
Proof.
  apply fold_group_step_sound; [auto | |];
    intros key items Hlook; cbn in Hlook; now rewrite lookup_empty in Hlook.
Qed.

Lemma drop_small_kept (m : gmap string (list Post)) key items :
  drop_small m !! key = Some items -> m !! key = Some items /\ (2 <= length items)%nat.
Proof.
  rewrite drop_small_lookup. destruct (m !! key) as [collected|]; [|discriminate].
  destruct (length collected <? 2)%nat eqn:Hsmall; [discriminate|].
  intros [= <-]. apply Nat.ltb_ge in Hsmall. auto.
Qed.

Lemma distinct_bounded (threads items : list Post) :
  NoDup (map id items) -> (forall item, In item items -> In item threads) ->
  (length items <= length threads)%nat.
Proof.
  intros Hnd Hfrom. apply submseteq_length, NoDup_submseteq.
  - now apply (NoDup_fmap_1 id).
  - intros item Hitem%list_elem_of_In. now apply list_elem_of_In, Hfrom.
Qed.

(** Pushing a post whose id the bucket already holds changes nothing. *)
Lemma push_known (m : gmap string (list Post)) key value items :
  m !! key = Some items -> some_id items (id value) = true ->
  pushMapUniqueById m key value = m.
Proof. intros Hlook Hid. unfold pushMapUniqueById. now rewrite Hlook, Hid. Qed.

Lemma push_holds m key value : holds (pushMapUniqueById m key value) key (id value).
Proof.
  destruct (push_same m key value) as (items & Hlook & (item & Hitem & Hid) & _).
  exists items, item. auto.
Qed.

Lemma push_keeps m key value key' x :
  holds m key' x -> holds (pushMapUniqueById m key value) key' x.
Proof.
  intros (items & item & Hlook & Hitem & Hid).
  destruct (push_grows m key value key' items Hlook) as (items' & Hlook' & Hkeep & _).
  exists items', item. auto.
Qed.

Lemma fold_push_keeps (thread : Post) models key x : forall m,
  holds m key x ->
  holds (fold_left (fun m model => pushMapUniqueById m ("model:" +:+ model) thread) models m)
        key x.
Proof.
  induction models as [|model models IH]; intros m Hm; [exact Hm|].
  cbn [fold_left]. apply IH. now apply push_keeps.
Qed.

Lemma fold_push_holds (thread : Post) models model : forall m,
  In model models ->
  holds (fold_left (fun m model => pushMapUniqueById m ("model:" +:+ model) thread) models m)
        ("model:" +:+ model) (id thread).
Proof.
  induction models as [|first models IH]; intros m Hin; [destruct Hin|].
  cbn [fold_left]. destruct Hin as [->|Hin].
  - apply fold_push_keeps, push_holds.
  - now apply IH.
Qed.

(** The keys under which the first loop files a post among the models. *)
Lemma model_step_holds g thread key :
  (exists tag, find_tag "base_model:" thread = Some tag
               /\ exists base, tag_value tag = Some base /\ truthy base = true
                               /\ key = "model:" +:+ base)
  \/ (find_tag "base_model:" thread = None
      /\ exists model, In model (detectModels (text_of thread))
                       /\ key = "model:" +:+ model) ->
  holds (modelGroups (group_step g thread)) key (id thread).
Proof.
  unfold group_step. cbn [modelGroups].
  intros [(tag & Htag & base & Hvalue & Hbase & ->)|(Hnone & model & Hin & ->)].
  - rewrite Htag, (find_tag_truthy "base_model:" thread tag eq_refl Htag).
    unfold when_truthy. rewrite Hvalue, Hbase. apply push_holds.
  - rewrite Hnone. now apply fold_push_holds.
Qed.

Lemma model_step_keeps g thread key x :
  holds (modelGroups g) key x -> holds (modelGroups (group_step g thread)) key x.
Proof.
  intros Hg. unfold group_step. cbn [modelGroups].
  destruct (find_tag "base_model:" thread) as [tag|]; [destruct (truthy tag)|];
    try now apply fold_push_keeps.
  unfold when_truthy. destruct (tag_value tag) as [v|]; [destruct (truthy v)|];
    try exact Hg. now apply push_keeps.
Qed.

Lemma model_assigned threads : forall thread key,
  In thread threads ->
  (exists tag, find_tag "base_model:" thread = Some tag
               /\ exists base, tag_value tag = Some base /\ truthy base = true
                               /\ key = "model:" +:+ base)
  \/ (find_tag "base_model:" thread = None
      /\ exists model, In model (detectModels (text_of thread))
                       /\ key = "model:" +:+ model) ->
  holds (modelGroups (collect threads)) key (id thread).
Proof.
  induction threads as [|last threads IH] using rev_ind; intros thread key Hin Hkey.
  - destruct Hin.
  - rewrite collect_snoc. apply in_app_iff in Hin as [Hin|[->|[]]].
    + apply model_step_keeps. now apply IH.
    + now apply model_step_holds.
Qed.

End Buckets.

(** X8. Every bucket [groupThreads] returns, homework or model, is not
    empty, holds posts of the input only, no two of them with the same id (so
    no more posts than the input has), and is filed under a key that starts
    with [hw:] for a homework bucket and with [model:] for a model bucket. *)
Theorem X8_buckets_are_sound (threads : list Types.Post) (key : string)
    (items : list Types.Post) :
  (Ai.homeworkGroups (Ai.groupThreads threads) !! key = Some items ->
   items <> [] /\ (forall item, In item items -> In item threads)
   /\ NoDup (map Types.id items) /\ (length items <= length threads)%nat
   /\ exists n, key = "hw:" +:+ n)
  /\ (Ai.modelGroups (Ai.groupThreads threads) !! key = Some items ->
      items <> [] /\ (forall item, In item items -> In item threads)
      /\ NoDup (map Types.id items) /\ (length items <= length threads)%nat
      /\ exists name, key = "model:" +:+ name).
Proof.
  destruct (collect_sound threads) as [Hhw Hmodel].
  destruct (collect_distinct threads) as [Dhw Dmodel].
  cbn [Ai.groupThreads Ai.homeworkGroups Ai.modelGroups]. split.
  - intros Hlook. destruct (Hhw key items Hlook) as (Hne & Hfrom & Hkey).
    pose proof (Dhw key items Hlook) as Hnd.
    repeat split; auto. now apply distinct_bounded.
  - intros Hlook. apply drop_small_kept in Hlook as [Hlook _].
    destruct (Hmodel key items Hlook) as (Hne & Hfrom & Hkey).
    pose proof (Dmodel key items Hlook) as Hnd.
    repeat split; auto. now apply distinct_bounded.
Qed.

Lemma X8_buckets_are_sound_witness :
  NoDup (map Types.id [Samples.on_llama_a; Samples.on_llama_b])
  /\ exists name, "model:llama" = "model:" +:+ name.
Proof.
  destruct (proj2 (X8_buckets_are_sound
                     [Samples.on_llama_a; Samples.on_qwen; Samples.on_llama_b]
                     "model:llama" [Samples.on_llama_a; Samples.on_llama_b]) eq_refl)
    as (_ & _ & Hnd & _ & Hkey).
  split; [exact Hnd | exact Hkey].
Defined.

(** X9. [pushMapUniqueById] files a post once: after a push the bucket holds
    a post of that id, pushing the same post again changes nothing, and so does
    pushing any post whose id the bucket already holds; the other buckets are
    never touched. *)
Theorem X9_push_once (m : gmap string (list Types.Post)) (key : string)
    (value : Types.Post) :
  Shapes.holds (Ai.pushMapUniqueById m key value) key (Types.id value)
  /\ Ai.pushMapUniqueById (Ai.pushMapUniqueById m key value) key value
     = Ai.pushMapUniqueById m key value
  /\ (forall other, Shapes.holds m key (Types.id other) ->
        Ai.pushMapUniqueById m key other = m)
  /\ (forall key', key' <> key -> Ai.pushMapUniqueById m key value !! key' = m !! key').
Proof.
  assert (Hknown : forall m' other, Shapes.holds m' key (Types.id other) ->
            Ai.pushMapUniqueById m' key other = m').
  { intros m' other (items & item & Hlook & Hitem & Hid).
    apply (push_known m' key other items Hlook). apply some_id_spec. eauto. }
  split; [apply push_holds|]. split; [apply Hknown, push_holds|].
  split; [apply Hknown|]. intros key' Hne. now apply push_other.
Qed.

Lemma X9_push_once_witness :
  Ai.pushMapUniqueById {[ "hw:3" := [Samples.on_qwen] ]} "hw:3" Samples.on_qwen
  = {[ "hw:3" := [Samples.on_qwen] ]}.
Proof.
  apply (proj1 (proj2 (proj2
    (X9_push_once {[ "hw:3" := [Samples.on_qwen] ]} "hw:3" Samples.on_qwen)))).
  exists [Samples.on_qwen], Samples.on_qwen.
  split; [reflexivity|]. split; [now left | reflexivity].
Defined.

(** X10. Filing by model. A post with a tag that starts with [base_model:]
    (letter case ignored) is filed under the trimmed value of the first such
    tag when it is not blank; a post without such a tag is filed under every
    model [detectModels] finds in its text. The bucket survives in the result
    of [groupThreads] exactly when it holds two posts or more. *)
Theorem X10_model_buckets (threads : list Types.Post) (thread : Types.Post) (key : string) :
  In thread threads ->
  (exists tag, Ai.find_tag "base_model:" thread = Some tag
               /\ exists base, Ai.tag_value tag = Some base /\ Js.truthy base = true
                               /\ key = "model:" +:+ base)
  \/ (Ai.find_tag "base_model:" thread = None
      /\ exists model, In model (Ai.detectModels (Ai.text_of thread))
                       /\ key = "model:" +:+ model) ->
  exists items item,
    Ai.modelGroups (Ai.collect threads) !! key = Some items
    /\ In item items /\ Types.id item = Types.id thread
    /\ Ai.modelGroups (Ai.groupThreads threads) !! key
       = if (length items <? 2)%nat then None else Some items.
Proof.
  intros Hin Hkey.
  destruct (model_assigned threads thread key Hin Hkey) as (items & item & Hlook & Hitem & Hid).
  exists items, item. repeat split; try assumption.
  cbn [Ai.groupThreads Ai.modelGroups]. now rewrite drop_small_lookup, Hlook.
Qed.

Lemma X10_model_buckets_witness :
  exists items item,
    Ai.modelGroups (Ai.collect [Samples.on_llama_a; Samples.on_qwen; Samples.on_llama_b])
      !! "model:qwen" = Some items
    /\ In item items /\ Types.id item = "t-5"
    /\ Ai.modelGroups (Ai.groupThreads [Samples.on_llama_a; Samples.on_qwen; Samples.on_llama_b])
         !! "model:qwen" = if (length items <? 2)%nat then None else Some items.
Proof.
  apply (X10_model_buckets [Samples.on_llama_a; Samples.on_qwen; Samples.on_llama_b]
           Samples.on_qwen "model:qwen").
  - right. now left.
  - left. exists "base_model:qwen". split; [reflexivity|].
    exists "qwen". repeat split.
Defined.

(** ** The patterns: what a match can capture *)

Section Captures.
Import Js Regex Ai Shapes.
Context {A : Type}.

Lemma star_loop_passes (p : ascii -> bool) (k : @cont A) s : forall prev cap res,
  star_loop p prev s cap k = Some res -> exists prev' s', k prev' s' cap = Some res.
Proof.
  induction s as [|c s IH]; intros prev cap res Hrun; cbn [star_loop] in Hrun; [eauto|].
  destruct (p c); [|eauto].
  destruct (star_loop p (Some c) s cap k) as [r|] eqn:Hmore; [|eauto].
  injection Hrun as <-. eapply IH. exact Hmore.
Qed.

(** A pattern without a capture group hands the capture on as it got it. *)
Lemma run_passes r : forall (k : @cont A) prev s cap res,
  no_cap r = true -> run r prev s cap k = Some res ->
  exists prev' s', k prev' s' cap = Some res.
Proof.
  induction r as [|c|p| |r1 IH1 r2 IH2|r1 IH1|p|p|p|r1 IH1];
    intros k prev s cap res Hcap Hrun; cbn [run no_cap] in *.
  - eauto.
  - destruct s as [|x s']; [discriminate|].
    destruct (Ascii.eqb (fold_case x) (fold_case c)); [eauto | discriminate].
  - destruct s as [|x s']; [discriminate|]. destruct (p x); [eauto | discriminate].
  - destruct (xorb _ _); [eauto | discriminate].
  - apply andb_true_iff in Hcap as [Hc1 Hc2].
    destruct (IH1 _ _ _ _ _ Hc1 Hrun) as (prev' & s' & Hrun').
    now apply (IH2 k prev' s' cap res).
  - destruct (run r1 prev s cap k) as [r|] eqn:Hinner; [|eauto].
    injection Hrun as <-. now apply (IH1 k prev s cap r).
  - now apply (star_loop_passes p k s prev cap).
  - destruct s as [|x s']; [discriminate|]. destruct (p x); [|discriminate].
    now apply (star_loop_passes p k s' (Some x) cap).
  - destruct s as [|x s']; [discriminate|]. destruct (p x); [|discriminate].
    destruct s' as [|y s'']; [eauto|]. destruct (p y); [|eauto].
    destruct (k (Some y) s'' cap) as [r|] eqn:Htwo; [|eauto].
    injection Hrun as <-. eauto.
  - discriminate.
Qed.

Lemma cat_passes pieces tail : forall (k : @cont A) prev s cap res,
  forallb no_cap pieces = true ->
  run (cat (pieces ++ tail)) prev s cap k = Some res ->
  exists prev' s', run (cat tail) prev' s' cap k = Some res.
Proof.
  induction pieces as [|piece pieces IH]; intros k prev s cap res Hcap Hrun; [eauto|].
  cbn [forallb] in Hcap. apply andb_true_iff in Hcap as [Hpiece Hpieces].
  cbn [app cat fold_right run] in Hrun.
  destruct (run_passes piece _ _ _ _ _ Hpiece Hrun) as (prev' & s' & Hrun').
  now apply (IH k prev' s' cap res).
Qed.

Lemma consumed_one x rest : consumed (String x rest) rest = String x EmptyString.
Proof.
  unfold consumed. cbn [String.length].
  replace (S (String.length rest) - String.length rest)%nat with 1%nat by lia.
  cbn. now destruct rest.
Qed.

Lemma consumed_two x y rest :
  consumed (String x (String y rest)) rest = String x (String y EmptyString).
Proof.
  unfold consumed. cbn [String.length].
  replace (S (S (String.length rest)) - String.length rest)%nat with 2%nat by lia.
  cbn. now destruct rest.
Qed.

(** What the group [([0-9]{1,2})] captures. *)
Lemma number_captured (k : @cont A) prev s cap res :
  run (Cap (Rep12 is_digit)) prev s cap k = Some res ->
  exists prev' s' number,
    k prev' s' (Some number) = Some res /\ is_number12 number = true.
Proof.
  cbn [run]. destruct s as [|x s']; [discriminate|].
  destruct (is_digit x) eqn:Hx; [|discriminate].
  destruct s' as [|y s''].
  - rewrite consumed_one. intros Hk. do 3 eexists. split; [exact Hk|]. exact Hx.
  - destruct (is_digit y) eqn:Hy.
    + rewrite consumed_two, consumed_one.
      destruct (k (Some y) s'' (Some (String x (String y EmptyString)))) as [r|] eqn:Htwo.
      * intros [= <-]. do 3 eexists. split; [exact Htwo|]. cbn. now rewrite Hx, Hy.
      * intros Hk. do 3 eexists. split; [exact Hk|]. exact Hx.
    + rewrite consumed_one. intros Hk. do 3 eexists. split; [exact Hk|]. exact Hx.
Qed.

End Captures.

Section Detect.
Import Js Regex Ai Shapes.

Lemma numbered_pattern_search pieces s : forall prev cap,
  forallb no_cap pieces = true ->
  search (cat (pieces ++ number_tail)) prev s = Some cap ->
  exists number, cap = Some number /\ is_number12 number = true.
Proof.
  induction s as [|c s IH]; intros prev cap Hpieces Hsearch; cbn [search] in Hsearch.
  all: destruct (run (cat (pieces ++ number_tail)) prev _ None _) as [res|] eqn:Hrun.
  all: try discriminate.
  all: try (injection Hsearch as <-;
    apply (cat_passes pieces number_tail) in Hrun as (prev' & s' & Hrun); [|exact Hpieces];
    unfold number_tail in Hrun; cbn [cat fold_right] in Hrun;
    change (run (Seq (Cap (Rep12 is_digit)) (Seq WordB Eps)) prev' s' None
              (fun _ _ cap => Some cap))
      with (run (Cap (Rep12 is_digit)) prev' s' None
              (fun p t c => run (Seq WordB Eps) p t c (fun _ _ cap => Some cap))) in Hrun;
    apply number_captured in Hrun as (prev2 & s2 & number & Hrun & Hnumber);
    apply (run_passes (Seq WordB Eps)) in Hrun as (? & ? & Hrun); [|reflexivity];
    injection Hrun as <-; eauto).
  now apply (IH (Some c) cap).
Qed.

Lemma first_capture_numbered patterns text number :
  Forall (fun r => exists pieces, forallb no_cap pieces = true
                                  /\ r = cat (pieces ++ number_tail)) patterns ->
  first_capture patterns text = Some number -> is_number12 number = true.
Proof.
  induction 1 as [|r patterns (pieces & Hpieces & ->) _ IH]; [discriminate|].
  cbn [first_capture]. unfold match1.
  destruct (search (cat (pieces ++ number_tail)) None text) as [cap|] eqn:Hsearch;
    [|exact IH].
  apply numbered_pattern_search in Hsearch as (n & -> & Hn); [|exact Hpieces].
  destruct (truthy n); [|exact IH]. now intros [= <-].
Qed.

Lemma homework_patterns_numbered :
  Forall (fun r => exists pieces, forallb no_cap pieces = true
                                  /\ r = cat (pieces ++ number_tail)) homework_patterns.
Proof.
  unfold homework_patterns.
  repeat (apply Forall_cons; split; [eexists; split; [|reflexivity]; reflexivity|]).
  apply Forall_nil_2.
Qed.

Lemma set_add_NoDup hits key : NoDup hits -> NoDup (set_add hits key).
Proof.
  intros Hnd. unfold set_add. destruct (existsb (String.eqb key) hits) eqn:Hex; [exact Hnd|].
  apply NoDup_app. split; [exact Hnd|]. split; [|apply NoDup_singleton].
  intros x Hx [<-|[]]%list_elem_of_In.
  apply not_true_iff_false in Hex. apply Hex, existsb_exists.
  exists key. split; [now apply list_elem_of_In | apply String.eqb_refl].
Qed.

Lemma set_add_In hits key x : In x (set_add hits key) -> In x hits \/ x = key.
Proof.
  unfold set_add. destruct (existsb (String.eqb key) hits); [auto|].
  intros [Hin|[<-|[]]]%in_app_iff; auto.
Qed.

Lemma dictionary_hits text (entries : list (string * list re)) : forall hits,
  NoDup hits ->
  NoDup (fold_left (fun hits (entry : string * list re) =>
                      if existsb (fun pattern => test pattern text) entry.2
                      then set_add hits entry.1 else hits) entries hits)
  /\ forall x,
       In x (fold_left (fun hits (entry : string * list re) =>
                          if existsb (fun pattern => test pattern text) entry.2
                          then set_add hits entry.1 else hits) entries hits) ->
       In x hits
       \/ exists entry, In entry entries /\ x = entry.1
                        /\ existsb (fun pattern => test pattern text) entry.2 = true.
Proof.
  induction entries as [|entry entries IH]; intros hits Hnd; [cbn; auto|].
  cbn [fold_left].
  destruct (existsb (fun pattern => test pattern text) entry.2) eqn:Hhit.
  - destruct (IH (set_add hits entry.1) (set_add_NoDup _ _ Hnd)) as [Hnd' Hin'].
    split; [exact Hnd'|]. intros x Hx.
    destruct (Hin' x Hx) as [Hadd|(e & He & -> & Hhe)].
    + apply set_add_In in Hadd as [?| ->]; [auto|].
      right. exists entry. auto using in_eq.
    + right. exists e. auto using in_cons.
  - destruct (IH hits Hnd) as [Hnd' Hin']. split; [exact Hnd'|]. intros x Hx.
    destruct (Hin' x Hx) as [?|(e & He & -> & Hhe)]; [auto|].
    right. exists e. auto using in_cons.
Qed.

End Detect.

(** X11. Whatever the text, [detectHomework] returns nothing or a number of
    one or two decimal digits. *)
Theorem X11_homework_number_shape (input number : string) :
  Ai.detectHomework input = Some number -> Shapes.is_number12 number = true.
Proof.
  unfold Ai.detectHomework. apply first_capture_numbered, homework_patterns_numbered.
Qed.

Lemma X11_homework_number_shape_witness :
  Shapes.is_number12 "12" = true.
Proof.
  apply (X11_homework_number_shape "Homework 12 is due, see project 3"). reflexivity.
Defined.

(** X12. [detectModels] returns each model once, and only names of its
    dictionary whose pattern matches the text in lower case, or the token the
    generic [model: xyz] pattern captures there. *)
Theorem X12_detected_models (input : string) :
  NoDup (Ai.detectModels input)
  /\ forall name, In name (Ai.detectModels input) ->
       (exists entry, In entry Ai.dictionary /\ name = entry.1
                      /\ existsb (fun pattern => Regex.test pattern (Js.toLowerCase input))
                                 entry.2 = true)
       \/ Regex.match1 Ai.model_line (Js.toLowerCase input) = Some name.
Proof.
  unfold Ai.detectModels.
  destruct (dictionary_hits (Js.toLowerCase input) Ai.dictionary [] (NoDup_nil_2))
    as [Hnd Hin].
  destruct (Regex.match1 Ai.model_line (Js.toLowerCase input)) as [token|] eqn:Hline.
  - destruct (Js.truthy token).
    + split; [now apply set_add_NoDup|]. intros name Hname.
      apply set_add_In in Hname as [Hname| ->]; [|now right].
      destruct (Hin name Hname) as [[]|?]; auto.
    + split; [exact Hnd|]. intros name Hname. destruct (Hin name Hname) as [[]|?]; auto.
  - split; [exact Hnd|]. intros name Hname. destruct (Hin name Hname) as [[]|?]; auto.
Qed.

Lemma X12_detected_models_witness :
  Regex.match1 Ai.model_line (Js.toLowerCase "Model: Phi-3") = Some "phi-3".
Proof.
  destruct (proj2 (X12_detected_models "Model: Phi-3") "phi-3") as [Hdict|Hline].
  - left. reflexivity.
  - destruct Hdict as (entry & Hentry & Hname & _). exfalso.
    cbn in Hentry. repeat (destruct Hentry as [<-|Hentry]; [discriminate Hname|]).
    exact Hentry.
  - exact Hline.
Defined.

(** ** From a CSV record to its buckets *)

Section RecordToBuckets.
Import Js Types Csv Ai Shapes.

Lemma trimEnd_idempotent s : trimEnd (trimEnd s) = trimEnd s.
Proof.
  induction s as [|c s IH]; [reflexivity|]. cbn [trimEnd].
  destruct (is_space c && negb (truthy (trimEnd s))) eqn:Hcut; [reflexivity|].
  cbn [trimEnd]. now rewrite IH, Hcut.
Qed.

Lemma trimStart_head s :
  match trimStart s with String c _ => is_space c = false | EmptyString => True end.
Proof.
  induction s as [|c s IH]; [exact I|]. cbn [trimStart].
  destruct (is_space c) eqn:Hc; [exact IH | exact Hc].
Qed.

Lemma trim_idempotent s : trim (trim s) = trim s.
Proof.
  unfold trim. pose proof (trimStart_head s) as Hhead.
  destruct (trimStart s) as [|c t]; [reflexivity|].
  cbn [trimEnd]. rewrite Hhead. cbn [andb trimStart]. rewrite Hhead.
  cbn [trimEnd]. rewrite Hhead. cbn [andb]. now rewrite trimEnd_idempotent.
Qed.

Lemma toLowerCase_append a b : toLowerCase (a +:+ b) = toLowerCase a +:+ toLowerCase b.
Proof.
  induction a as [|c a IH]; [reflexivity|].
  rewrite append_cons. cbn [toLowerCase]. now rewrite IH, append_cons.
Qed.

Lemma startsWith_append p x : startsWith p (p +:+ x) = true.
Proof.
  unfold startsWith. induction p as [|c p IH]; [now destruct x|].
  rewrite append_cons. cbn [String.prefix]. now destruct (ascii_dec c c).
Qed.

Lemma split_without sep s : indexOf sep s = None -> split sep s = [s].
Proof.
  induction s as [|c s IH]; [reflexivity|]. cbn [indexOf split].
  destruct (Ascii.eqb c sep); [discriminate|].
  destruct (indexOf sep s); [discriminate|]. intros _. now rewrite IH.
Qed.

Lemma tag_value_simple (prefix value : string) :
  indexOf ":" prefix = None -> indexOf ":" value = None ->
  tag_value (prefix +:+ String ":" value) = Some (trim value).
Proof.
  intros Hprefix Hvalue. unfold tag_value.
  assert (Hsplit : split ":" (prefix +:+ String ":" value) = [prefix; value]).
  { clear -Hprefix Hvalue. induction prefix as [|c prefix IH].
    - rewrite append_nil_l. cbn [split]. change (Ascii.eqb ":" ":") with true.
      now rewrite split_without.
    - cbn [indexOf] in Hprefix. rewrite append_cons. cbn [split].
      destruct (Ascii.eqb c ":"); [discriminate|].
      destruct (indexOf ":" prefix); [discriminate|]. now rewrite IH. }
  now rewrite Hsplit.
Qed.

Lemma toThread_tags randomUUID record draws :
  tags_of (post (toThread randomUUID record draws).1)
  = tag_of "hw:" (trim (nullish (record !! "hw_number") EmptyString))
    ++ tag_of "model:" (trim (nullish (record !! "model") EmptyString))
    ++ tag_of "base_model:" (trim (nullish (record !! "base_model") EmptyString))
    ++ tag_of "version:" (trim (nullish (record !! "version") EmptyString)).
Proof. unfold toThread. now destruct (truthy (thread_id_of record)). Qed.

Lemma tag_of_skipped (wanted prefix value : string) rest :
  (forall x, startsWith wanted (prefix +:+ x) = false) ->
  toLowerCase prefix = prefix ->
  find (fun tag => startsWith wanted (toLowerCase tag)) (tag_of prefix value ++ rest)
  = find (fun tag => startsWith wanted (toLowerCase tag)) rest.
Proof.
  intros Hskip Hlower. unfold tag_of. destruct (truthy value); [|reflexivity].
  cbn [app find]. now rewrite toLowerCase_append, Hlower, Hskip.
Qed.

Lemma tag_of_found (prefix value : string) rest :
  truthy value = true -> toLowerCase prefix = prefix ->
  find (fun tag => startsWith prefix (toLowerCase tag)) (tag_of prefix value ++ rest)
  = Some (prefix +:+ value).
Proof.
  intros Hvalue Hlower. unfold tag_of. rewrite Hvalue. cbn [app find].
  now rewrite toLowerCase_append, Hlower, startsWith_append.
Qed.

Lemma hw_tag_found randomUUID record draws :
  truthy (trim (nullish (record !! "hw_number") EmptyString)) = true ->
  find_tag "hw:" (post (toThread randomUUID record draws).1)
  = Some ("hw:" +:+ trim (nullish (record !! "hw_number") EmptyString)).
Proof.
  intros Hhw. unfold find_tag. rewrite toThread_tags. now apply tag_of_found.
Qed.

Lemma base_model_tag_found randomUUID record draws :
  truthy (trim (nullish (record !! "base_model") EmptyString)) = true ->
  find_tag "base_model:" (post (toThread randomUUID record draws).1)
  = Some ("base_model:" +:+ trim (nullish (record !! "base_model") EmptyString)).
Proof.
  intros Hbase. unfold find_tag. rewrite toThread_tags.
  rewrite (tag_of_skipped "base_model:" "hw:"); [|reflexivity|reflexivity].
  rewrite (tag_of_skipped "base_model:" "model:"); [|reflexivity|reflexivity].
  now apply tag_of_found.
Qed.

End RecordToBuckets.

(** X13. From a CSV record to its buckets. When the [hw_number] column of a
    record is not blank and holds no colon, the post built from the record is
    filed under [hw:] followed by the trimmed column, whatever its title and
    text say: the step of the grouping loop for this post is one push into that
    homework bucket. When its [base_model] column is not blank and holds no
    colon, the post is filed, among the models, under [model:] followed by the
    trimmed column, and the text is not searched for model names: the step for
    this post is one push into that model bucket, so no other model bucket
    changes, whatever models the title and the text name. *)
Theorem X13_record_to_buckets (randomUUID : nat -> string) (record : gmap string string)
    (draws : nat) (threads : list Types.Post) :
  In (Types.post (Csv.toThread randomUUID record draws).1) threads ->
  (Js.truthy (Js.trim (Js.nullish (record !! "hw_number") EmptyString)) = true ->
   Js.indexOf ":" (Js.trim (Js.nullish (record !! "hw_number") EmptyString)) = None ->
   Ai.hw_of (Types.post (Csv.toThread randomUUID record draws).1)
   = Some (Js.trim (Js.nullish (record !! "hw_number") EmptyString))
   /\ Shapes.holds (Ai.homeworkGroups (Ai.groupThreads threads))
        ("hw:" +:+ Js.trim (Js.nullish (record !! "hw_number") EmptyString))
        (Types.id (Types.post (Csv.toThread randomUUID record draws).1))
   /\ (forall g,
         Ai.homeworkGroups
           (Ai.group_step g (Types.post (Csv.toThread randomUUID record draws).1))
         = Ai.pushMapUniqueById (Ai.homeworkGroups g)
             ("hw:" +:+ Js.trim (Js.nullish (record !! "hw_number") EmptyString))
             (Types.post (Csv.toThread randomUUID record draws).1)))
  /\ (Js.truthy (Js.trim (Js.nullish (record !! "base_model") EmptyString)) = true ->
      Js.indexOf ":" (Js.trim (Js.nullish (record !! "base_model") EmptyString)) = None ->
      Shapes.holds (Ai.modelGroups (Ai.collect threads))
        ("model:" +:+ Js.trim (Js.nullish (record !! "base_model") EmptyString))
        (Types.id (Types.post (Csv.toThread randomUUID record draws).1))
      /\ (forall g,
            Ai.modelGroups
              (Ai.group_step g (Types.post (Csv.toThread randomUUID record draws).1))
            = Ai.pushMapUniqueById (Ai.modelGroups g)
                ("model:" +:+ Js.trim (Js.nullish (record !! "base_model") EmptyString))
                (Types.post (Csv.toThread randomUUID record draws).1))
      /\ (forall g key,
            key <> "model:" +:+ Js.trim (Js.nullish (record !! "base_model") EmptyString) ->
            Ai.modelGroups
              (Ai.group_step g (Types.post (Csv.toThread randomUUID record draws).1)) !! key
            = Ai.modelGroups g !! key)).
Proof.
  intros Hin. split.
  - intros Hhw Hcolon.
    assert (Hkey : Ai.hw_of (Types.post (Csv.toThread randomUUID record draws).1)
                   = Some (Js.trim (Js.nullish (record !! "hw_number") EmptyString))).
    { rewrite (hw_of_tagged _ _ (hw_tag_found randomUUID record draws Hhw)).
      change ("hw:" +:+ ?v) with ("hw" +:+ String ":" v).
      rewrite tag_value_simple by (reflexivity || assumption).
      now rewrite trim_idempotent. }
    split; [exact Hkey|]. split.
    + destruct (homework_assigned threads _ _ Hin Hkey Hhw) as (items & item & H).
      exists items, item. exact H.
    + intros g. rewrite homework_step, Hkey. unfold Ai.when_truthy. now rewrite Hhw.
  - intros Hbase Hcolon.
    assert (Hvalue : Ai.tag_value
                       ("base_model:" +:+ Js.trim (Js.nullish (record !! "base_model") EmptyString))
                     = Some (Js.trim (Js.nullish (record !! "base_model") EmptyString))).
    { change ("base_model:" +:+ ?v) with ("base_model" +:+ String ":" v).
      rewrite tag_value_simple by (reflexivity || assumption).
      now rewrite trim_idempotent. }
    assert (Hstep : forall g,
              Ai.modelGroups
                (Ai.group_step g (Types.post (Csv.toThread randomUUID record draws).1))
              = Ai.pushMapUniqueById (Ai.modelGroups g)
                  ("model:" +:+ Js.trim (Js.nullish (record !! "base_model") EmptyString))
                  (Types.post (Csv.toThread randomUUID record draws).1)).
    { intros g. unfold Ai.group_step. cbn [Ai.modelGroups].
      rewrite (base_model_tag_found randomUUID record draws Hbase).
      change (Js.truthy ("base_model:" +:+ ?v)) with true. cbn match.
      unfold Ai.when_truthy. now rewrite Hvalue, Hbase. }
    split; [|split; [exact Hstep|]].
    + apply model_assigned; [exact Hin|]. left.
      eexists. split; [now apply base_model_tag_found|].
      eexists. split; [exact Hvalue | split; [exact Hbase | reflexivity]].
    + intros g key Hother. rewrite Hstep. now apply push_other.
Qed.

Lemma X13_record_to_buckets_witness :
  Ai.hw_of (Types.post (Csv.toThread (fun _ => "00000000-0000-4000-8000-000000000000")
              {[ "thread_id" := "7"; "hw_number" := " 3 "; "title_clean" := "About hw 5" ]}
              0).1)
  = Some "3"
  /\ In "gemini" (Ai.detectModels
                 (Ai.text_of
                    (Types.post
                       (Csv.toThread (fun _ => "00000000-0000-4000-8000-000000000000")
                          {[ "thread_id" := "8"; "base_model" := " llama ";
                             "title_clean" := "Trying gemini on the proof" ]} 0).1)))
  /\ Ai.modelGroups
       (Ai.group_step (Ai.mkGroups ∅ ∅)
          (Types.post
             (Csv.toThread (fun _ => "00000000-0000-4000-8000-000000000000")
                {[ "thread_id" := "8"; "base_model" := " llama ";
                   "title_clean" := "Trying gemini on the proof" ]} 0).1)) !! "model:gemini"
     = None.
Proof.
  split; [|split].
  - refine (proj1 (proj1 (X13_record_to_buckets
      (fun _ => "00000000-0000-4000-8000-000000000000")
      {[ "thread_id" := "7"; "hw_number" := " 3 "; "title_clean" := "About hw 5" ]} 0
      [Types.post (Csv.toThread (fun _ => "00000000-0000-4000-8000-000000000000")
         {[ "thread_id" := "7"; "hw_number" := " 3 "; "title_clean" := "About hw 5" ]} 0).1]
      (or_introl eq_refl)) _ _)); reflexivity.
  - vm_compute. tauto.
  - refine (proj2 (proj2 (proj2 (X13_record_to_buckets
      (fun _ => "00000000-0000-4000-8000-000000000000")
      {[ "thread_id" := "8"; "base_model" := " llama ";
         "title_clean" := "Trying gemini on the proof" ]} 0
      [Types.post (Csv.toThread (fun _ => "00000000-0000-4000-8000-000000000000")
         {[ "thread_id" := "8"; "base_model" := " llama ";
            "title_clean" := "Trying gemini on the proof" ]} 0).1]
      (or_introl eq_refl)) _ _)) (Ai.mkGroups ∅ ∅) "model:gemini" _);
      [reflexivity | reflexivity | discriminate].
Defined.

(** ** openaiChatCompletion: what a call leaves behind *)

Section CallTrace.
Import Js Remote Traces.
Variable random_floor : nat -> Z -> Z.
Variable net : nat -> outcome Response.

Local Abbreviation attempts := (Remote.attempts random_floor net).

Lemma fetches_cons e events :
  fetches (e :: events) = ((if is_fetch e then 1 else 0) + fetches events)%nat.
Proof. unfold fetches. cbn. now destruct (is_fetch e). Qed.

Lemma sleeps_cons e events :
  sleeps (e :: events) = ((if is_sleep e then 1 else 0) + sleeps events)%nat.
Proof. unfold sleeps. cbn. now destruct (is_sleep e). Qed.

Lemma extends_fetched w : extends w (fetched w) [Fetched (requests w)].
Proof. unfold extends, fetched, fetches, sleeps. cbn. repeat split; lia. Qed.

Lemma extends_nil w : extends w w [].
Proof.
  unfold extends, fetches, sleeps. cbn. rewrite app_nil_r. repeat split; lia.
Qed.

Lemma extends_retry w ms w' events :
  extends (slept ms (fetched w)) w' events ->
  extends w w' (Fetched (requests w) :: Slept ms :: events).
Proof.
  unfold extends. rewrite !fetches_cons, !sleeps_cons. cbn.
  intros (Htrace & Hreq & Hdraws & Hcache).
  rewrite Htrace, Hreq, Hdraws, Hcache, <- !app_assoc. cbn. repeat split; lia.
Qed.

Hypothesis random_floor_range :
  forall n maxMs, (0 < maxMs)%Z -> (0 <= random_floor n maxMs < maxMs)%Z.

Lemma sleep_at_least attempt w header :
  (1 <= attempt)%Z ->
  at_least 600 (num_max (retryAfterMs header) (Int (backoffMs random_floor attempt w))).
Proof.
  intros Hattempt.
  pose proof (backoffMs_range random_floor random_floor_range attempt w) as Hb.
  assert (Hpow : (1 <= 2 ^ (attempt - 1))%Z).
  { pose proof (Z.pow_pos_nonneg 2 (attempt - 1)). lia. }
  destruct header; cbn; lia.
Qed.

Lemma attempts_trace fuel : forall attempt model_name w,
  (1 <= attempt)%Z ->
  exists events,
    extends w (attempts fuel attempt model_name w).2 events
    /\ (sleeps events <= fetches events <= fuel)%nat
    /\ (forall ms, In (Slept ms) events -> at_least 600 ms)
    /\ (forall result, (attempts fuel attempt model_name w).1 = Returned result ->
          exists others, events = others ++ [Fetched (requests w + fetches others)]).
Proof.
  induction fuel as [|fuel IH]; intros attempt model_name w Hattempt.
  - exists []. cbn [Remote.attempts fst snd]. split; [apply extends_nil|].
    split; [cbn; lia|]. split; [intros ms []|]. intros result Hresult. discriminate.
  - assert (Hone : forall message,
               exists events,
                 extends w (Thrown (A:=Completion) message, fetched w).2 events
                 /\ (sleeps events <= fetches events <= S fuel)%nat
                 /\ (forall ms, In (Slept ms) events -> at_least 600 ms)
                 /\ (forall result,
                       (Thrown (A:=Completion) message, fetched w).1 = Returned result ->
                       exists others,
                         events = others ++ [Fetched (requests w + fetches others)])).
    { intros message. exists [Fetched (requests w)]. cbn [fst snd].
      split; [apply extends_fetched|]. split; [cbn; lia|].
      split; [intros ms [Heq|[]]; discriminate Heq|]. intros result Hresult. discriminate. }
    cbn [Remote.attempts].
    destruct (net (requests w)) as [response|message]; [|apply Hone].
    destruct (ok response).
    + destruct (json response) as [body|message]; [|apply Hone].
      destruct (content body) as [c|]; [destruct (truthy c)|]; try apply Hone.
      exists [Fetched (requests w)]. cbn [fst snd].
      split; [apply extends_fetched|]. split; [cbn; lia|].
      split; [intros ms [Heq|[]]; discriminate Heq|].
      intros result _. exists []. cbn. now rewrite Nat.add_0_r.
    + destruct (transient response); [|apply Hone].
      set (ms := num_max (retryAfterMs (retry_after response))
                         (Int (backoffMs random_floor attempt (fetched w)))).
      destruct (IH (attempt + 1)%Z model_name (slept ms (fetched w)) ltac:(lia))
        as (events & Hext & Hcount & Hsleeps & Hlast).
      exists (Fetched (requests w) :: Slept ms :: events).
      split; [now apply extends_retry|].
      split.
      { rewrite !fetches_cons, !sleeps_cons. cbn. destruct Hcount as [Hs Hf].
        split; apply le_n_S; assumption. }
      split.
      * intros ms' [Heq|[Heq|Hin]]; [discriminate Heq | | now apply Hsleeps].
        injection Heq as <-. now apply sleep_at_least.
      * intros result Hresult. destruct (Hlast result Hresult) as [others ->].
        exists (Fetched (requests w) :: Slept ms :: others).
        assert (Heq : (requests (slept ms (fetched w)) + fetches others
                       = requests w + fetches (Fetched (requests w) :: Slept ms :: others))%nat)
          by (rewrite !fetches_cons; cbn; lia).
        now rewrite Heq.
Qed.

(** A completion that is returned is the content of the last answer; the
    answers before it were transient failures. *)
Lemma attempts_returned fuel : forall attempt model_name w result,
  (attempts fuel attempt model_name w).1 = Returned result ->
  exists response body,
    (requests w < requests (attempts fuel attempt model_name w).2)%nat
    /\ net (requests (attempts fuel attempt model_name w).2 - 1) = Returned response
    /\ ok response = true /\ json response = Returned body
    /\ content body = Some (completion_content result)
    /\ truthy (completion_content result) = true
    /\ completion_modelUsed result = nullish (model body) model_name
    /\ forall n, (requests w <= n < requests (attempts fuel attempt model_name w).2 - 1)%nat ->
         exists earlier, net n = Returned earlier /\ ok earlier = false
                         /\ transient earlier = true.
Proof.
  induction fuel as [|fuel IH]; intros attempt model_name w result; [discriminate|].
  cbn [Remote.attempts].
  destruct (net (requests w)) as [response|message] eqn:Hnet; [|discriminate].
  destruct (ok response) eqn:Hok.
  - destruct (json response) as [body|message] eqn:Hjson; [|discriminate].
    destruct (content body) as [c|] eqn:Hc; [destruct (truthy c) eqn:Ht|]; try discriminate.
    cbn [fst snd fetched requests]. intros [= <-]. exists response, body.
    replace (S (requests w) - 1)%nat with (requests w) by lia.
    repeat split; auto; try lia.
  - destruct (transient response) eqn:Htr; [|discriminate].
    intros Hresult.
    destruct (IH _ _ _ _ Hresult) as (last & body & Hlt & Hlast & Hlok & Hjson & Hc & Ht & Hm & Hearlier).
    cbn [slept fetched requests] in Hlt, Hearlier.
    exists last, body. repeat split; auto; try lia.
    intros n Hn. destruct (decide (n = requests w)) as [->|Hne]; [eauto|].
    apply Hearlier. lia.
Qed.

End CallTrace.

(** X14. What a call of [openaiChatCompletion] leaves behind, with the random
    source in its range: it only adds events to the end of the trace, one
    request per [Fetched] and one random draw per [Slept], and leaves the cache
    alone; it never sleeps more often than it sends; every sleep lasts at least
    600 ms (or an unreadable time, after an unreadable retry-after header); and
    a call that returns a completion ends on a request, not on a sleep. *)
Theorem X14_call_trace (random_floor : nat -> Z -> Z)
    (net : nat -> Js.outcome Remote.Response) (env_max_retries : option Remote.num)
    (model_name : string) (w : Remote.World) :
  (forall n maxMs, (0 < maxMs)%Z -> (0 <= random_floor n maxMs < maxMs)%Z) ->
  exists events,
    Traces.extends w
      (Remote.openaiChatCompletion random_floor net env_max_retries model_name w).2 events
    /\ (Traces.sleeps events <= Traces.fetches events)%nat
    /\ (forall ms, In (Remote.Slept ms) events -> Traces.at_least 600 ms)
    /\ (forall result,
          (Remote.openaiChatCompletion random_floor net env_max_retries model_name w).1
          = Js.Returned result ->
          exists others,
            events = others ++ [Remote.Fetched (Remote.requests w + Traces.fetches others)]).
Proof.
  intros Hrange. unfold Remote.openaiChatCompletion.
  destruct (Remote.maxAttempts env_max_retries) as [m|].
  - destruct (attempts_trace random_floor net Hrange (Z.to_nat m) 1 model_name w ltac:(lia))
      as (events & Hext & Hcount & Hsleeps & Hlast).
    exists events. split; [exact Hext|]. split; [lia|]. split; assumption.
  - exists []. split; [apply extends_nil|]. split; [cbn; lia|].
    split; [intros ms []|]. intros result Hresult. discriminate.
Qed.

Lemma X14_call_trace_witness :
  exists events,
    Traces.extends Samples.fresh
      (Remote.openaiChatCompletion Samples.no_jitter Samples.busy_then_ok None
         "gpt-4o-mini" Samples.fresh).2 events
    /\ (Traces.sleeps events <= Traces.fetches events)%nat.
Proof.
  assert (Hrange : forall (n : nat) (maxMs : Z),
             (0 < maxMs)%Z -> (0 <= Samples.no_jitter n maxMs < maxMs)%Z)
    by (intros n maxMs Hpos; unfold Samples.no_jitter; lia).
  destruct (X14_call_trace Samples.no_jitter Samples.busy_then_ok None "gpt-4o-mini"
              Samples.fresh Hrange) as (events & Hext & Hcount & _).
  exists events. split; [exact Hext | exact Hcount].
Defined.

(** X15. A completion that [openaiChatCompletion] returns is the non-empty
    content of the last answer received, an answer with a success status; its
    [modelUsed] is the model the answer names, or else the model asked for;
    and every earlier answer of the call was a failure of status 429 or
    500..599. *)
Theorem X15_returned_completion (random_floor : nat -> Z -> Z)
    (net : nat -> Js.outcome Remote.Response) (env_max_retries : option Remote.num)
    (model_name : string) (w : Remote.World) (result : Remote.Completion) :
  (Remote.openaiChatCompletion random_floor net env_max_retries model_name w).1
  = Js.Returned result ->
  exists response body,
    (Remote.requests w
     < Remote.requests
         (Remote.openaiChatCompletion random_floor net env_max_retries model_name w).2)%nat
    /\ net (Remote.requests
              (Remote.openaiChatCompletion random_floor net env_max_retries model_name w).2
            - 1) = Js.Returned response
    /\ Remote.ok response = true /\ Remote.json response = Js.Returned body
    /\ Remote.content body = Some (Remote.completion_content result)
    /\ Js.truthy (Remote.completion_content result) = true
    /\ Remote.completion_modelUsed result = Js.nullish (Remote.model body) model_name
    /\ forall n,
         (Remote.requests w <= n
          < Remote.requests
              (Remote.openaiChatCompletion random_floor net env_max_retries model_name w).2
            - 1)%nat ->
         exists earlier,
           net n = Js.Returned earlier /\ Remote.ok earlier = false
           /\ (Remote.status earlier = 429 \/ 500 <= Remote.status earlier <= 599)%Z.
Proof.
  unfold Remote.openaiChatCompletion.
  destruct (Remote.maxAttempts env_max_retries) as [m|]; [|discriminate].
  intros Hresult.
  destruct (attempts_returned random_floor net _ _ _ _ _ Hresult)
    as (response & body & Hlt & Hnet & Hok & Hjson & Hc & Ht & Hm & Hearlier).
  exists response, body. repeat split; try assumption.
  intros n Hn. destruct (Hearlier n Hn) as (earlier & He & Heok & Hetr).
  exists earlier. repeat split; try assumption. now apply transient_spec.
Qed.

Lemma X15_returned_completion_witness :
  exists response body,
    Samples.busy_then_ok 1 = Js.Returned response
    /\ Remote.json response = Js.Returned body
    /\ Remote.content body = Some "Two threads on homework 3.".
Proof.
  destruct (X15_returned_completion Samples.no_jitter Samples.busy_then_ok None
              "gpt-4o-mini" Samples.fresh
              (Remote.mkCompletion "Two threads on homework 3." "gpt-4o-mini-2024-07-18")
              eq_refl)
    as (response & body & _ & Hnet & _ & Hjson & Hc & _).
  exists response, body. split; [exact Hnet|]. split; [exact Hjson | exact Hc].
Defined.

(** X16. The attempt budget at its edges. When [AI_OPENAI_MAX_RETRIES] does
    not read as a number the loop does not run: no request is sent and the call
    fails as if the retries were used up. A value of 1 or below allows exactly
    one attempt; a value [n] of 1 or above allows [n]. *)
Theorem X16_attempt_budget (random_floor : nat -> Z -> Z)
    (net : nat -> Js.outcome Remote.Response) (model_name : string) (w : Remote.World) :
  Remote.openaiChatCompletion random_floor net (Some Remote.NaN) model_name w
  = (Js.Thrown "OpenAI retries exhausted (429/5xx).", w)
  /\ (forall n, (n <= 1)%Z ->
        Remote.openaiChatCompletion random_floor net (Some (Remote.Int n)) model_name w
        = Remote.attempts random_floor net 1 1 model_name w
        /\ (Remote.requests
              (Remote.openaiChatCompletion random_floor net (Some (Remote.Int n))
                 model_name w).2
            = Remote.requests w + 1)%nat)
  /\ (forall n, (1 <= n)%Z ->
        (Remote.requests
           (Remote.openaiChatCompletion random_floor net (Some (Remote.Int n))
              model_name w).2
         <= Remote.requests w + Z.to_nat n)%nat).
Proof.
  split; [reflexivity|]. split.
  - intros n Hn.
    assert (Hone : Remote.openaiChatCompletion random_floor net (Some (Remote.Int n))
                     model_name w
                   = Remote.attempts random_floor net 1 1 model_name w).
    { unfold Remote.openaiChatCompletion, Remote.maxAttempts. cbn [Remote.num_max].
      now replace (Z.max 1 n) with 1%Z by lia. }
    split; [exact Hone|]. rewrite Hone. cbn [Remote.attempts].
    destruct (net (Remote.requests w)) as [response|message]; [|cbn; lia].
    destruct (Remote.ok response).
    + destruct (Remote.json response) as [body|message]; [|cbn; lia].
      destruct (Remote.content body) as [c|]; [destruct (Js.truthy c)|]; cbn; lia.
    + destruct (Remote.transient response); cbn; lia.
  - intros n Hn. unfold Remote.openaiChatCompletion, Remote.maxAttempts.
    cbn [Remote.num_max]. replace (Z.max 1 n) with n by lia. apply attempts_bound.
Qed.

Lemma X16_attempt_budget_witness :
  (Remote.requests
     (Remote.openaiChatCompletion Samples.no_jitter Samples.always_503
        (Some (Remote.Int 0)) "gpt-4o-mini" Samples.fresh).2
   = 1)%nat.
Proof.
  apply (proj1 (proj2 (X16_attempt_budget Samples.no_jitter Samples.always_503
                         "gpt-4o-mini" Samples.fresh)) 0%Z).
  lia.
Defined.

(** ** The summary of a bucket: what it always holds *)

Section SummaryShape.
Import Js Types Summarise.

Lemma slice0_length n : forall s, (String.length (slice0 n s) <= n)%nat.
Proof.
  unfold slice0. induction n as [|n IH]; intros [|c s]; cbn; try lia.
  specialize (IH s). lia.
Qed.

Lemma slice0_truthy n s : truthy s = true -> truthy (slice0 (S n) s) = true.
Proof. destruct s; [discriminate|]. reflexivity. Qed.

Lemma patch_takeaway thread :
  truthy (Summary.takeaway (patch thread)) = true
  /\ (String.length (Summary.takeaway (patch thread)) <= 120)%nat.
Proof.
  unfold patch. cbn [Summary.takeaway]. split; [|apply slice0_length].
  apply slice0_truthy. unfold or_else.
  now destruct (truthy (nullish (body thread) EmptyString)) eqn:Hbody.
Qed.

Lemma missing_all (seen : gset string) (sample : list Post) :
  seen = ∅ ->
  filter (fun thread : Post => id thread ∉ seen) sample = sample.
Proof.
  intros ->. induction sample as [|thread sample IH]; [reflexivity|].
  rewrite filter_cons, decide_True by set_solver. now rewrite IH.
Qed.

Lemma firstn_map_all {X Y : Type} (f : X -> Y) (l : list X) :
  firstn (length l) (map f l) = map f l.
Proof. rewrite <- (length_map f l). apply firstn_all. Qed.

Lemma firstn_In {X : Type} (x : X) n : forall l, In x (firstn n l) -> In x l.
Proof.
  induction n as [|n IH]; intros [|y l]; cbn; try tauto.
  intros [->|Hin]; [now left | right; now apply IH].
Qed.

Lemma summary_posts_origin JSON_parse label key items answer entry :
  In entry (Summary.posts (summary_of JSON_parse label key items answer)) ->
  In entry (decoded_posts JSON_parse answer)
  \/ exists thread, In thread (group_sample items) /\ entry = patch thread.
Proof.
  unfold summary_of. cbn [Summary.posts]. rewrite patch_fold.
  intros Hin%firstn_In.
  apply in_app_iff in Hin as [Hin|Hin]; [now left|]. right.
  apply in_map_iff in Hin as (thread & <- & Hthread).
  exists thread. split; [|reflexivity].
  now apply list_elem_of_In, list_elem_of_filter in Hthread as [_ Hthread%list_elem_of_In].
Qed.

Lemma decoded_complete JSON_parse answer entry :
  In entry (decoded_posts JSON_parse answer) -> complete entry = true.
Proof.
  unfold decoded_posts. intros Hin%list_elem_of_In%list_elem_of_filter. tauto.
Qed.

Lemma group_sample_length items :
  length (group_sample items) = Nat.min 28 (length items).
Proof. unfold group_sample. now rewrite length_map, length_firstn. Qed.

Lemma overview_sample_length threads :
  length (overview_sample threads) = Nat.min 24 (length threads).
Proof. unfold overview_sample. now rewrite length_map, length_firstn. Qed.

End SummaryShape.

(** X17. An answer that does not decode (no brace pair to cut out, or text
    [JSON.parse] rejects) still gives a full summary: the overview says that
    the AI summary is unavailable for the bucket, and the posts are the patches
    of the whole sample, in the order of the sample. The same posts result
    whenever the answer yields no complete entry. *)
Theorem X17_undecodable_answer (JSON_parse : string -> option Json.value)
    (label key : string) (items : list Types.Post) (answer : string) :
  (Summarise.safeParseJsonObject JSON_parse answer = None ->
   Summarise.summary_of JSON_parse label key items answer
   = Summary.mkGroupSummary key label (length items)
       ("AI summary unavailable for " +:+ label +:+ ".")
       (map Summarise.patch (Summarise.group_sample items)))
  /\ (Summarise.decoded_posts JSON_parse answer = [] ->
      Summary.posts (Summarise.summary_of JSON_parse label key items answer)
      = map Summarise.patch (Summarise.group_sample items)).
Proof.
  assert (Hposts : Summarise.decoded_posts JSON_parse answer = [] ->
            Summary.posts (Summarise.summary_of JSON_parse label key items answer)
            = map Summarise.patch (Summarise.group_sample items)).
  { intros Hnone. unfold Summarise.summary_of. cbn [Summary.posts].
    rewrite patch_fold, Hnone. cbn [map app]. rewrite missing_all by reflexivity.
    apply firstn_map_all. }
  split; [|exact Hposts]. intros Hnone.
  assert (Hdecoded : Summarise.decoded_posts JSON_parse answer = [])
    by (unfold Summarise.decoded_posts; now rewrite Hnone).
  specialize (Hposts Hdecoded). unfold Summarise.summary_of in *.
  cbn [Summary.posts] in Hposts. rewrite Hposts, Hnone. reflexivity.
Qed.

Lemma X17_undecodable_answer_witness :
  Summarise.summary_of Samples.parse_known "Homework 3" "hw:3" [Samples.on_qwen]
    "Sorry, I cannot help with that."
  = Summary.mkGroupSummary "hw:3" "Homework 3" 1
      "AI summary unavailable for Homework 3."
      [Summary.mkGroupPostSummary "t-5" "third" "No body."].
Proof.
  rewrite (proj1 (X17_undecodable_answer Samples.parse_known "Homework 3" "hw:3"
                    [Samples.on_qwen] "Sorry, I cannot help with that.")); reflexivity.
Defined.

(** X18. Whatever the model answers, the summary of a bucket has something
    to show: its overview is not empty, its count is the size of the whole
    bucket and not of the sample, and every entry of its posts has a non-empty
    takeaway, being either a complete entry decoded from the answer (id, title
    and takeaway all non-empty) or the patch of a post of the sample, whose
    takeaway has at most 120 characters. *)
Theorem X18_summary_is_presentable (JSON_parse : string -> option Json.value)
    (label key : string) (items : list Types.Post) (answer : string) :
  Js.truthy (Summary.overview (Summarise.summary_of JSON_parse label key items answer)) = true
  /\ Summary.count (Summarise.summary_of JSON_parse label key items answer) = length items
  /\ Summary.key (Summarise.summary_of JSON_parse label key items answer) = key
  /\ Summary.label (Summarise.summary_of JSON_parse label key items answer) = label
  /\ forall entry,
       In entry (Summary.posts (Summarise.summary_of JSON_parse label key items answer)) ->
       Js.truthy (Summary.takeaway entry) = true
       /\ (Summarise.complete entry = true
           \/ exists thread, In thread (Summarise.group_sample items)
                             /\ entry = Summarise.patch thread
                             /\ (String.length (Summary.takeaway entry) <= 120)%nat).
Proof.
  split.
  { unfold Summarise.summary_of. cbn [Summary.overview]. unfold Js.or_else.
    destruct (Js.truthy (Json.string_or_empty _)) eqn:Hov; [exact Hov | reflexivity]. }
  split; [reflexivity|]. split; [reflexivity|]. split; [reflexivity|].
  intros entry Hin. apply summary_posts_origin in Hin as [Hin|(thread & Hthread & ->)].
  - apply decoded_complete in Hin. split; [|now left].
    unfold Summarise.complete in Hin. now apply andb_true_iff in Hin as [_ Hin].
  - destruct (patch_takeaway thread) as [Hsome Hshort]. split; [exact Hsome|].
    right. exists thread. auto.
Qed.

Lemma X18_summary_is_presentable_witness :
  Js.truthy (Summary.takeaway (Summary.mkGroupPostSummary "t-4" "second" "No body.")) = true.
Proof.
  refine (proj1 (proj2 (proj2 (proj2 (proj2
    (X18_summary_is_presentable Samples.parse_known "Model llama" "model:llama"
       [Samples.on_llama_a; Samples.on_llama_b] Samples.partial_answer)))) _ _)).
  right. left. reflexivity.
Defined.

(** X19. The samples sent to the model are bounded: at most 28 posts of a
    bucket with bodies of at most 700 characters, at most 24 posts for the
    overview with bodies of at most 600 characters; the posts of a sample are
    the first posts of the input, in order, with their ids and titles. *)
Theorem X19_samples_are_bounded (items : list Types.Post) :
  length (Summarise.group_sample items) = Nat.min 28 (length items)
  /\ length (Summarise.overview_sample items) = Nat.min 24 (length items)
  /\ map Types.id (Summarise.group_sample items) = map Types.id (firstn 28 items)
  /\ map Types.title (Summarise.group_sample items) = map Types.title (firstn 28 items)
  /\ map Types.id (Summarise.overview_sample items) = map Types.id (firstn 24 items)
  /\ (forall thread, In thread (Summarise.group_sample items) ->
        exists text, Types.body thread = Some text /\ (String.length text <= 700)%nat)
  /\ (forall thread, In thread (Summarise.overview_sample items) ->
        exists text, Types.body thread = Some text /\ (String.length text <= 600)%nat)
  /\ map Types.title (Summarise.overview_sample items) = map Types.title (firstn 24 items).
Proof.
  split; [apply group_sample_length|]. split; [apply overview_sample_length|].
  split; [apply group_sample_ids|].
  split; [unfold Summarise.group_sample; now rewrite map_map|].
  split; [unfold Summarise.overview_sample; now rewrite map_map|]. split.
  - intros thread Hin. unfold Summarise.group_sample in Hin.
    apply in_map_iff in Hin as (original & <- & _). cbn [Types.body].
    eexists. split; [reflexivity|]. apply slice0_length.
  - split; [|unfold Summarise.overview_sample; now rewrite map_map].
    intros thread Hin. unfold Summarise.overview_sample in Hin.
    apply in_map_iff in Hin as (original & <- & _). cbn [Types.body].
    eexists. split; [reflexivity|].
    destruct (Types.body original) as [text|]; cbn; [apply slice0_length | lia].
Qed.

Lemma X19_samples_are_bounded_witness :
  exists text,
    Types.body (Types.mkPost "t-1" "hw 5 notes on Assignment 5" (Some "see attached")
                  (Some EmptyString) None (Some ["hw:3"]) (Some EmptyString))
    = Some text
    /\ (String.length text <= 700)%nat.
Proof.
  apply (proj1 (proj2 (proj2 (proj2 (proj2 (proj2
    (X19_samples_are_bounded [Samples.tagged_hw3]))))))).
  left. reflexivity.
Defined.

(** ** The cache over many calls *)

Section CacheGrows.
Import Js Types Remote Summarise Session.

Variable JSON_parse : string -> option Json.value.
Variable hashKey : KeyInput -> string.
Variable random_floor : nat -> Z -> Z.
Variable net : nat -> outcome Response.
Variable extractClusters : string -> list Perspective.Cluster.
Variable env_max_retries : option num.

Local Abbreviation perform :=
  (Session.perform JSON_parse hashKey random_floor net extractClusters env_max_retries).
Local Abbreviation perform_all :=
  (Session.perform_all JSON_parse hashKey random_floor net extractClusters env_max_retries).
Local Abbreviation cacheKey := (Session.cacheKey hashKey).

Lemma perform_hit c w v :
  cache w !! cacheKey c = Some v -> perform c w = (Returned v, w).
Proof.
  intros Hhit. destruct c; cbn [Session.perform Session.cacheKey] in *;
    unfold callOpenAI, summarizeGroup, getCache; now rewrite Hhit.
Qed.

Lemma perform_cases c w :
  (exists v, cache w !! cacheKey c = Some v /\ perform c w = (Returned v, w))
  \/ (cache w !! cacheKey c = None
      /\ ((exists v, (perform c w).1 = Returned v
                     /\ cache (perform c w).2 = <[cacheKey c := v]> (cache w))
          \/ (exists message, (perform c w).1 = Thrown message
                              /\ cache (perform c w).2 = cache w))).
Proof.
  destruct (cache w !! cacheKey c) as [v|] eqn:Hlook.
  - left. exists v. split; [reflexivity|]. now apply perform_hit.
  - right. split; [reflexivity|].
    destruct c as [env_model threads | model_name label key items];
      cbn [Session.perform Session.cacheKey] in *;
      unfold callOpenAI, summarizeGroup, getCache; rewrite Hlook.
    + pose proof (openaiChatCompletion_cache random_floor net env_max_retries
                    (nullish env_model "gpt-4o-mini") w) as Hcache.
      destruct (openaiChatCompletion random_floor net env_max_retries
                  (nullish env_model "gpt-4o-mini") w) as [[completion|message] w1];
        cbn [fst snd] in *.
      * left. eexists. split; [reflexivity|]. unfold setCache. cbn [cache].
        now rewrite Hcache.
      * right. exists message. split; [reflexivity | exact Hcache].
    + pose proof (openaiChatCompletion_cache random_floor net env_max_retries
                    model_name w) as Hcache.
      destruct (openaiChatCompletion random_floor net env_max_retries model_name w)
        as [[completion|message] w1]; cbn [fst snd] in *.
      * left. eexists. split; [reflexivity|]. unfold setCache. cbn [cache].
        now rewrite Hcache.
      * right. exists message. split; [reflexivity | exact Hcache].
Qed.

Lemma perform_keeps c w k x :
  cache w !! k = Some x -> cache (perform c w).2 !! k = Some x.
Proof.
  intros Hk. destruct (perform_cases c w)
    as [(v & _ & ->) | (Hmiss & [(v & _ & ->) | (message & _ & ->)])];
    [exact Hk | | exact Hk].
  rewrite lookup_insert_ne; [exact Hk|]. intros <-. congruence.
Qed.

Lemma perform_stores c w v w1 :
  perform c w = (Returned v, w1) -> cache w1 !! cacheKey c = Some v.
Proof.
  intros Hcall. destruct (perform_cases c w)
    as [(v' & Hhit & Heq) | (Hmiss & [(v' & Hv & Hcache) | (message & Hv & _)])];
    rewrite Hcall in *; cbn [fst snd] in *.
  - congruence.
  - injection Hv as <-. rewrite Hcache. apply lookup_insert_eq.
  - discriminate.
Qed.

Lemma perform_all_keeps calls : forall w k x,
  cache w !! k = Some x -> cache (perform_all calls w) !! k = Some x.
Proof.
  induction calls as [|c calls IH]; intros w k x Hk; [exact Hk|].
  cbn [Session.perform_all fold_left]. apply IH. now apply perform_keeps.
Qed.

Lemma perform_new_key c w k :
  cache w !! k = None -> k <> cacheKey c -> cache (perform c w).2 !! k = None.
Proof.
  intros Hk Hne. destruct (perform_cases c w)
    as [(v & _ & ->) | (Hmiss & [(v & _ & ->) | (message & _ & ->)])];
    [exact Hk | | exact Hk].
  now rewrite lookup_insert_ne by congruence.
Qed.

End CacheGrows.

(** X20. The cache only grows. When calls are made one after another, an
    entry that is in the cache stays there with the value it has: no call
    removes or replaces it, and a call adds nothing under a key other than
    its own. So an answer that a call has once returned is returned again by
    the same call after any number of other calls, with no request and no
    other change of the state. *)
Theorem X20_cache_only_grows
    (JSON_parse : string -> option Json.value)
    (hashKey : Summarise.KeyInput -> string) (random_floor : nat -> Z -> Z)
    (net : nat -> Js.outcome Remote.Response)
    (extractClusters : string -> list Perspective.Cluster)
    (env_max_retries : option Remote.num)
    (c : Session.call) (w : Remote.World) :
  (forall calls k x,
      Remote.cache w !! k = Some x ->
      Remote.cache (Session.perform_all JSON_parse hashKey random_floor net
                      extractClusters env_max_retries calls w) !! k = Some x)
  /\ (forall k,
      Remote.cache w !! k = None -> k <> Session.cacheKey hashKey c ->
      Remote.cache (Session.perform JSON_parse hashKey random_floor net
                      extractClusters env_max_retries c w).2 !! k = None)
  /\ (forall v w1 calls,
      Session.perform JSON_parse hashKey random_floor net extractClusters
        env_max_retries c w = (Js.Returned v, w1) ->
      Session.perform JSON_parse hashKey random_floor net extractClusters
        env_max_retries c
        (Session.perform_all JSON_parse hashKey random_floor net
           extractClusters env_max_retries calls w1)
      = (Js.Returned v,
         Session.perform_all JSON_parse hashKey random_floor net
           extractClusters env_max_retries calls w1)).
Proof.
  split; [intros calls k x; apply perform_all_keeps|].
  split; [intros k; apply perform_new_key|].
  intros v w1 calls Hcall. apply perform_hit, perform_all_keeps.
  eapply perform_stores. exact Hcall.
Qed.

Lemma X20_cache_only_grows_witness :
  exists v,
    Session.perform Samples.parse_known Samples.toy_hash Samples.no_jitter
      Samples.busy_then_ok Samples.no_clusters None
      (Session.Overview None [Samples.tagged_hw3]) Samples.fresh
    = (Js.Returned v,
       Session.perform_all Samples.parse_known Samples.toy_hash Samples.no_jitter
         Samples.busy_then_ok Samples.no_clusters None
         [Session.Overview None [Samples.tagged_hw3]] Samples.fresh)
    /\ Session.perform Samples.parse_known Samples.toy_hash Samples.no_jitter
         Samples.busy_then_ok Samples.no_clusters None
         (Session.Overview None [Samples.tagged_hw3])
         (Session.perform_all Samples.parse_known Samples.toy_hash Samples.no_jitter
            Samples.busy_then_ok Samples.no_clusters None
            [Session.Group "gpt-4o-mini" "Model llama" "model:llama"
               [Samples.on_llama_a; Samples.on_llama_b];
             Session.Overview None [Samples.on_qwen]]
            (Session.perform_all Samples.parse_known Samples.toy_hash Samples.no_jitter
               Samples.busy_then_ok Samples.no_clusters None
               [Session.Overview None [Samples.tagged_hw3]] Samples.fresh))
       = (Js.Returned v,
          Session.perform_all Samples.parse_known Samples.toy_hash Samples.no_jitter
            Samples.busy_then_ok Samples.no_clusters None
            [Session.Group "gpt-4o-mini" "Model llama" "model:llama"
               [Samples.on_llama_a; Samples.on_llama_b];
             Session.Overview None [Samples.on_qwen]]
            (Session.perform_all Samples.parse_known Samples.toy_hash Samples.no_jitter
               Samples.busy_then_ok Samples.no_clusters None
               [Session.Overview None [Samples.tagged_hw3]] Samples.fresh)).
Proof.
  eexists. split; [vm_compute; reflexivity|].
  refine (proj2 (proj2 (X20_cache_only_grows Samples.parse_known Samples.toy_hash
    Samples.no_jitter Samples.busy_then_ok Samples.no_clusters None
    (Session.Overview None [Samples.tagged_hw3]) Samples.fresh)) _ _ _ _).
  vm_compute. reflexivity.
Defined.

(** ** The grouped perspective *)

Section Merge.
Import Js Types Grouped.

Lemma index_groups_snoc byKey groups group :
  index_groups byKey (groups ++ [group])
  = <[Summary.key group := group]> (index_groups byKey groups).
Proof. unfold index_groups. now rewrite fold_left_app. Qed.

Lemma index_groups_app byKey first second :
  index_groups (index_groups byKey first) second = index_groups byKey (first ++ second).
Proof. unfold index_groups. now rewrite fold_left_app. Qed.

(** What [byKey] holds under a key: a group of the list with that key. *)
Lemma index_groups_Some groups : forall k found,
  index_groups ∅ groups !! k = Some found ->
  In found groups /\ Summary.key found = k.
Proof.
  induction groups as [|group groups IH] using rev_ind; intros k found Hlook.
  - cbn in Hlook. now rewrite lookup_empty in Hlook.
  - rewrite index_groups_snoc in Hlook.
    destruct (decide (Summary.key group = k)) as [<-|Hne].
    + rewrite lookup_insert_eq in Hlook. injection Hlook as <-.
      split; [apply in_app_iff; right; now left | reflexivity].
    + rewrite lookup_insert_ne in Hlook by exact Hne.
      apply IH in Hlook as [Hin Hkey]. split; [apply in_app_iff; now left | exact Hkey].
Qed.

Lemma index_groups_None groups k :
  index_groups ∅ groups !! k = None <-> ~ In k (map Summary.key groups).
Proof.
  induction groups as [|group groups IH] using rev_ind.
  - cbn. rewrite lookup_empty. tauto.
  - rewrite index_groups_snoc, map_app, in_app_iff. cbn [map In].
    destruct (decide (Summary.key group = k)) as [<-|Hne].
    + rewrite lookup_insert_eq. split; [discriminate | tauto].
    + rewrite lookup_insert_ne by exact Hne. rewrite IH. tauto.
Qed.

(** The last group of a key is the one [byKey] holds. *)
Lemma index_groups_last groups group later :
  ~ In (Summary.key group) (map Summary.key later) ->
  index_groups ∅ (groups ++ group :: later) !! Summary.key group = Some group.
Proof.
  induction later as [|other later IH] using rev_ind; intros Hlast.
  - rewrite index_groups_snoc. apply lookup_insert_eq.
  - rewrite map_app, in_app_iff in Hlast. cbn [map In] in Hlast.
    replace (groups ++ group :: later ++ [other])
      with ((groups ++ group :: later) ++ [other]) by now rewrite <- app_assoc.
    rewrite index_groups_snoc, lookup_insert_ne by tauto. apply IH. tauto.
Qed.

Lemma pick_key byKey group :
  (forall k found, byKey !! k = Some found -> Summary.key found = k) ->
  Summary.key (pick byKey group) = Summary.key group.
Proof.
  intros Hkeys. unfold pick.
  destruct (byKey !! Summary.key group) as [found|] eqn:Hlook; [|reflexivity].
  now apply Hkeys in Hlook.
Qed.

Lemma pick_keys byKey groups :
  (forall k found, byKey !! k = Some found -> Summary.key found = k) ->
  map Summary.key (map (pick byKey) groups) = map Summary.key groups.
Proof.
  intros Hkeys. rewrite map_map. apply map_ext. intros group. now apply pick_key.
Qed.

End Merge.

(** X21. Merging keeps the shape of the baseline: the merged perspective has
    the baseline's groups by key, in the baseline's order, and the baseline's
    note; its model and mode are those of the enhanced side. Each of its
    groups is the baseline group when no enhanced group has that key, and
    otherwise an enhanced group of that key: the last one, homeworks before
    models, when several have it. An enhanced group whose key the baseline
    lacks is not in the result. *)
Theorem X21_merge_keeps_baseline_shape (baseline enhanced : Grouped.GroupedAIPerspective) :
  map Summary.key (Grouped.homeworks (Grouped.mergeGroupPerspectives baseline enhanced))
  = map Summary.key (Grouped.homeworks baseline)
  /\ map Summary.key (Grouped.models (Grouped.mergeGroupPerspectives baseline enhanced))
     = map Summary.key (Grouped.models baseline)
  /\ Grouped.note (Grouped.mergeGroupPerspectives baseline enhanced) = Grouped.note baseline
  /\ Grouped.modelUsed (Grouped.mergeGroupPerspectives baseline enhanced)
     = Grouped.modelUsed enhanced
  /\ Grouped.mode (Grouped.mergeGroupPerspectives baseline enhanced) = Grouped.mode enhanced
  /\ (forall merged,
        In merged (Grouped.groups_of (Grouped.mergeGroupPerspectives baseline enhanced)) ->
        (In merged (Grouped.groups_of baseline)
         /\ ~ In (Summary.key merged) (map Summary.key (Grouped.groups_of enhanced)))
        \/ (In merged (Grouped.groups_of enhanced)
            /\ In (Summary.key merged) (map Summary.key (Grouped.groups_of baseline))))
  /\ (forall earlier group later original,
        Grouped.groups_of enhanced = earlier ++ group :: later ->
        ~ In (Summary.key group) (map Summary.key later) ->
        In original (Grouped.groups_of baseline) ->
        Summary.key original = Summary.key group ->
        In group (Grouped.groups_of (Grouped.mergeGroupPerspectives baseline enhanced))).
Proof.
  set (byKey := Grouped.index_groups ∅ (Grouped.groups_of enhanced)).
  assert (Hmerged : Grouped.mergeGroupPerspectives baseline enhanced
            = Grouped.mkGroupedAIPerspective
                (map (Grouped.pick byKey) (Grouped.homeworks baseline))
                (map (Grouped.pick byKey) (Grouped.models baseline))
                (Grouped.modelUsed enhanced) (Grouped.mode enhanced)
                (Grouped.note baseline)).
  { unfold Grouped.mergeGroupPerspectives, byKey, Grouped.groups_of.
    now rewrite index_groups_app. }
  assert (Hkeys : forall k found, byKey !! k = Some found -> Summary.key found = k)
    by (intros k found Hlook; now apply index_groups_Some in Hlook).
  assert (Hall : Grouped.groups_of (Grouped.mergeGroupPerspectives baseline enhanced)
                 = map (Grouped.pick byKey) (Grouped.groups_of baseline)).
  { rewrite Hmerged. unfold Grouped.groups_of. cbn [Grouped.homeworks Grouped.models].
    now rewrite map_app. }
  rewrite Hmerged. cbn [Grouped.homeworks Grouped.models Grouped.note Grouped.modelUsed
                        Grouped.mode].
  split; [now apply pick_keys|]. split; [now apply pick_keys|].
  split; [reflexivity|]. split; [reflexivity|]. split; [reflexivity|].
  rewrite <- Hmerged, Hall. split.
  - intros merged Hin. apply in_map_iff in Hin as (original & <- & Horiginal).
    unfold Grouped.pick.
    destruct (byKey !! Summary.key original) as [found|] eqn:Hlook.
    + right. apply index_groups_Some in Hlook as [Hfound Hkey]. split; [exact Hfound|].
      rewrite Hkey. now apply in_map.
    + left. split; [exact Horiginal|]. now apply index_groups_None.
  - intros earlier group later original Hsplit Hlast Horiginal Hkey.
    apply in_map_iff. exists original. split; [|exact Horiginal].
    unfold Grouped.pick, byKey. rewrite Hkey, Hsplit.
    now rewrite index_groups_last.
Qed.

Lemma X21_merge_keeps_baseline_shape_witness :
  In (Summary.mkGroupSummary "hw:3" "Homework 3" 2 "From the model." [])
     (Grouped.groups_of
        (Grouped.mergeGroupPerspectives
           (Grouped.mkGroupedAIPerspective
              [Summary.mkGroupSummary "hw:3" "Homework 3" 2 "Heuristic." []]
              [Summary.mkGroupSummary "model:llama" "Model llama" 2 "Heuristic." []]
              "heuristic" Perspective.heuristic (Some "Heuristic baseline."))
           (Grouped.mkGroupedAIPerspective
              [Summary.mkGroupSummary "hw:3" "Homework 3" 2 "From the model." []]
              [Summary.mkGroupSummary "model:qwen" "Model qwen" 2 "From the model." []]
              "gpt-4o-mini" Perspective.llm None))).
Proof.
  refine (proj2 (proj2 (proj2 (proj2 (proj2 (proj2
    (X21_merge_keeps_baseline_shape _ _))))))
    [] _ [Summary.mkGroupSummary "model:qwen" "Model qwen" 2 "From the model." []]
    (Summary.mkGroupSummary "hw:3" "Homework 3" 2 "Heuristic." []) _ _ _ _).
  - reflexivity.
  - cbn. intros [Heq|[]]. discriminate.
  - left. reflexivity.
  - reflexivity.
Defined.

(** ** The heuristic summary of a bucket *)

Section Heuristic.
Import Js Types Grouped.

Lemma drop_prefix_append prefix rest : drop_prefix prefix (prefix +:+ rest) = Some rest.
Proof.
  induction prefix as [|c prefix IH]; [now destruct rest|].
  change (String c prefix +:+ rest) with (String c (prefix +:+ rest)).
  cbn [drop_prefix]. now rewrite Ascii.eqb_refl.
Qed.

Lemma drop_prefix_Some prefix : forall s rest,
  drop_prefix prefix s = Some rest -> s = prefix +:+ rest.
Proof.
  induction prefix as [|c prefix IH]; intros s rest Hdrop.
  - cbn in Hdrop. destruct s; now injection Hdrop as <-.
  - destruct s as [|b s]; [discriminate|]. cbn in Hdrop.
    destruct (Ascii.eqb c b) eqn:Hcb; [|discriminate].
    apply Ascii.eqb_eq in Hcb as <-. apply IH in Hdrop as ->. reflexivity.
Qed.

End Heuristic.

(** X22. The heuristic summary of a bucket counts the whole bucket and lists
    its first 40 posts, in order, with their ids and titles; every takeaway
    is non-empty and has at most 120 characters (the start of the body, or a
    placeholder for a post without body text). The label is the prefix, a
    space and the key without its kind: a leading [hw:] or [model:] is cut
    off once, any other key is kept whole. *)
Theorem X22_heuristic_summary (note labelPrefix key : string) (items : list Types.Post) :
  Summary.count (Grouped.toSummary note labelPrefix key items) = length items
  /\ Summary.key (Grouped.toSummary note labelPrefix key items) = key
  /\ length (Summary.posts (Grouped.toSummary note labelPrefix key items))
     = Nat.min 40 (length items)
  /\ map Summary.id (Summary.posts (Grouped.toSummary note labelPrefix key items))
     = map Types.id (firstn 40 items)
  /\ map Summary.title (Summary.posts (Grouped.toSummary note labelPrefix key items))
     = map Types.title (firstn 40 items)
  /\ (forall entry,
        In entry (Summary.posts (Grouped.toSummary note labelPrefix key items)) ->
        Js.truthy (Summary.takeaway entry) = true
        /\ (String.length (Summary.takeaway entry) <= 120)%nat)
  /\ (forall number,
        key = "hw:" +:+ number ->
        Summary.label (Grouped.toSummary note labelPrefix key items)
        = labelPrefix +:+ " " +:+ number)
  /\ (forall model,
        key = "model:" +:+ model ->
        Summary.label (Grouped.toSummary note labelPrefix key items)
        = labelPrefix +:+ " " +:+ model)
  /\ (Js.startsWith "hw:" key = false -> Js.startsWith "model:" key = false ->
        Summary.label (Grouped.toSummary note labelPrefix key items)
        = labelPrefix +:+ " " +:+ key).
Proof.
  unfold Grouped.toSummary.
  cbn [Summary.count Summary.key Summary.posts Summary.label].
  split; [reflexivity|]. split; [reflexivity|].
  split; [now rewrite length_map, length_firstn|].
  split; [now rewrite map_map|]. split; [now rewrite map_map|]. split.
  { intros entry Hin. apply in_map_iff in Hin as (thread & <- & _).
    cbn [Summary.takeaway]. unfold Js.or_else.
    destruct (Js.truthy (Js.slice0 120 _)) eqn:Hsome.
    - split; [exact Hsome | apply slice0_length].
    - split; [reflexivity | cbn; lia]. }
  split.
  { intros number ->. unfold Grouped.strip_kind.
    now rewrite (drop_prefix_append "hw:" number). }
  split.
  { intros model ->. unfold Grouped.strip_kind.
    now rewrite (drop_prefix_append "model:" model). }
  intros Hhw Hmodel. unfold Grouped.strip_kind.
  destruct (Grouped.drop_prefix "hw:" key) as [rest|] eqn:Hdrop.
  { apply drop_prefix_Some in Hdrop as ->. now rewrite startsWith_append in Hhw. }
  destruct (Grouped.drop_prefix "model:" key) as [rest|] eqn:Hdrop'; [|reflexivity].
  apply drop_prefix_Some in Hdrop' as ->. now rewrite startsWith_append in Hmodel.
Qed.

Lemma X22_heuristic_summary_witness :
  Summary.label (Grouped.toSummary "Heuristic baseline." "Homework" "hw:hw:3"
                   [Samples.tagged_hw3])
  = "Homework hw:3".
Proof.
  apply (proj1 (proj2 (proj2 (proj2 (proj2 (proj2 (proj2
    (X22_heuristic_summary "Heuristic baseline." "Homework" "hw:hw:3"
       [Samples.tagged_hw3]))))))) "hw:3").
  reflexivity.
Defined.

(** ** Search *)

Section Search.
Import Js Types Page.

Lemma includes_empty s : includes EmptyString s = true.
Proof. now destruct s. Qed.

Lemma indexOf_cons_None c x q :
  indexOf c (String x q) = None -> x <> c /\ indexOf c q = None.
Proof.
  cbn [indexOf]. destruct (Ascii.eqb x c) eqn:Hxc; [discriminate|].
  apply Ascii.eqb_neq in Hxc. destruct (indexOf c q); [discriminate|]. tauto.
Qed.

Lemma prefix_empty s : String.prefix EmptyString s = true.
Proof. now destruct s. Qed.

(** A text without [c] that starts [a c b] starts [a]. *)
Lemma prefix_before c q : forall a b,
  indexOf c q = None ->
  String.prefix q (a +:+ String c b) = String.prefix q a.
Proof.
  induction q as [|x q IH]; intros a b Hfree; [now rewrite !prefix_empty|].
  apply indexOf_cons_None in Hfree as [Hne Hfree].
  destruct a as [|y a].
  - rewrite append_nil_l. cbn [String.prefix]. now destruct (ascii_dec x c).
  - rewrite append_cons. cbn [String.prefix]. destruct (ascii_dec x y); [|reflexivity].
    now apply IH.
Qed.

Lemma includes_before c q b : forall a,
  indexOf c q = None ->
  includes q (a +:+ String c b) = includes q a || includes q b.
Proof.
  intros a Hfree. induction a as [|y a IH].
  - rewrite append_nil_l. cbn [includes]. destruct q as [|x q].
    + now rewrite includes_empty.
    + apply indexOf_cons_None in Hfree as [Hne _]. cbn [String.prefix].
      destruct (ascii_dec x c); [contradiction | reflexivity].
  - rewrite append_cons. cbn [includes]. rewrite IH.
    rewrite <- append_cons, (prefix_before c q (String y a) b Hfree).
    now rewrite orb_assoc.
Qed.

Lemma lower_char_keeps c x :
  c = LF \/ c = " "%char -> Ascii.eqb (lower_char x) c = Ascii.eqb x c.
Proof.
  intros [->| ->]; destruct x as [[] [] [] [] [] [] [] []]; reflexivity.
Qed.

Lemma toLowerCase_free c q :
  c = LF \/ c = " "%char -> indexOf c q = None -> indexOf c (toLowerCase q) = None.
Proof.
  intros Hc. induction q as [|x q IH]; [reflexivity|]. intros Hfree.
  cbn [toLowerCase indexOf] in *. rewrite lower_char_keeps by exact Hc.
  destruct (Ascii.eqb x c); [discriminate|].
  destruct (indexOf c q); [discriminate|]. now rewrite IH.
Qed.

Lemma join_cons sep part next parts :
  join sep (part :: next :: parts) = part +:+ sep +:+ join sep (next :: parts).
Proof. reflexivity. Qed.

(** A text without a space is in the joined tags when it is in one tag, or
    when there is no tag and the text is empty. *)
Lemma includes_tags q tags :
  indexOf " "%char q = None ->
  includes q (toLowerCase (join " " tags)) = true ->
  tags = [] \/ exists tag, In tag tags /\ includes q (toLowerCase tag) = true.
Proof.
  intros Hfree. induction tags as [|tag [|next tags] IH]; intros Hin.
  - now left.
  - right. exists tag. split; [now left | exact Hin].
  - right. rewrite join_cons, !toLowerCase_append in Hin.
    change (toLowerCase " ") with (String " "%char EmptyString) in Hin.
    rewrite append_cons, append_nil_l, includes_before in Hin by exact Hfree.
    apply orb_true_iff in Hin as [Hin|Hin].
    + exists tag. split; [now left | exact Hin].
    + destruct (IH Hin) as [Hnil|(found & Hfound & Hhit)]; [discriminate|].
      exists found. split; [now right | exact Hhit].
Qed.

Lemma prefix_append_l q : forall a b,
  String.prefix q a = true -> String.prefix q (a +:+ b) = true.
Proof.
  induction q as [|x q IH]; intros a b Hpre; [apply prefix_empty|].
  destruct a as [|y a]; [discriminate|].
  rewrite append_cons. cbn [String.prefix] in *.
  destruct (ascii_dec x y); [now apply IH | discriminate].
Qed.

Lemma includes_append_l q a b : includes q a = true -> includes q (a +:+ b) = true.
Proof.
  induction a as [|y a IH].
  - cbn [includes]. rewrite orb_false_r. destruct q; [|discriminate].
    intros _. apply includes_empty.
  - rewrite append_cons. cbn [includes]. intros [Hpre|Hin]%orb_true_iff.
    + apply orb_true_iff. left. rewrite <- append_cons. now apply prefix_append_l.
    + apply orb_true_iff. right. now apply IH.
Qed.

Lemma includes_append_r q a b : includes q b = true -> includes q (a +:+ b) = true.
Proof.
  intros Hin. induction a as [|y a IH]; [exact Hin|].
  rewrite append_cons. cbn [includes]. apply orb_true_iff. now right.
Qed.

Lemma includes_cons q c s : includes q s = true -> includes q (String c s) = true.
Proof. intros Hin. cbn [includes]. apply orb_true_iff. now right. Qed.

Lemma includes_in_tags q tag tags :
  In tag tags -> includes q (toLowerCase tag) = true ->
  includes q (toLowerCase (join " " tags)) = true.
Proof.
  induction tags as [|first [|next tags] IH]; intros Hin Hhit; [destruct Hin| |].
  - destruct Hin as [->|[]]. exact Hhit.
  - rewrite join_cons, toLowerCase_append. destruct Hin as [->|Hin].
    + now apply includes_append_l.
    + apply includes_append_r. rewrite toLowerCase_append.
      apply includes_append_r. now apply IH.
Qed.

(** The haystack, field by field. *)
Lemma haystack_shape (post : Post) :
  toLowerCase
    (join (String LF EmptyString)
       [title post; nullish (body post) EmptyString; nullish (author post) EmptyString;
        join " " (match tags post with Some tags => tags | None => [] end)])
  = toLowerCase (title post)
    +:+ String LF (toLowerCase (nullish (body post) EmptyString)
    +:+ String LF (toLowerCase (nullish (author post) EmptyString)
    +:+ String LF (toLowerCase
                     (join " " (match tags post with Some tags => tags | None => [] end))))).
Proof.
  rewrite !join_cons. cbn [join]. rewrite !toLowerCase_append. reflexivity.
Qed.

End Search.

(** X23. The search is a case-insensitive substring test on the title, the
    body, the author and the tags. A post whose title, body, author or one of
    its tags contains the query, letter case apart, matches. A post that
    matches a query without a space and without a line feed contains the
    query in one of these texts: such a query never matches across two of
    them. (A query with a space can: the tags are joined by spaces.) *)
Theorem X23_search_fields (post : Types.Post) (query : string) :
  (forall field,
      In field (Page.fields post) ->
      Page.includes (Js.toLowerCase query) (Js.toLowerCase field) = true ->
      Page.matchesQuery post query = true)
  /\ (Js.indexOf Js.LF query = None -> Js.indexOf " "%char query = None ->
      Page.matchesQuery post query = true ->
      exists field,
        In field (Page.fields post)
        /\ Page.includes (Js.toLowerCase query) (Js.toLowerCase field) = true).
Proof.
  unfold Page.matchesQuery, Page.fields. rewrite haystack_shape.
  set (q := Js.toLowerCase query). split.
  - intros field [<-|[<-|[<-|Htag]]] Hhit.
    + now apply includes_append_l.
    + apply includes_append_r, includes_cons. now apply includes_append_l.
    + apply includes_append_r, includes_cons, includes_append_r, includes_cons.
      now apply includes_append_l.
    + apply includes_append_r, includes_cons, includes_append_r, includes_cons,
        includes_append_r, includes_cons.
      now apply (includes_in_tags q field).
  - intros Hlf Hspace Hmatch.
    assert (Hlf' : Js.indexOf Js.LF q = None) by (apply toLowerCase_free; auto).
    assert (Hspace' : Js.indexOf " "%char q = None) by (apply toLowerCase_free; auto).
    rewrite !includes_before in Hmatch by exact Hlf'.
    apply orb_true_iff in Hmatch as [Hmatch|Hmatch]; [eexists; split; [left; reflexivity | exact Hmatch]|].
    apply orb_true_iff in Hmatch as [Hmatch|Hmatch];
      [eexists; split; [right; left; reflexivity | exact Hmatch]|].
    apply orb_true_iff in Hmatch as [Hmatch|Hmatch];
      [eexists; split; [right; right; left; reflexivity | exact Hmatch]|].
    pose proof Hmatch as Hjoined.
    apply (includes_tags q _ Hspace') in Hmatch as [Hnil|(tag & Htag & Hhit)].
    + rewrite Hnil in Hjoined. cbn in Hjoined. rewrite orb_false_r in Hjoined.
      exists (Types.title post). split; [now left|].
      destruct q; [apply includes_empty | discriminate].
    + exists tag. split; [|exact Hhit]. do 3 right. exact Htag.
Qed.

Lemma X23_search_fields_witness :
  Page.matchesQuery Samples.tagged_hw3 "ASSIGNMENT" = true
  /\ exists field,
       In field (Page.fields Samples.on_qwen)
       /\ Page.includes (Js.toLowerCase "QWEN") (Js.toLowerCase field) = true.
Proof.
  split.
  - apply (proj1 (X23_search_fields Samples.tagged_hw3 "ASSIGNMENT")
             (Types.title Samples.tagged_hw3)); [left; reflexivity | reflexivity].
  - apply (proj2 (X23_search_fields Samples.on_qwen "QWEN")); reflexivity.
Defined.

(** ** Paging *)

Section Paging.
Import Js Types Page.

Context {A : Type}.

Lemma firstn_min (n : nat) (l : list A) : firstn (Nat.min n (length l)) l = firstn n l.
Proof.
  destruct (Nat.le_gt_cases n (length l)) as [Hle|Hgt].
  - now rewrite Nat.min_l.
  - rewrite Nat.min_r by lia. now rewrite firstn_all, firstn_all2 by lia.
Qed.

(** The slice between two whole indices in the array. *)
Lemma array_slice_inner (from width : Z) (l : list A) :
  (0 <= from <= Z.of_nat (length l))%Z -> (0 <= width)%Z ->
  array_slice (Whole from) (Whole (from + width)) l
  = firstn (Z.to_nat width) (skipn (Z.to_nat from) l).
Proof.
  intros Hfrom Hwidth. unfold array_slice, relative.
  assert (Hf : (from <? 0)%Z = false) by lia.
  assert (Hs : (from + width <? 0)%Z = false) by lia.
  rewrite Hf, Hs, (Z.min_l from) by lia.
  rewrite <- (firstn_min (Z.to_nat width)). f_equal. rewrite length_skipn. lia.
Qed.

Lemma array_slice_NaN (l : list A) : array_slice NaN NaN l = [].
Proof.
  unfold array_slice, relative, NaN. cbn [Z.ltb Z.compare].
  now rewrite Z.sub_diag.
Qed.

(** Whatever its arguments, a slice is a run of the array. *)
Lemma array_slice_run (start stop : number) (l : list A) :
  exists before after, l = before ++ array_slice start stop l ++ after.
Proof.
  unfold array_slice.
  set (from := Z.to_nat (relative (Z.of_nat (length l)) start)).
  set (width := Z.to_nat _).
  exists (firstn from l), (skipn width (skipn from l)).
  now rewrite (firstn_skipn width), (firstn_skipn from).
Qed.

(** Cutting a list into runs of [n] and putting them together again. *)
Lemma chunks_concat (n : nat) : forall (count : nat) (l : list A),
  (length l <= count * n)%nat ->
  concat (map (fun k => firstn n (skipn (k * n) l)) (seq 0 count)) = l.
Proof.
  induction count as [|count IH]; intros l Hlen.
  - destruct l; [reflexivity | cbn in Hlen; lia].
  - rewrite <- cons_seq, <- seq_shift, map_cons, map_map. cbn [concat Nat.mul skipn].
    transitivity (firstn n l ++ skipn n l); [|apply firstn_skipn]. f_equal.
    etransitivity; [|apply (IH (skipn n l)); rewrite length_skipn; lia].
    f_equal. apply map_ext. intros k. rewrite skipn_skipn. do 2 f_equal. lia.
Qed.

End Paging.

Section Pages.
Import Js Types Page.

(** [NaN] goes through every operation. *)
Lemma double_max_NaN x : double_max x S754_nan = S754_nan.
Proof. now destruct x. Qed.

Lemma double_min_NaN x : double_min x S754_nan = S754_nan.
Proof. now destruct x. Qed.

Lemma num_max_NaN a : num_max a NaN = NaN.
Proof. destruct a; unfold num_max, NaN; cbn [to_double]; now rewrite double_max_NaN. Qed.

Lemma num_min_NaN a : num_min a NaN = NaN.
Proof. destruct a; unfold num_min, NaN; cbn [to_double]; now rewrite double_min_NaN. Qed.

Lemma NaN_num_min a : num_min NaN a = NaN.
Proof. now destruct a. Qed.

Lemma NaN_num_sub a : num_sub NaN a = NaN.
Proof. now destruct a. Qed.

Lemma NaN_num_mul a : num_mul NaN a = NaN.
Proof. now destruct a. Qed.

Lemma ceil_div_NaN n : ceil_div n NaN = NaN.
Proof.
  unfold ceil_div, NaN. cbn [to_double].
  now destruct (binary_normalize prec emax (Z.of_nat n) 0 false).
Qed.

Lemma limit_range raw :
  whole_or_absent raw -> exists size, limit raw = Whole size /\ (10 <= size <= 100)%Z.
Proof.
  destruct raw as [[z|f]|]; intros Hraw; [| destruct Hraw |]; cbn;
    eexists; (split; [reflexivity | lia]).
Qed.

Lemma page_range raw :
  whole_or_absent raw -> exists number, page raw = Whole number /\ (1 <= number)%Z.
Proof.
  destruct raw as [[z|f]|]; intros Hraw; [| destruct Hraw |]; cbn;
    eexists; (split; [reflexivity | lia]).
Qed.

(** The number of pages: the least number of runs of [size] posts that hold
    the list, and 1 for the empty list. *)
Lemma totalPages_range size (posts : list Post) :
  (0 < size)%Z ->
  exists total,
    totalPages (Whole size) posts = Whole (Z.of_nat total)
    /\ (1 <= total)%nat
    /\ (length posts <= total * Z.to_nat size)%nat
    /\ (posts <> [] -> ((total - 1) * Z.to_nat size < length posts)%nat)
    /\ (posts = [] -> total = 1%nat).
Proof.
  intros Hsize. unfold totalPages, ceil_div.
  assert (Hnonzero : (size =? 0)%Z = false) by lia. rewrite Hnonzero. cbn [num_max].
  set (len := Z.of_nat (length posts)).
  pose proof (Z.div_mod (- len) size ltac:(lia)) as Hdiv.
  pose proof (Z.mod_pos_bound (- len) size Hsize) as Hmod.
  set (pages := (- (- len / size))%Z) in *.
  assert (Hpages : (size * (pages - 1) < len <= size * pages)%Z) by (unfold pages; nia).
  exists (Z.to_nat (Z.max 1 pages)).
  split; [f_equal; lia|]. split; [lia|]. split; [|split].
  - apply Nat2Z.inj_le. rewrite Nat2Z.inj_mul, !Z2Nat.id by lia. fold len. nia.
  - intros Hsome. assert (0 < len)%Z by (unfold len; destruct posts; [congruence | cbn; lia]).
    apply Nat2Z.inj_lt. rewrite Nat2Z.inj_mul, Nat2Z.inj_sub, !Z2Nat.id by lia.
    fold len. nia.
  - intros ->. unfold len in *. cbn [length Z.of_nat] in *. nia.
Qed.

(** The page shown is the run of [size] posts that starts where the pages
    before the safe page end. *)
Lemma pagePosts_run page_raw limit_raw (posts : list Post) number size total :
  page page_raw = Whole number -> (1 <= number)%Z ->
  limit limit_raw = Whole size -> (0 < size)%Z ->
  totalPages (Whole size) posts = Whole (Z.of_nat total) ->
  (1 <= total)%nat ->
  (posts <> [] -> ((total - 1) * Z.to_nat size < length posts)%nat) ->
  (posts = [] -> total = 1%nat) ->
  pagePosts page_raw limit_raw posts
  = firstn (Z.to_nat size)
      (skipn ((Nat.min (Z.to_nat number) total - 1) * Z.to_nat size) posts).
Proof.
  intros Hpage Hnumber Hlimit Hsize Htotal Hone Hlast Hempty.
  unfold pagePosts. rewrite Hpage, Hlimit, Htotal. cbn [safePage num_min num_sub num_mul].
  set (safe := Z.min number (Z.of_nat total)).
  replace (safe * size)%Z with ((safe - 1) * size + size)%Z by lia.
  assert (Hsafe : Z.to_nat ((safe - 1) * size)
                  = ((Nat.min (Z.to_nat number) total - 1) * Z.to_nat size)%nat)
    by (unfold safe; nia).
  rewrite array_slice_inner, Hsafe; [reflexivity | | lia].
  split; [unfold safe; nia|].
  destruct posts as [|post posts].
  - rewrite (Hempty eq_refl) in *. unfold safe. cbn. lia.
  - specialize (Hlast ltac:(discriminate)). unfold safe. nia.
Qed.

End Pages.

(** X24. The pages of a list partition it, when the limit is a whole number
    (or is not given). There are [total] pages, one at least; the posts of the
    pages 1 to [total], put one after another, are the list itself, so every
    post is on exactly one page, in the order of the list. Every page before
    the last is full, and the last is not empty unless the list is. *)
Theorem X24_pages_partition (limit_raw : option Page.number) (posts : list Types.Post) :
  Page.whole_or_absent limit_raw ->
  exists (size : Z) (total : nat),
    Page.limit limit_raw = Page.Whole size
    /\ Page.totalPages (Page.limit limit_raw) posts = Page.Whole (Z.of_nat total)
    /\ (1 <= total)%nat
    /\ concat (map (fun k => Page.pagePosts (Some (Page.Whole (Z.of_nat k))) limit_raw posts)
                   (seq 1 total))
       = posts
    /\ (forall k, (1 <= k < total)%nat ->
          Z.of_nat (length (Page.pagePosts (Some (Page.Whole (Z.of_nat k))) limit_raw posts))
          = size)
    /\ (posts <> [] ->
          Page.pagePosts (Some (Page.Whole (Z.of_nat total))) limit_raw posts <> []).
Proof.
  intros Hlimit. destruct (limit_range limit_raw Hlimit) as (size & Hsize & Hrange).
  destruct (totalPages_range size posts ltac:(lia))
    as (total & Htotal & Hone & Hfit & Hlast & Hempty).
  exists size, total. rewrite Hsize. split; [reflexivity|]. split; [exact Htotal|].
  split; [exact Hone|].
  assert (Hrun : forall k, (1 <= k <= total)%nat ->
            Page.pagePosts (Some (Page.Whole (Z.of_nat k))) limit_raw posts
            = firstn (Z.to_nat size) (skipn ((k - 1) * Z.to_nat size) posts)).
  { intros k Hk.
    rewrite (pagePosts_run _ limit_raw posts (Z.of_nat k) size total);
      [| cbn; f_equal; lia | lia | exact Hsize | lia | exact Htotal | exact Hone
       | exact Hlast | exact Hempty].
    do 3 f_equal. lia. }
  split.
  { etransitivity; [|apply (chunks_concat (Z.to_nat size) total posts Hfit)].
    rewrite <- seq_shift, map_map. f_equal. apply map_ext_in.
    intros k Hk%in_seq. rewrite Hrun by lia. do 3 f_equal. lia. }
  split.
  { intros k Hk. rewrite Hrun by lia. rewrite length_firstn, length_skipn.
    assert (Hbelow : (k * Z.to_nat size <= (total - 1) * Z.to_nat size)%nat)
      by (apply Nat.mul_le_mono_r; lia).
    assert (Hstep : (k * Z.to_nat size = (k - 1) * Z.to_nat size + Z.to_nat size)%nat)
      by (destruct k; [lia | cbn; lia]).
    assert (Hsome : posts <> []) by (intros Hnil; specialize (Hempty Hnil); lia).
    specialize (Hlast Hsome). lia. }
  intros Hsome. rewrite Hrun by lia. specialize (Hlast Hsome).
  intros Hnil%(f_equal (@length _)). rewrite length_firstn, length_skipn in Hnil.
  cbn in Hnil. lia.
Qed.

Lemma X24_pages_partition_witness :
  exists (size : Z) (total : nat),
    Page.limit (Some (Page.Whole 3)) = Page.Whole size
    /\ Page.totalPages (Page.limit (Some (Page.Whole 3)))
         [Samples.on_llama_a; Samples.on_llama_b] = Page.Whole (Z.of_nat total)
    /\ (1 <= total)%nat
    /\ concat (map (fun k => Page.pagePosts (Some (Page.Whole (Z.of_nat k)))
                               (Some (Page.Whole 3))
                               [Samples.on_llama_a; Samples.on_llama_b])
                   (seq 1 total))
       = [Samples.on_llama_a; Samples.on_llama_b]
    /\ (forall k, (1 <= k < total)%nat ->
          Z.of_nat (length (Page.pagePosts (Some (Page.Whole (Z.of_nat k)))
                              (Some (Page.Whole 3))
                              [Samples.on_llama_a; Samples.on_llama_b]))
          = size)
    /\ ([Samples.on_llama_a; Samples.on_llama_b] <> [] ->
          Page.pagePosts (Some (Page.Whole (Z.of_nat total))) (Some (Page.Whole 3))
            [Samples.on_llama_a; Samples.on_llama_b] <> []).
Proof.
  apply (X24_pages_partition (Some (Page.Whole 3)) [Samples.on_llama_a; Samples.on_llama_b]).
  exact I.
Defined.

(** X25. What a request gets to see. Whatever the page and the limit, the
    page shown is a run of consecutive posts of the list. With a page and a
    limit that are whole numbers (or not given), the limit is brought into
    10..100 and the page into 1..[total]: a page below 1 shows the first page,
    a page beyond the last shows the last; the page shown has at most as many
    posts as the limit, and it has a post whenever the list has one. With a
    page or a limit that is not a number the page shown is empty, whatever the
    list holds. *)
Theorem X25_page_shown (page_raw limit_raw : option Page.number) (posts : list Types.Post) :
  (exists before after, posts = before ++ Page.pagePosts page_raw limit_raw posts ++ after)
  /\ (Page.whole_or_absent page_raw -> Page.whole_or_absent limit_raw ->
      exists (size number : Z) (total : nat),
        Page.limit limit_raw = Page.Whole size /\ (10 <= size <= 100)%Z
        /\ Page.page page_raw = Page.Whole number
        /\ Page.totalPages (Page.limit limit_raw) posts = Page.Whole (Z.of_nat total)
        /\ Page.pagePosts page_raw limit_raw posts
           = Page.pagePosts (Some (Page.Whole (Z.min (Z.max 1 number) (Z.of_nat total))))
               limit_raw posts
        /\ (Z.of_nat (length (Page.pagePosts page_raw limit_raw posts)) <= size)%Z
        /\ (posts <> [] -> Page.pagePosts page_raw limit_raw posts <> []))
  /\ (page_raw = Some Page.NaN \/ limit_raw = Some Page.NaN ->
      Page.pagePosts page_raw limit_raw posts = []).
Proof.
  split; [apply array_slice_run|]. split.
  - intros Hpage Hlimit.
    destruct (limit_range limit_raw Hlimit) as (size & Hsize & Hrange).
    destruct (page_range page_raw Hpage) as (number & Hnumber & Hlow).
    destruct (totalPages_range size posts ltac:(lia))
      as (total & Htotal & Hone & Hfit & Hlast & Hempty).
    exists size, number, total. rewrite Hsize.
    split; [reflexivity|]. split; [exact Hrange|]. split; [exact Hnumber|].
    split; [exact Htotal|].
    rewrite (pagePosts_run page_raw limit_raw posts number size total)
      by (assumption || lia).
    split.
    { rewrite (pagePosts_run _ limit_raw posts
                 (Z.min (Z.max 1 number) (Z.of_nat total)) size total);
        [| cbn; f_equal; lia | lia | exact Hsize | lia | exact Htotal | exact Hone
         | exact Hlast | exact Hempty].
      do 3 f_equal. lia. }
    split; [rewrite length_firstn; lia|].
    intros Hsome. specialize (Hlast Hsome).
    intros Hnil%(f_equal (@length _)). rewrite length_firstn, length_skipn in Hnil.
    cbn in Hnil.
    assert ((Nat.min (Z.to_nat number) total - 1) * Z.to_nat size
            <= (total - 1) * Z.to_nat size)%nat by (apply Nat.mul_le_mono_r; lia).
    lia.
  - intros [-> | ->]; unfold Page.pagePosts, Page.page, Page.limit, Page.totalPages,
      Page.safePage.
    + now rewrite num_max_NaN, NaN_num_min, NaN_num_sub, !NaN_num_mul, array_slice_NaN.
    + now rewrite !num_max_NaN, !num_min_NaN, ceil_div_NaN, num_max_NaN, num_min_NaN,
        NaN_num_sub, !NaN_num_mul, array_slice_NaN.
Qed.

Lemma X25_page_shown_witness :
  Page.pagePosts (Some Page.NaN) None [Samples.on_llama_a; Samples.on_llama_b] = []
  /\ exists (size number : Z) (total : nat),
       Page.limit None = Page.Whole size /\ (10 <= size <= 100)%Z
       /\ Page.page (Some (Page.Whole 7)) = Page.Whole number
       /\ Page.totalPages (Page.limit None) [Samples.on_llama_a; Samples.on_llama_b]
          = Page.Whole (Z.of_nat total)
       /\ Page.pagePosts (Some (Page.Whole 7)) None [Samples.on_llama_a; Samples.on_llama_b]
          = Page.pagePosts (Some (Page.Whole (Z.min (Z.max 1 number) (Z.of_nat total))))
              None [Samples.on_llama_a; Samples.on_llama_b]
       /\ (Z.of_nat (length (Page.pagePosts (Some (Page.Whole 7)) None
                               [Samples.on_llama_a; Samples.on_llama_b])) <= size)%Z
       /\ ([Samples.on_llama_a; Samples.on_llama_b] <> [] ->
           Page.pagePosts (Some (Page.Whole 7)) None
             [Samples.on_llama_a; Samples.on_llama_b] <> []).
Proof.
  split.
  - apply (proj2 (proj2 (X25_page_shown (Some Page.NaN) None
                           [Samples.on_llama_a; Samples.on_llama_b]))). now left.
  - apply (proj1 (proj2 (X25_page_shown (Some (Page.Whole 7)) None
                           [Samples.on_llama_a; Samples.on_llama_b]))); exact I.
Defined.

(** A limit with a fraction is kept as it is, and [slice] cuts the ends of
    each page to whole indices: with a limit of 10.5, 22 posts go on pages of
    10, 11 and 1 posts; and the page 1.5 of 30 posts, ten to the page, shows
    the posts 5 to 14, which is none of the pages. *)
Example fractional_limit_and_page :
  map (fun k => length (Page.pagePosts (Some (Page.Whole k)) (Some Fractions.ten_and_a_half)
                          (repeat Samples.on_qwen 22)))
      [1; 2; 3]%Z
  = [10; 11; 1]%nat
  /\ Page.pagePosts (Some Fractions.one_and_a_half) (Some (Page.Whole 10))
       (map (fun k => Types.mkPost (Grouped.show_length k) EmptyString
                        None None None None None) (seq 0 30))
     = map (fun k => Types.mkPost (Grouped.show_length k) EmptyString
                       None None None None None) (seq 5 10).
Proof. split; vm_compute; reflexivity. Qed.
